(** * TradeDash: the price engine, the history buffers and the subscription
      handlers of [server.js], embedded in Rocq.

    Conventions of the embedding.

    - A JavaScript number is a [number]: [NaN] or an exact rational [Num q].
      Every IEEE double is a rational, and [toFixed] is exact on it.  In
      the price engine the rounding error of [+], [-], [*] on doubles, the
      infinities and the sign of zero are not modelled, and results are
      kept as fractions in lowest terms so that the definitions can be
      run.  The one comparison that rounding decides, the 20% test of the
      login handler, is computed in binary64 arithmetic ([double]).
    - Prices are stored the way the server stores them: as the strings that
      [toFixed(2)] returns, read back with [parseFloat].
    - [Math.random()], the clock ([Date.now()], [new Date()]),
      [toLocaleTimeString] and [bcrypt.compare] come from an [Environment];
      the memory of the process counts the calls of the first two.
    - The rooms of socket.io are a finite relation between room names and
      sockets; what the server writes to a socket is appended to an outbox.
    - MongoDB is a finite map from the unique [email] to the user document;
      [updateOne] with [$pull] or [$push] changes the subscriptions of the
      one matching document.
    - An [async] handler is a [Prog]: reads of and effects on the memory of
      the process, separated by [Await] nodes where a request is in flight
      and other handlers, or the timer, may run.  [run] runs one handler
      alone from start to end; [exec] is the event loop, where messages,
      answers and timer firings come in any order.
    - A message carries the payload object that its handler destructures.
      An emit without a payload makes the handler throw outside any [try]
      and ends the process: [play] is the event loop with such emits.
    - The [register] handler has its own events, requests and event loop,
      in [Registration].

    The static file server and the connection to the database are not
    part of the embedding. *)

From Stdlib Require Import QArith Qround Qabs Lqa ZArith Lia.
From Stdlib Require Import Ascii String DecimalString DecimalN.
From Stdlib Require Import Floats.SpecFloat.
From stdpp Require Import base gmap strings list.

Local Open Scope string_scope.
Local Open Scope list_scope.

(** ** JavaScript numbers *)

Inductive number : Type :=
| NaN
| Num (q : Q).

Definition Qlt_bool (x y : Q) : bool := negb (Qle_bool y x).

(** Sum, difference and product, as fractions in lowest terms. *)
Definition nadd (a b : number) : number :=
  match a, b with Num x, Num y => Num (Qred (x + y)) | _, _ => NaN end.
Definition nsub (a b : number) : number :=
  match a, b with Num x, Num y => Num (Qred (x - y)) | _, _ => NaN end.
Definition nmul (a b : number) : number :=
  match a, b with Num x, Num y => Num (Qred (x * y)) | _, _ => NaN end.
(** [a < b]: false as soon as one side is [NaN]. *)
Definition nlt (a b : number) : bool :=
  match a, b with Num x, Num y => Qlt_bool x y | _, _ => false end.
(** Truthiness of a number: [0] and [NaN] are falsy. *)
Definition truthy_num (a : number) : bool :=
  match a with Num x => negb (Qeq_bool x 0) | NaN => false end.
Definition truthy_str (s : string) : bool :=
  match s with EmptyString => false | _ => true end.

(** ** Doubles *)

(** Where a comparison is decided by the rounding of doubles, the numbers
    are taken as IEEE 754 binary64 values and the arithmetic is that of
    the standard: every operation is rounded once, to nearest, ties to
    even. *)
Definition double : Type := spec_float.

Definition double_of_Z (z : Z) : double := binary_normalize 53 1024 z 0 false.

(** The double that stands for [q]: the quotient, rounded once, of the
    numerator and the denominator as doubles.  It is the double nearest to
    [q] when both are doubles themselves (below [2^53], or such a number
    times a power of two).  So the value of a decimal literal of up to 15
    digits becomes what [parseFloat] returns for the literal, and a
    double, as a fraction in lowest terms with a denominator below
    [2^1024], stays what it is. *)
Definition double_of_Q (q : Q) : double :=
  SFdiv 53 1024 (double_of_Z (Qnum q)) (double_of_Z (Z.pos (Qden q))).

Definition to_double (a : number) : double :=
  match a with NaN => S754_nan | Num q => double_of_Q q end.

(** [a - b], [a * b], [Math.abs(a)] and [a > b] on doubles. *)
Definition dsub (a b : double) : double := SFsub 53 1024 a b.
Definition dmul (a b : double) : double := SFmul 53 1024 a b.
Definition dabs (a : double) : double := SFabs a.
Definition dgt (a b : double) : bool := SFltb b a.

(** ** [Number.prototype.toFixed(2)] and [parseFloat] *)

(** The integer [n] for which [n / 100 - |x|] is as close to zero as
    possible, the larger one on a tie. *)
Definition cents (x : Q) : N := Z.to_N (Qfloor (Qabs x * 100 + (1 # 2))).

(** The character of the last decimal digit of [n]. *)
Definition digit (n : N) : ascii := ascii_of_N (48 + n mod 10).

(** [a.b] with [b] the last two digits of [n] and [a] the digits before
    them, ["0"] when there are none. *)
Definition render_cents (n : N) : string :=
  NilEmpty.string_of_uint (N.to_uint (n / 100))
  +:+ String "." (String (digit (n / 10)) (String (digit n) EmptyString)).

(** [x.toFixed(2)]: the sign, then the cents.  (The exponent notation of
    magnitudes from 1e21 on is left out.) *)
Definition toFixed2 (x : number) : string :=
  match x with
  | NaN => "NaN"
  | Num q => (if Qlt_bool q 0 then "-" else EmptyString) +:+ render_cents (cents q)
  end.

Definition is_digit (c : ascii) : bool :=
  let n := N_of_ascii c in ((48 <=? n) && (n <=? 57))%N.

(** Longest prefix of decimal digits, and what follows it. *)
Fixpoint span_digits (s : string) : string * string :=
  match s with
  | String c r =>
      if is_digit c
      then let (d, t) := span_digits r in (String c d, t)
      else (EmptyString, s)
  | EmptyString => (EmptyString, EmptyString)
  end.

(** The number a string of decimal digits denotes, [0] for the empty
    string. *)
Definition digits_value (d : string) : N :=
  match NilEmpty.uint_of_string d with
  | Some u => N.of_uint u
  | None => 0
  end.

(** An optional sign. *)
Definition strip_sign (s : string) : bool * string :=
  match s with
  | String c r =>
      if Ascii.eqb c "-" then (true, r)
      else if Ascii.eqb c "+" then (false, r)
      else (false, s)
  | EmptyString => (false, s)
  end.

(** The digits after a decimal point, when there is one. *)
Definition fraction_digits (s : string) : string :=
  match s with
  | String c r => if Ascii.eqb c "." then fst (span_digits r) else EmptyString
  | EmptyString => EmptyString
  end.

(** [parseFloat] on the decimal literals [[+-]digits[.digits]]: the longest
    such prefix is read, anything without one is [NaN].  Leading white
    space, exponents and [Infinity] are left out: [toFixed(2)] never
    prints them for the magnitudes of this program. *)
Definition parseFloat (s : string) : number :=
  let '(neg, s1) := strip_sign s in
  let '(ip, r1) := span_digits s1 in
  let fp := fraction_digits r1 in
  match ip, fp with
  | EmptyString, EmptyString => NaN
  | _, _ =>
      let k := N.of_nat (String.length fp) in
      let m := Z.of_N (digits_value ip * 10 ^ k + digits_value fp) in
      Num (Qmake (if neg then - m else m) (Z.to_pos (10 ^ Z.of_N k)))
  end.

(** [parseFloat(undefined)] is [NaN]. *)
Definition parseFloat_opt (o : option string) : number :=
  match o with Some s => parseFloat s | None => NaN end.

(** The value [toFixed(2)] prints for [q], as a number. *)
Definition round2 (q : Q) : Q :=
  let m := Z.of_N (cents q) in
  Qmake (if Qlt_bool q 0 then - m else m) 100.

(** ** The environment of the process *)

(** What the program takes from outside: the [n]-th value returned by
    [Math.random()], the [n]-th reading of the clock in milliseconds
    ([Date.now()], [new Date()]), the locale's rendering of a time and the
    verdict of [bcrypt.compare]. *)
Class Environment : Type := {
  Math_random : nat -> Q;
  Date_now : nat -> Z;
  toLocaleTimeString : Z -> string;
  bcrypt_compare : string -> string -> bool
}.

(** The contract of [Math.random()]: a value in [[0, 1)]. *)
Definition random_in_range `{Environment} : Prop :=
  forall n, (0 <= Math_random n)%Q /\ (Math_random n < 1)%Q.

(** ** The instrument catalog *)

Definition STOCK_BASE_PRICES : list (string * Q) :=
  [ ("GOOG", 17550 # 100);
    ("TSLA", 34220 # 100);
    ("AMZN", 20210 # 100);
    ("META", 59500 # 100);
    ("NVDA", 13880 # 100) ]%Q.

(** [Object.keys(STOCK_BASE_PRICES)], in insertion order. *)
Definition STOCKS : list string := map fst STOCK_BASE_PRICES.

(** Property lookup in an object literal. *)
Fixpoint assoc (k : string) (l : list (string * Q)) : option Q :=
  match l with
  | [] => None
  | (k', v) :: r => if String.eqb k k' then Some v else assoc k r
  end.

(** A property read that may be [undefined], used as a number. *)
Definition number_of (o : option Q) : number :=
  match o with Some q => Num q | None => NaN end.

(** [STOCK_BASE_PRICES[stock]]; [undefined] only outside the catalog, where
    the arithmetic of the update loop turns it into [NaN]. *)
Definition base_price (stock : string) : number :=
  number_of (assoc stock STOCK_BASE_PRICES).

(** [STOCKS.includes(x)]. *)
Definition includes (l : list string) (x : string) : bool :=
  existsb (String.eqb x) l.

(** ** Data *)

Definition SocketId : Type := nat.

(** An entry of [stockHistory[stock]].  The seeding loop writes
    [{price, timestamp}], the update loop [{code, price, timestamp}]. *)
Record DataPoint : Type := {
  code : option string;
  price : string;
  timestamp : string
}.

(** An element of [user.subscriptions] as it comes back from the store:
    both fields of the schema are optional. *)
Record Sub : Type := {
  symbol : option string;
  entryPrice : option Q
}.

(** An element of [cleanSubs]. *)
Record CleanSub : Type := {
  clean_symbol : string;
  clean_entryPrice : number
}.

Record User : Type := {
  name : string;
  email : string;
  password : string;
  subscriptions : list (option Sub)
}.

(** The [users] collection, keyed by its unique [email]. *)
Abbreviation Db := (gmap string User).

Inductive Event : Type :=
| authError (msg : string)
| loadHistory (code : string) (history : option (list DataPoint))
| loginSuccess (name email : string) (savedSubscriptions : list CleanSub)
               (availableStocks : list string)
| priceUpdate (dataPoint : DataPoint).

(** The memory of the process: the two global tables, the rooms of the
    socket.io adapter as a relation between room names and sockets,
    [socket.userEmail] per socket, what was written to each socket and to
    the console, and how often the random source and the clock were
    read. *)
Record Server : Type := {
  currentPrices : gmap string string;
  stockHistory : gmap string (list DataPoint);
  rooms : gset (string * SocketId);
  userEmail : gmap SocketId string;
  outbox : list (SocketId * Event);
  console : list string;
  randomCalls : nat;
  clockCalls : nat
}.

(** The memory before the first statement, and the assignments to its
    parts. *)
Definition empty_server : Server :=
  {| currentPrices := ∅; stockHistory := ∅; rooms := ∅; userEmail := ∅;
     outbox := []; console := []; randomCalls := 0; clockCalls := 0 |}.

Definition set_price (stock p : string) (s : Server) : Server :=
  {| currentPrices := <[stock := p]> (currentPrices s);
     stockHistory := stockHistory s; rooms := rooms s;
     userEmail := userEmail s; outbox := outbox s; console := console s;
     randomCalls := randomCalls s; clockCalls := clockCalls s |}.

Definition set_history (stock : string) (h : list DataPoint) (s : Server) : Server :=
  {| currentPrices := currentPrices s;
     stockHistory := <[stock := h]> (stockHistory s); rooms := rooms s;
     userEmail := userEmail s; outbox := outbox s; console := console s;
     randomCalls := randomCalls s; clockCalls := clockCalls s |}.

Definition set_rooms (r : gset (string * SocketId)) (s : Server) : Server :=
  {| currentPrices := currentPrices s; stockHistory := stockHistory s;
     rooms := r;
     userEmail := userEmail s; outbox := outbox s; console := console s;
     randomCalls := randomCalls s; clockCalls := clockCalls s |}.

Definition set_userEmail (sock : SocketId) (e : string) (s : Server) : Server :=
  {| currentPrices := currentPrices s; stockHistory := stockHistory s;
     rooms := rooms s;
     userEmail := <[sock := e]> (userEmail s);
     outbox := outbox s; console := console s;
     randomCalls := randomCalls s; clockCalls := clockCalls s |}.

Definition send (msgs : list (SocketId * Event)) (s : Server) : Server :=
  {| currentPrices := currentPrices s; stockHistory := stockHistory s;
     rooms := rooms s; userEmail := userEmail s;
     outbox := outbox s ++ msgs;
     console := console s;
     randomCalls := randomCalls s; clockCalls := clockCalls s |}.

Definition write_console (line : string) (s : Server) : Server :=
  {| currentPrices := currentPrices s; stockHistory := stockHistory s;
     rooms := rooms s; userEmail := userEmail s; outbox := outbox s;
     console := console s ++ [line];
     randomCalls := randomCalls s; clockCalls := clockCalls s |}.

Definition used_random (s : Server) : Server :=
  {| currentPrices := currentPrices s; stockHistory := stockHistory s;
     rooms := rooms s; userEmail := userEmail s; outbox := outbox s;
     console := console s;
     randomCalls := S (randomCalls s); clockCalls := clockCalls s |}.

Definition used_clock (s : Server) : Server :=
  {| currentPrices := currentPrices s; stockHistory := stockHistory s;
     rooms := rooms s; userEmail := userEmail s; outbox := outbox s;
     console := console s;
     randomCalls := randomCalls s; clockCalls := S (clockCalls s) |}.

(** The sockets in a room. *)
Definition members (room : string) (r : gset (string * SocketId)) : list SocketId :=
  omap (fun p : string * SocketId =>
          if String.eqb (fst p) room then Some (snd p) else None)
       (elements r).

(** [io.to(room).emit(...)]: one copy of the event to each member. *)
Definition broadcast (room : string) (ev : Event) (s : Server) : Server :=
  send (map (fun c => (c, ev)) (members room (rooms s))) s.

(** [socket.userEmail] when it is truthy. *)
Definition session (sock : SocketId) (s : Server) : option string :=
  match userEmail s !! sock with
  | Some e => if truthy_str e then Some e else None
  | None => None
  end.

(** ** The price engine *)

Section Engine.
Context `{Environment}.

(** One turn of the seeding loop, for the loop counter [i]. *)
Definition seed_step (i : nat) (basePrice : number)
    (st : number * list DataPoint * Server) : number * list DataPoint * Server :=
  let '(tempPrice, history, s) := st in
  let volatility :=
    nmul (nsub (Num (Math_random (randomCalls s))) (Num (5 # 10))) (Num (8 # 10)) in
  let pull := nmul (nsub basePrice tempPrice) (Num (5 # 100)) in
  let tempPrice := nadd tempPrice (nadd volatility pull) in
  let point :=
    {| code := None;
       price := toFixed2 tempPrice;
       timestamp :=
         toLocaleTimeString (Date_now (clockCalls s) - Z.of_nat i * 3000) |} in
  (tempPrice, history ++ [point], used_clock (used_random s)).

(** [for (let i = n; i > 0; i--) { ... }]. *)
Fixpoint seed_loop (i : nat) (basePrice : number)
    (st : number * list DataPoint * Server) : number * list DataPoint * Server :=
  match i with
  | O => st
  | S j => seed_loop j basePrice (seed_step i basePrice st)
  end.

(** The body of [STOCKS.forEach(stock => ...)] at start-up. *)
Definition init_stock (s : Server) (stock : string) : Server :=
  let basePrice := base_price stock in
  let s := set_price stock (toFixed2 basePrice) s in
  let s := set_history stock [] s in
  let '(tempPrice, history, s) := seed_loop 100 basePrice (basePrice, [], s) in
  let s := set_history stock history s in
  set_price stock (toFixed2 tempPrice) s.

(** The memory of the process once the module is loaded. *)
Definition init : Server := fold_left init_stock STOCKS empty_server.

(** The new price of the update loop, from the current price string, the
    base price and the random draw. *)
Definition next_price (current base : number) (draw : Q) : number :=
  let noise := nsub (nmul (Num draw) (Num (4 # 10))) (Num (2 # 10)) in
  let pull := nmul (nsub base current) (Num (2 # 100)) in
  let newPrice := nadd (nadd current noise) pull in
  if nlt newPrice (Num 10) then Num 10 else newPrice.

(** [push] then [shift] when the length exceeds 100. *)
Definition append_point (h : list DataPoint) (d : DataPoint) : list DataPoint :=
  let h := h ++ [d] in
  if (100 <? length h)%nat then tail h else h.

(** The body of [STOCKS.forEach(stockCode => ...)] in the timer callback.
    [None] is the [TypeError] of [undefined.push]. *)
Definition tick_stock (s : Server) (stockCode : string) : option Server :=
  let current := parseFloat_opt (currentPrices s !! stockCode) in
  let base := base_price stockCode in
  let newPrice := next_price current base (Math_random (randomCalls s)) in
  let s := used_random s in
  let s := set_price stockCode (toFixed2 newPrice) s in
  let dataPoint :=
    {| code := Some stockCode;
       price := toFixed2 newPrice;
       timestamp := toLocaleTimeString (Date_now (clockCalls s)) |} in
  let s := used_clock s in
  match stockHistory s !! stockCode with
  | None => None
  | Some h =>
      let s := set_history stockCode (append_point h dataPoint) s in
      Some (broadcast stockCode (priceUpdate dataPoint) s)
  end.

(** [stocks.forEach(...)]: an exception ends the loop. *)
Fixpoint tick_over (stocks : list string) (s : Server) : option Server :=
  match stocks with
  | [] => Some s
  | stockCode :: rest =>
      match tick_stock s stockCode with
      | Some s' => tick_over rest s'
      | None => None
      end
  end.

(** One firing of the [setInterval] callback. *)
Definition tick (s : Server) : option Server := tick_over STOCKS s.

(** [n] firings in a row. *)
Fixpoint ticks (n : nat) (s : Server) : option Server :=
  match n with
  | O => Some s
  | S m => match tick s with Some s' => ticks m s' | None => None end
  end.

End Engine.

(** ** Reconciliation of the persisted subscriptions *)

(** The body of [user.subscriptions.forEach(sub => ...)] in the login
    handler, with [cleanSubs] as the accumulator. *)
Definition clean (prices : gmap string string) (acc : list CleanSub)
    (sub : option Sub) : list CleanSub :=
  match sub with
  | Some {| symbol := Some sym; entryPrice := stored |} =>
      if truthy_str sym && includes STOCKS sym then
        let currentP := parseFloat_opt (prices !! sym) in
        let entryP := number_of stored in
        let entryP :=
          if negb (truthy_num entryP)
             || dgt (dabs (dsub (to_double entryP) (to_double currentP)))
                    (dmul (to_double currentP) (to_double (Num (2 # 10))))
          then currentP else entryP in
        acc ++ [ {| clean_symbol := sym; clean_entryPrice := entryP |} ]
      else acc
  | _ => acc
  end.

(** The value of [cleanSubs] after the loop. *)
Definition cleanSubs (prices : gmap string string) (subs : list (option Sub))
    : list CleanSub :=
  fold_left (clean prices) subs [].

(** ** The account store *)

(** The two update documents of the handlers:
    [{ $pull: { subscriptions: { symbol } } }] and
    [{ $push: { subscriptions: { symbol, entryPrice } } }]. *)
Inductive Update : Type :=
| Pull (symbol : string)
| Push (symbol : string) (entryPrice : number).

(** What a handler awaits, indexed by what the promise resolves to. *)
Inductive Request : Type -> Type :=
| FindOne (email : string) : Request (option User)
| UpdateOne (email : option string) (u : Update) : Request unit
| Compare (plain hash : string) : Request bool.

(** The array elements that the condition [{ symbol: sym }] matches. *)
Definition has_symbol (sym : string) (sub : option Sub) : bool :=
  match sub with
  | Some {| symbol := Some x |} => String.eqb x sym
  | _ => false
  end.

(** [$pull] removes every matching element, [$push] appends one. *)
Definition pull (sym : string) (u : User) : User :=
  {| name := name u; email := email u; password := password u;
     subscriptions := List.filter (fun x => negb (has_symbol sym x)) (subscriptions u) |}.

Definition push (sym : string) (q : Q) (u : User) : User :=
  {| name := name u; email := email u; password := password u;
     subscriptions :=
       subscriptions u ++ [ Some {| symbol := Some sym; entryPrice := Some q |} ] |}.

(** [updateOne] changes the one document with that email, none when there
    is no such document. *)
Definition update_user (e : option string) (f : User -> User) (db : Db) : Db :=
  match e with
  | Some e => alter f e db
  | None => db
  end.

(** The store (and bcrypt) answering a request.  [fail] makes the promise
    reject without any change; [None] is the rejection.  A [$push] of [NaN]
    is rejected by the schema's cast of [entryPrice: Number]. *)
Definition perform `{Environment} {R : Type} (fail : bool) (r : Request R) (db : Db)
    : Db * option R :=
  match r in Request T return Db * option T with
  | FindOne e => (db, if fail then None else Some (db !! e))
  | UpdateOne e (Pull sym) =>
      if fail then (db, None) else (update_user e (pull sym) db, Some tt)
  | UpdateOne e (Push sym p) =>
      match p with
      | Num q => if fail then (db, None) else (update_user e (push sym q) db, Some tt)
      | NaN => (db, None)
      end
  | Compare plain hash => (db, if fail then None else Some (bcrypt_compare plain hash))
  end.

(** ** Handlers as programs *)

(** What a handler does to the memory of the process. *)
Inductive Effect : Type :=
| Join (sock : SocketId) (room : string)          (* socket.join(room) *)
| Leave (sock : SocketId) (room : string)         (* socket.leave(room) *)
| Emit (sock : SocketId) (ev : Event)             (* socket.emit(...) *)
| SetUserEmail (sock : SocketId) (e : string)     (* socket.userEmail = e *)
| ConsoleLog (line : string)
| ConsoleError (line : string).

Definition apply_effect (e : Effect) (s : Server) : Server :=
  match e with
  | Join sock room => set_rooms ({[ (room, sock) ]} ∪ rooms s) s
  | Leave sock room => set_rooms (rooms s ∖ {[ (room, sock) ]}) s
  | Emit sock ev => send [ (sock, ev) ] s
  | SetUserEmail sock e => set_userEmail sock e s
  | ConsoleLog line => write_console line s
  | ConsoleError line => write_console line s
  end.

(** The code of an [async] function: it reads the memory of the process,
    acts on it, and at an [Await] gives the control back until the request
    is answered. *)
Inductive Prog (A : Type) : Type :=
| Ret (a : A)
| Read (k : Server -> Prog A)
| Do (e : Effect) (k : Prog A)
| Await {R : Type} (r : Request R) (k : option R -> Prog A).

Arguments Ret {A} a.
Arguments Read {A} k.
Arguments Do {A} e k.
Arguments Await {A R} r k.

(** Sequencing: [p], then [f] on its result. *)
Fixpoint bind {A B : Type} (p : Prog A) (f : A -> Prog B) : Prog B :=
  match p with
  | Ret a => f a
  | Read k => Read (fun s => bind (k s) f)
  | Do e k => Do e (bind k f)
  | Await r k => Await r (fun x => bind (k x) f)
  end.

Notation "x <- p ;; q" := (bind p (fun x => q))
  (at level 100, p at next level, right associativity).
Notation "p ;; q" := (bind p (fun _ => q))
  (at level 100, right associativity).

Definition read {A : Type} (f : Server -> A) : Prog A := Read (fun s => Ret (f s)).
Definition do (e : Effect) : Prog unit := Do e (Ret tt).
Definition await {R : Type} (r : Request R) : Prog (option R) := Await r Ret.

(** [l.forEach(f)]. *)
Fixpoint forEach {A : Type} (l : list A) (f : A -> Prog unit) : Prog unit :=
  match l with
  | [] => Ret tt
  | x :: rest => f x ;; forEach rest f
  end.

(** The second loop of the login handler: restore the rooms. *)
Definition restore (sock : SocketId) (sub : CleanSub) : Prog unit :=
  do (Join sock (clean_symbol sub)) ;;
  history <- read (fun s => stockHistory s !! clean_symbol sub) ;;
  do (Emit sock (loadHistory (clean_symbol sub) history)).

(** The [catch] of the login handler. *)
Definition login_failed (sock : SocketId) : Prog unit :=
  do (ConsoleError "Error") ;;
  do (Emit sock (authError "Login failed.")).

(** [socket.on('login', async ({ email, password }) => ...)]. *)
Definition login (sock : SocketId) (email0 password0 : string) : Prog unit :=
  found <- await (FindOne email0) ;;
  match found with
  | None => login_failed sock
  | Some None => do (Emit sock (authError "User not found."))
  | Some (Some user) =>
      isMatch <- await (Compare password0 (password user)) ;;
      match isMatch with
      | None => login_failed sock
      | Some false => do (Emit sock (authError "Invalid password."))
      | Some true =>
          do (SetUserEmail sock (email user)) ;;
          prices <- read currentPrices ;;
          let subs := cleanSubs prices (subscriptions user) in
          forEach subs (restore sock) ;;
          do (Emit sock (loginSuccess (name user) (email user) subs STOCKS))
      end
  end.

(** [socket.on('subscribe', async ({ stockCode }) => ...)]. *)
Definition subscribe (sock : SocketId) (stockCode : string) : Prog unit :=
  who <- read (session sock) ;;
  match who with
  | None => do (Emit sock (authError "Session expired. Relogin."))
  | Some me =>
      if negb (includes STOCKS stockCode) then Ret tt
      else
        do (Join sock stockCode) ;;
        priceNow <- read (fun s => parseFloat_opt (currentPrices s !! stockCode)) ;;
        do (ConsoleLog ("[DB] Subscribing " +:+ me +:+ " to " +:+ stockCode)) ;;
        e1 <- read (fun s => userEmail s !! sock) ;;
        pulled <- await (UpdateOne e1 (Pull stockCode)) ;;
        match pulled with
        | None => do (ConsoleError "Subscribe Error:")
        | Some _ =>
            e2 <- read (fun s => userEmail s !! sock) ;;
            pushed <- await (UpdateOne e2 (Push stockCode priceNow)) ;;
            match pushed with
            | None => do (ConsoleError "Subscribe Error:")
            | Some _ => Ret tt
            end
        end ;;
        history <- read (fun s => stockHistory s !! stockCode) ;;
        do (Emit sock (loadHistory stockCode history))
  end.

(** [socket.on('unsubscribe', async ({ stockCode }) => ...)]. *)
Definition unsubscribe (sock : SocketId) (stockCode : string) : Prog unit :=
  who <- read (session sock) ;;
  match who with
  | None => Ret tt
  | Some me =>
      do (Leave sock stockCode) ;;
      do (ConsoleLog ("[DB] Unsubscribing " +:+ me +:+ " from " +:+ stockCode)) ;;
      e1 <- read (fun s => userEmail s !! sock) ;;
      pulled <- await (UpdateOne e1 (Pull stockCode)) ;;
      match pulled with
      | None => do (ConsoleError "Unsubscribe Error:")
      | Some _ => Ret tt
      end
  end.

(** [socket.on('unsubscribeAll', ({ stocks }) => ...)]. *)
Definition unsubscribeAll (sock : SocketId) (stocks : list string) : Prog unit :=
  who <- read (session sock) ;;
  match who with
  | None => Ret tt
  | Some _ => forEach stocks (fun st => do (Leave sock st))
  end.

(** [socket.on('joinFeed', ({ stockCode }) => ...)]. *)
Definition joinFeed (sock : SocketId) (stockCode : string) : Prog unit :=
  if includes STOCKS stockCode then do (Join sock stockCode) else Ret tt.

(** ** Running handlers *)

Section Running.
Context `{Environment}.

(** A handler run from its first statement to its last, nothing else
    running in between; [fails] tells, request after request, which
    promises reject (none once the list is used up). *)
Fixpoint run {A : Type} (p : Prog A) (fails : list bool) (s : Server) (db : Db)
    : A * Server * Db :=
  match p with
  | Ret a => (a, s, db)
  | Read k => run (k s) fails s db
  | Do e k => run k fails (apply_effect e s) db
  | Await r k =>
      let '(db', reply) := perform (hd false fails) r db in
      run (k reply) (tl fails) s db'
  end.

(** The synchronous stretch of a handler: up to its end or its next
    [await]. *)
Fixpoint advance {A : Type} (p : Prog A) (s : Server) : Server * Prog A :=
  match p with
  | Ret a => (s, Ret a)
  | Read k => advance (k s) s
  | Do e k => advance k (apply_effect e s)
  | Await r k => (s, Await r k)
  end.

(** An emit that carries its payload object, with the fields that the
    handler destructures.  (An emit without a payload is a [bare] one,
    below.) *)
Inductive Message : Type :=
| login_msg (email password : string)
| subscribe_msg (stockCode : string)
| unsubscribe_msg (stockCode : string)
| unsubscribeAll_msg (stocks : list string)
| joinFeed_msg (stockCode : string).

(** The body of the handler of a message, given the fields of its
    payload. *)
Definition handler (sock : SocketId) (m : Message) : Prog unit :=
  match m with
  | login_msg e p => login sock e p
  | subscribe_msg c => subscribe sock c
  | unsubscribe_msg c => unsubscribe sock c
  | unsubscribeAll_msg l => unsubscribeAll sock l
  | joinFeed_msg c => joinFeed sock c
  end.

(** The process between two turns of the event loop: its memory, the
    store, and the handlers waiting for an answer. *)
Record System : Type := {
  server : Server;
  database : Db;
  pending : list (Prog unit)
}.

Definition park (p : Prog unit) (l : list (Prog unit)) : list (Prog unit) :=
  match p with
  | Await _ _ => l ++ [p]
  | _ => l
  end.

(** A turn of the event loop: a message arrives on a socket, the answer to
    the request of the [i]-th waiting handler arrives, or the timer
    fires. *)
Inductive Action : Type :=
| Receive (sock : SocketId) (m : Message)
| Resume (i : nat) (fail : bool)
| Tick.

Definition step (sys : System) (a : Action) : option System :=
  match a with
  | Receive sock m =>
      let '(s, p) := advance (handler sock m) (server sys) in
      Some {| server := s; database := database sys; pending := park p (pending sys) |}
  | Resume i fail =>
      match pending sys !! i with
      | Some (Await r k) =>
          let '(db, reply) := perform fail r (database sys) in
          let '(s, p) := advance (k reply) (server sys) in
          Some {| server := s; database := db;
                  pending := park p (delete i (pending sys)) |}
      | _ => Some sys
      end
  | Tick =>
      match tick (server sys) with
      | Some s => Some {| server := s; database := database sys; pending := pending sys |}
      | None => None
      end
  end.

Fixpoint exec (acts : list Action) (sys : System) : option System :=
  match acts with
  | [] => Some sys
  | a :: rest =>
      match step sys a with
      | Some sys' => exec rest sys'
      | None => None
      end
  end.

End Running.

(** ** Vocabulary of the statements *)

Section Vocabulary.
Context `{Environment}.

(** Within 8 of the base price: what the 5% pull does to draws within
    0.4. *)
Definition near (b t : Q) : Prop := (b - 8 <= t)%Q /\ (t <= b + 8)%Q.

Definition advance_counters (i : nat) (s : Server) : Server :=
  {| currentPrices := currentPrices s; stockHistory := stockHistory s;
     rooms := rooms s; userEmail := userEmail s; outbox := outbox s;
     console := console s;
     randomCalls := i + randomCalls s; clockCalls := i + clockCalls s |}.

(** The [k]-th point written by a warm-up of [i] turns that started at the
    [c0]-th reading of the clock. *)
Definition seeded (b : Q) (c0 i k : nat) (pt : DataPoint) : Prop :=
  code pt = None /\
  (exists q, near b q /\ price pt = toFixed2 (Num q)) /\
  timestamp pt =
    toLocaleTimeString (Date_now (c0 + k) - Z.of_nat (i - k) * 3000).

(** Every catalog symbol has its 100 points. *)
Definition full (s : Server) : Prop :=
  forall x, In x STOCKS -> exists h, stockHistory s !! x = Some h /\ length h = 100.

(** The copies of one point that go out: one per member of the room of its
    symbol. *)
Definition deliveries (r : gset (string * SocketId)) (dp : DataPoint)
    : list (SocketId * Event) :=
  match code dp with
  | Some room => map (fun c => (c, priceUpdate dp)) (members room r)
  | None => []
  end.

(** The persisted subscriptions that survive: those with a catalog
    symbol, as (symbol, stored entry price). *)
Definition in_catalog (sub : option Sub) : option (string * option Q) :=
  match sub with
  | Some {| symbol := Some sym; entryPrice := stored |} =>
      if includes STOCKS sym then Some (sym, stored) else None
  | _ => None
  end.




(** What the loop body pushes for a surviving subscription. *)
Definition heal (prices : gmap string string) (p : string * option Q) : CleanSub :=
  let currentP := parseFloat_opt (prices !! fst p) in
  let entryP := number_of (snd p) in
  {| clean_symbol := fst p;
     clean_entryPrice :=
       if negb (truthy_num entryP)
          || dgt (dabs (dsub (to_double entryP) (to_double currentP)))
                 (dmul (to_double currentP) (to_double (Num (2 # 10))))
       then currentP else entryP |}.

(** The number of requests a run awaits. *)
Fixpoint awaits {A : Type} (p : Prog A) (fails : list bool) (s : Server) (db : Db) : nat :=
  match p with
  | Ret _ => 0
  | Read k => awaits (k s) fails s db
  | Do e k => awaits k fails (apply_effect e s) db
  | Await r k =>
      let '(db', reply) := perform (hd false fails) r db in
      S (awaits (k reply) (tl fails) s db')
  end.

(** A program that asks the store only to look up a user, and bcrypt to
    compare. *)
Inductive reads_only {A : Type} : Prog A -> Prop :=
| ro_Ret (a : A) : reads_only (Ret a)
| ro_Read (k : Server -> Prog A) : (forall s, reads_only (k s)) -> reads_only (Read k)
| ro_Do (e : Effect) (k : Prog A) : reads_only k -> reads_only (Do e k)
| ro_FindOne (e : string) (k : option (option User) -> Prog A) :
    (forall r, reads_only (k r)) -> reads_only (Await (FindOne e) k)
| ro_Compare (plain hash : string) (k : option bool -> Prog A) :
    (forall r, reads_only (k r)) -> reads_only (Await (Compare plain hash) k).

(** What one turn of the room-restoring loop does to the memory. *)
Definition restored (sock : SocketId) (s : Server) (sub : CleanSub) : Server :=
  let s := set_rooms ({[ (clean_symbol sub, sock) ]} ∪ rooms s) s in
  send [ (sock, loadHistory (clean_symbol sub) (stockHistory s !! clean_symbol sub)) ] s.

(** The answers to the first [n] requests of a handler that runs alone. *)
Fixpoint answers (n : nat) (fails : list bool) : list Action :=
  match n with
  | O => []
  | S m => Resume 0 (hd false fails) :: answers m (tl fails)
  end.

(** The point that the update loop makes for the symbol at position [j]
    of the catalog, in a firing that starts in the memory [s]: by then the
    loop has read the random source and the clock [j] times. *)
Definition tick_point (s : Server) (j : nat) (x : string) : DataPoint :=
  {| code := Some x;
     price := toFixed2 (next_price (parseFloat_opt (currentPrices s !! x))
                          (base_price x) (Math_random (randomCalls s + j)));
     timestamp := toLocaleTimeString (Date_now (clockCalls s + j)) |}.

(** The points that [n] firings in a row make for it, the oldest first. *)
Fixpoint made (n : nat) (s : Server) (j : nat) (x : string) : list DataPoint :=
  match n with
  | O => []
  | S m =>
      tick_point s j x
      :: match tick s with Some s' => made m s' j x | None => [] end
  end.

(** What the timer reads and writes, apart from the rooms and the
    outbox. *)
Definition engine (s : Server)
    : gmap string string * gmap string (list DataPoint) * nat * nat :=
  (currentPrices s, stockHistory s, randomCalls s, clockCalls s).

(** The events that the server listens to. *)
Inductive Listener : Type :=
| on_register | on_login | on_unsubscribeAll | on_subscribe | on_unsubscribe
| on_joinFeed.

(** What a client emits: a message, which carries the payload object that
    the handler destructures, or an event without a payload.  (A [register]
    with its payload is in [Registration].) *)
Inductive Emitted : Type :=
| carrying (m : Message)
| bare (l : Listener).

(** A turn of the event loop, for every emit a client can make. *)
Inductive Turn : Type :=
| Arrive (sock : SocketId) (e : Emitted)
| Answer (i : nat) (fail : bool)
| Fire.

(** Every handler destructures its argument in its parameter list, outside
    any [try]: without a payload this throws, in the listener or as an
    unhandled rejection, and the process ends. *)
Definition turn (sys : System) (t : Turn) : option System :=
  match t with
  | Arrive sock (carrying m) => step sys (Receive sock m)
  | Arrive _ (bare _) => None
  | Answer i fail => step sys (Resume i fail)
  | Fire => step sys Tick
  end.

Fixpoint play (turns : list Turn) (sys : System) : option System :=
  match turns with
  | [] => Some sys
  | t :: rest =>
      match turn sys t with
      | Some sys' => play rest sys'
      | None => None
      end
  end.

Definition with_payload (t : Turn) : Prop :=
  match t with Arrive _ (bare _) => False | _ => True end.

(** The number of firings of the timer among the turns. *)
Fixpoint fires (turns : list Turn) : nat :=
  match turns with
  | [] => 0
  | Fire :: rest => S (fires rest)
  | _ :: rest => fires rest
  end.

End Vocabulary.

(** ** The email pattern *)

(** The code units that [\s] matches. *)
Definition is_space (n : N) : bool :=
  existsb (N.eqb n)
    [9; 10; 11; 12; 13; 32; 160; 5760; 8232; 8233; 8239; 8287; 12288; 65279]%N
  || ((8192 <=? n) && (n <=? 8202))%N.

(** The class [[^\s@]].  A character of a [string] stands for a code unit
    below 256. *)
Definition plain_char (c : ascii) : bool :=
  negb (is_space (N_of_ascii c)) && negb (Ascii.eqb c "@").

(** Regular expressions over character classes. *)
Inductive regex : Type :=
| Empty
| Eps
| Class (p : ascii -> bool)
| Cat (r1 r2 : regex)
| Alt (r1 r2 : regex)
| Star (r : regex).

(** [r+]. *)
Definition Plus (r : regex) : regex := Cat r (Star r).

Fixpoint nullable (r : regex) : bool :=
  match r with
  | Empty => false
  | Eps => true
  | Class _ => false
  | Cat r1 r2 => nullable r1 && nullable r2
  | Alt r1 r2 => nullable r1 || nullable r2
  | Star _ => true
  end.

(** What is left of [r] after reading [c]. *)
Fixpoint deriv (c : ascii) (r : regex) : regex :=
  match r with
  | Empty => Empty
  | Eps => Empty
  | Class p => if p c then Eps else Empty
  | Cat r1 r2 =>
      if nullable r1 then Alt (Cat (deriv c r1) r2) (deriv c r2)
      else Cat (deriv c r1) r2
  | Alt r1 r2 => Alt (deriv c r1) (deriv c r2)
  | Star r1 => Cat (deriv c r1) (Star r1)
  end.

(** [/^r$/.test(s)]. *)
Fixpoint matches (r : regex) (s : list ascii) : bool :=
  match s with
  | [] => nullable r
  | c :: t => matches (deriv c r) t
  end.

(** [/^[^\s@]+@[^\s@]+\.[^\s@]+$/]. *)
Definition email_re : regex :=
  Cat (Plus (Class plain_char))
    (Cat (Class (Ascii.eqb "@"))
       (Cat (Plus (Class plain_char))
          (Cat (Class (Ascii.eqb "."))
             (Plus (Class plain_char))))).

Definition isValidEmail (email : string) : bool :=
  matches email_re (list_ascii_of_string email).

(** The strings of a regular expression. *)
Inductive lang : regex -> list ascii -> Prop :=
| lang_Eps : lang Eps []
| lang_Class (p : ascii -> bool) (c : ascii) : p c = true -> lang (Class p) [c]
| lang_Cat (r1 r2 : regex) (s1 s2 : list ascii) :
    lang r1 s1 -> lang r2 s2 -> lang (Cat r1 r2) (s1 ++ s2)
| lang_AltL (r1 r2 : regex) (s : list ascii) : lang r1 s -> lang (Alt r1 r2) s
| lang_AltR (r1 r2 : regex) (s : list ascii) : lang r2 s -> lang (Alt r1 r2) s
| lang_Star0 (r : regex) : lang (Star r) []
| lang_StarS (r : regex) (s1 s2 : list ascii) :
    lang r s1 -> lang (Star r) s2 -> lang (Star r) (s1 ++ s2).

(** A part of an address: not empty, no white space, no [@]. *)
Definition email_part (s : list ascii) : Prop :=
  s <> [] /\ Forall (fun c => plain_char c = true) s.

(** ** Registration *)

Module Registration.

(** What the [register] handler writes to the socket. *)
Inductive Event : Type :=
| registerSuccess (msg : string)
| authError (msg : string).

(** What it awaits: [User.findOne({ email })], [bcrypt.hash(password, 10)]
    and [User.create({ name, email, password, subscriptions })]. *)
Inductive Request : Type -> Type :=
| FindOne (email : string) : Request (option User)
| Hash (password : string) (rounds : N) : Request string
| Create (name email password : string) (subscriptions : list (option Sub))
    : Request unit.

Inductive Prog (A : Type) : Type :=
| Ret (a : A)
| Emit (sock : SocketId) (ev : Event) (k : Prog A)
| Await {R : Type} (r : Request R) (k : option R -> Prog A).

Arguments Ret {A} a.
Arguments Emit {A} sock ev k.
Arguments Await {A R} r k.

(** [bcrypt.hash].  The salt it draws is not modelled: a password and a
    cost have one hash. *)
Class Bcrypt : Type := { bcrypt_hash : string -> N -> string }.

(** The store (and bcrypt) answering.  [fail] makes the promise reject
    without any change; the unique index that the schema declares on
    [email] rejects a second document with the same email. *)
Definition perform `{Bcrypt} {R : Type} (fail : bool) (r : Request R) (db : Db)
    : Db * option R :=
  match r in Request T return Db * option T with
  | FindOne e => (db, if fail then None else Some (db !! e))
  | Hash p n => (db, if fail then None else Some (bcrypt_hash p n))
  | Create n e p subs =>
      if fail then (db, None)
      else match db !! e with
           | Some _ => (db, None)
           | None =>
               (<[e := {| name := n; email := e; password := p;
                          subscriptions := subs |}]> db, Some tt)
           end
  end.

(** A field of the message that may be missing: [undefined] and the empty
    string are both falsy, and the handler stops before it uses either. *)
Definition text (o : option string) : string := default EmptyString o.

(** The [catch] of the handler. *)
Definition failed (sock : SocketId) : Prog unit :=
  Emit sock (authError "Registration failed.") (Ret tt).

(** The body of
    [socket.on('register', async ({ name, email, password }) => ...)],
    given the three fields of the payload. *)
Definition register (sock : SocketId) (name0 email0 password0 : option string)
    : Prog unit :=
  let name := text name0 in
  let email := text email0 in
  let password := text password0 in
  if negb (truthy_str name) || negb (truthy_str email) || negb (truthy_str password)
     || (String.length password <? 4)%nat
  then Emit sock (authError "Invalid details. Name required, Pass > 3 chars.") (Ret tt)
  else if negb (isValidEmail email)
  then Emit sock (authError "Invalid email format. Use name@domain.com") (Ret tt)
  else
    Await (FindOne email) (fun existingUser =>
      match existingUser with
      | None => failed sock
      | Some (Some _) => Emit sock (authError "Email exists.") (Ret tt)
      | Some None =>
          Await (Hash password 10) (fun hashedPassword =>
            match hashedPassword with
            | None => failed sock
            | Some hashed =>
                Await (Create name email hashed []) (fun created =>
                  match created with
                  | None => failed sock
                  | Some _ =>
                      Emit sock (registerSuccess "Registration successful!") (Ret tt)
                  end)
            end)
      end).

(** The payload of a [register] emit: an object, any field of which may
    be missing. *)
Record Payload : Type := {
  p_name : option string;
  p_email : option string;
  p_password : option string
}.

(** The handler as the socket calls it.  It destructures its argument in
    the parameter list, outside the [try]: without a payload this throws,
    nothing is written to the socket and the promise of the handler is
    rejected with nobody to catch it ([None]). *)
Definition on_register (sock : SocketId) (payload : option Payload)
    : option (Prog unit) :=
  match payload with
  | Some p => Some (register sock (p_name p) (p_email p) (p_password p))
  | None => None
  end.

Section Running.
Context `{Bcrypt}.

(** The handler run alone from start to end: what it wrote and the store
    after it. *)
Fixpoint run {A : Type} (p : Prog A) (fails : list bool)
    (out : list (SocketId * Event)) (db : Db) : list (SocketId * Event) * Db :=
  match p with
  | Ret _ => (out, db)
  | Emit sock ev k => run k fails (out ++ [ (sock, ev) ]) db
  | Await r k =>
      let '(db', reply) := perform (hd false fails) r db in
      run (k reply) (tl fails) out db'
  end.

(** Up to the end or the next [await]. *)
Fixpoint advance {A : Type} (p : Prog A) (out : list (SocketId * Event))
    : list (SocketId * Event) * Prog A :=
  match p with
  | Ret a => (out, Ret a)
  | Emit sock ev k => advance k (out ++ [ (sock, ev) ])
  | Await r k => (out, Await r k)
  end.

(** The registrations in flight: what was written, the store, and the
    handlers that wait. *)
Record System : Type := {
  written : list (SocketId * Event);
  store : Db;
  waiting : list (Prog unit)
}.

(** The handler called with or without a payload, and run alone. *)
Definition handle (sock : SocketId) (payload : option Payload) (fails : list bool)
    (out : list (SocketId * Event)) (db : Db)
    : option (list (SocketId * Event) * Db) :=
  option_map (fun p => run p fails out db) (on_register sock payload).

(** A turn of the event loop: a [register] emit arrives, or the answer to
    the request of the [i]-th waiting handler does. *)
Inductive Action : Type :=
| Receive (sock : SocketId) (payload : option Payload)
| Resume (i : nat) (fail : bool).

Definition park (p : Prog unit) (l : list (Prog unit)) : list (Prog unit) :=
  match p with
  | Await _ _ => l ++ [p]
  | _ => l
  end.

(** [None]: the process has ended on an exception that nothing catches. *)
Definition step (sys : System) (a : Action) : option System :=
  match a with
  | Receive sock payload =>
      match on_register sock payload with
      | Some p =>
          let '(out, q) := advance p (written sys) in
          Some {| written := out; store := store sys; waiting := park q (waiting sys) |}
      | None => None
      end
  | Resume i fail =>
      match waiting sys !! i with
      | Some (Await r k) =>
          let '(db, reply) := perform fail r (store sys) in
          let '(out, q) := advance (k reply) (written sys) in
          Some {| written := out; store := db;
                  waiting := park q (delete i (waiting sys)) |}
      | _ => Some sys
      end
  end.

Fixpoint exec (acts : list Action) (sys : System) : option System :=
  match acts with
  | [] => Some sys
  | a :: rest =>
      match step sys a with
      | Some sys' => exec rest sys'
      | None => None
      end
  end.

End Running.

End Registration.

(** The first test of the [register] handler. *)
Definition bad_details (name0 email0 password0 : option string) : bool :=
  negb (truthy_str (Registration.text name0))
  || negb (truthy_str (Registration.text email0))
  || negb (truthy_str (Registration.text password0))
  || (String.length (Registration.text password0) <? 4)%nat.

(** The document that [User.create] stores. *)
Definition new_user `{Registration.Bcrypt} (name0 email0 password0 : option string)
    : User :=
  {| name := Registration.text name0; email := Registration.text email0;
     password := Registration.bcrypt_hash (Registration.text password0) 10;
     subscriptions := [] |}.









(** ** Vocabulary of the further statements *)

Section MoreVocabulary.
Context `{Environment}.

(** The price of a symbol stays within 10.25 of its base price. *)
Definition in_band (s : Server) : Prop :=
  forall x b, assoc x STOCK_BASE_PRICES = Some b ->
    exists c, parseFloat_opt (currentPrices s !! x) = Num c /\
              (b - (41 # 4) <= c)%Q /\ (c <= b + (41 # 4))%Q.

(** The current price of a symbol is the price of its newest point. *)
Definition synced (s : Server) : Prop :=
  forall x, In x STOCKS ->
    exists p h, currentPrices s !! x = Some p /\ stockHistory s !! x = Some h /\
                last (map price h) = Some p.

(** The current price of a symbol is printed as cents: digits, a point
    and two digits. *)
Definition printed (s : Server) : Prop :=
  forall x, In x STOCKS -> exists n, currentPrices s !! x = Some (render_cents n).

End MoreVocabulary.

(** ** Vocabulary of the statements about sockets *)

(** The socket an effect acts on. *)
Definition effect_socket (e : Effect) : option SocketId :=
  match e with
  | Join sock _ | Leave sock _ | Emit sock _ | SetUserEmail sock _ => Some sock
  | ConsoleLog _ | ConsoleError _ => None
  end.

(** A program none of whose effects acts on the socket [c]. *)
Inductive foreign (c : SocketId) {A : Type} : Prog A -> Prop :=
| fo_Ret (a : A) : foreign c (Ret a)
| fo_Read (k : Server -> Prog A) : (forall s, foreign c (k s)) -> foreign c (Read k)
| fo_Do (e : Effect) (k : Prog A) :
    effect_socket e <> Some c -> foreign c k -> foreign c (Do e k)
| fo_Await {R : Type} (r : Request R) (k : option R -> Prog A) :
    (forall x, foreign c (k x)) -> foreign c (Await r k).

(** The events that the timer sends. *)
Definition is_priceUpdate (ev : Event) : bool :=
  match ev with priceUpdate _ => true | _ => false end.

(** What was written to the socket [c]. *)
Definition written_to (c : SocketId) (out : list (SocketId * Event)) : list Event :=
  map snd (List.filter (fun m => Nat.eqb (fst m) c) out).

(** The messages in [acts] come from other sockets than [c]. *)
Definition from_others (c : SocketId) (acts : list Action) : Prop :=
  Forall (fun a => match a with Receive sock _ => sock <> c | _ => True end) acts.

(** The [loadHistory] events of the room-restoring loop. *)
Definition histories (sock : SocketId) (s : Server) (subs : list CleanSub)
    : list (SocketId * Event) :=
  map (fun cs => (sock, loadHistory (clean_symbol cs) (stockHistory s !! clean_symbol cs)))
      subs.

(** ** A concrete run *)

(** An environment to run the definitions in: draws 0, 1/4, 1/2, 3/4 in
    turn, a clock that advances by 3 s per reading, times shown as their
    number of milliseconds, and passwords stored in the clear. *)
Definition demo_env : Environment :=
  {| Math_random := fun n => (Z.of_nat (n mod 4) # 4)%Q;
     Date_now := fun n => (1700000000000 + 3000 * Z.of_nat n)%Z;
     toLocaleTimeString := fun z => NilEmpty.string_of_int (Z.to_int z);
     bcrypt_compare := String.eqb |}.

Definition demo_user : User :=
  {| name := "Ada"; email := "ada@example.com"; password := "hash";
     subscriptions := [] |}.

Definition demo_db : Db := {[ "ada@example.com" := demo_user ]}.

(** The process right after start-up, with one registered account. *)
Definition demo_start : System :=
  {| server := @init demo_env; database := demo_db; pending := [] |}.

(** Ada logs in on socket 1 and subscribes to GOOG twice, the timer firing
    in between; the second call arrives while the first still waits for the
    store.  The store then answers in the order the requests were sent:
    [$pull], [$pull], [$push], [$push]. *)
Definition overlap : list Action :=
  [ Receive 1 (login_msg "ada@example.com" "hash"); Resume 0 false; Resume 0 false;
    Receive 1 (subscribe_msg "GOOG"); Tick; Receive 1 (subscribe_msg "GOOG");
    Resume 0 false; Resume 0 false; Resume 0 false; Resume 0 false ].

(** After start-up, socket 1 alone has joined the room of GOOG. *)
Definition one_room : Server := apply_effect (Join 1 "GOOG") (@init demo_env).

Definition low_server : Server :=
  set_history "GOOG" [] (set_price "GOOG" "5.00" empty_server).

Definition logged_in : Server :=
  set_userEmail 1 "ada@example.com" (set_price "GOOG" "175.50" empty_server).

Definition stale_user : User :=
  {| name := "Ada"; email := "ada@example.com"; password := "hash";
     subscriptions :=
       [ Some {| symbol := Some "GOOG"; entryPrice := Some (100 # 1)%Q |};
         Some {| symbol := Some "DOGE"; entryPrice := Some (5 # 1)%Q |};
         Some {| symbol := Some "TSLA"; entryPrice := None |};
         Some {| symbol := Some "NVDA"; entryPrice := Some (140 # 1)%Q |} ] |}.

Definition stale_db : Db := {[ "ada@example.com" := stale_user ]}.


(** Hashing in the concrete run: the password itself, as [demo_env]
    compares. *)
Definition demo_bcrypt : Registration.Bcrypt :=
  {| Registration.bcrypt_hash := fun plain _ => plain |}.

(** The process right after start-up, socket 1 holding the session of
    Ada. *)
Definition demo_session : Server :=
  set_userEmail 1 "ada@example.com" (@init demo_env).

Definition demo_point : DataPoint :=
  {| code := Some "GOOG"; price := "175.50"; timestamp := "0" |}.

Definition demo_point_1 : DataPoint :=
  {| code := Some "GOOG"; price := "175.61"; timestamp := "3000" |}.
Definition demo_point_2 : DataPoint :=
  {| code := Some "GOOG"; price := "175.48"; timestamp := "6000" |}.
Definition demo_point_3 : DataPoint :=
  {| code := Some "GOOG"; price := "175.53"; timestamp := "9000" |}.

(** ** Facts about printing and reading prices *)

Section PriceStrings.

Lemma is_digit_digit n : is_digit (digit n) = true.
Proof.
  unfold digit, is_digit.
  assert (H : (n mod 10 < 10)%N) by (apply N.mod_lt; discriminate).
  generalize dependent (n mod 10)%N. intros d H.
  rewrite N_ascii_embedding by lia.
  apply andb_true_intro; split; apply N.leb_le; lia.
Qed.

Lemma span_digits_uint u r :
  span_digits (NilEmpty.string_of_uint u +:+ String "." r)
  = (NilEmpty.string_of_uint u, String "." r).
Proof. induction u; simpl; try rewrite IHu; reflexivity. Qed.

Lemma strip_sign_uint u r :
  strip_sign (NilEmpty.string_of_uint u +:+ String "." r)
  = (false, NilEmpty.string_of_uint u +:+ String "." r).
Proof. destruct u; reflexivity. Qed.

Lemma span_digits_two a b :
  span_digits (String (digit a) (String (digit b) EmptyString))
  = (String (digit a) (String (digit b) EmptyString), EmptyString).
Proof. simpl. rewrite !is_digit_digit. reflexivity. Qed.

Lemma digits_value_uint n :
  digits_value (NilEmpty.string_of_uint (N.to_uint n)) = n.
Proof.
  unfold digits_value. rewrite NilEmpty.usu. apply DecimalN.Unsigned.of_to.
Qed.

Lemma digits_value_two a b :
  digits_value (String (digit a) (String (digit b) EmptyString))
  = (10 * (a mod 10) + b mod 10)%N.
Proof.
  unfold digit.
  assert (Ha : (a mod 10 < 10)%N) by (apply N.mod_lt; discriminate).
  assert (Hb : (b mod 10 < 10)%N) by (apply N.mod_lt; discriminate).
  generalize dependent (a mod 10)%N; generalize dependent (b mod 10)%N.
  intros y Hy x Hx.
  assert (Ex : In x (map N.of_nat (seq 0 10))).
  { apply in_map_iff. exists (N.to_nat x). split; [lia|]. apply in_seq. lia. }
  assert (Ey : In y (map N.of_nat (seq 0 10))).
  { apply in_map_iff. exists (N.to_nat y). split; [lia|]. apply in_seq. lia. }
  simpl in Ex, Ey.
  repeat (destruct Ex as [<- | Ex]; [|]); try contradiction;
    repeat (destruct Ey as [<- | Ey]; [|]); try contradiction; reflexivity.
Qed.

Lemma cents_split n :
  ((n / 100) * 10 ^ 2 + (10 * ((n / 10) mod 10) + n mod 10))%N = n.
Proof.
  change (10 ^ 2)%N with 100%N.
  pose proof (N.div_mod n 10 ltac:(discriminate)) as H1.
  pose proof (N.div_mod (n / 10) 10 ltac:(discriminate)) as H2.
  rewrite N.Div0.div_div in H2. change (10 * 10)%N with 100%N in H2.
  generalize dependent (n mod 10)%N. generalize dependent ((n / 10) mod 10)%N.
  generalize dependent (n / 100)%N. generalize dependent (n / 10)%N.
  intros; lia.
Qed.

Lemma parseFloat_render (neg : bool) (n : N) :
  parseFloat ((if neg then "-" else EmptyString) +:+ render_cents n)
  = Num (Qmake (if neg then - Z.of_N n else Z.of_N n) 100).
Proof.
  unfold parseFloat, render_cents.
  assert (E : strip_sign ((if neg then "-" else EmptyString) +:+
                NilEmpty.string_of_uint (N.to_uint (n / 100)) +:+
                String "." (String (digit (n / 10)) (String (digit n) EmptyString)))
              = (neg, NilEmpty.string_of_uint (N.to_uint (n / 100)) +:+
                String "." (String (digit (n / 10)) (String (digit n) EmptyString)))).
  { destruct neg; [reflexivity|]. apply strip_sign_uint. }
  rewrite E, span_digits_uint. cbn [fraction_digits].
  change (Ascii.eqb "." ".") with true. cbv iota.
  rewrite span_digits_two. cbn [fst String.length].
  change (N.of_nat 2) with 2%N.
  rewrite digits_value_uint, digits_value_two, cents_split.
  destruct (NilEmpty.string_of_uint (N.to_uint (n / 100))); reflexivity.
Qed.

Lemma parseFloat_toFixed2 q : parseFloat (toFixed2 (Num q)) = Num (round2 q).
Proof. unfold toFixed2, round2. apply parseFloat_render. Qed.

Lemma Qlt_bool_iff x y : Qlt_bool x y = true <-> (x < y)%Q.
Proof.
  unfold Qlt_bool. rewrite negb_true_iff. split.
  - intros H. apply Qnot_le_lt. intros C. apply Qle_bool_iff in C. congruence.
  - intros H. destruct (Qle_bool y x) eqn:E; [|reflexivity].
    apply Qle_bool_iff in E. apply Qlt_not_le in H. contradiction.
Qed.

Lemma Qlt_bool_false_iff x y : Qlt_bool x y = false <-> (y <= x)%Q.
Proof.
  unfold Qlt_bool. rewrite negb_false_iff. apply Qle_bool_iff.
Qed.

(** [toFixed(2)] keeps a value that is at least [b/100] at least there. *)
Lemma round2_lower (b : Z) (q : Q) :
  (0 <= b)%Z -> (Qmake b 100 <= q)%Q -> (Qmake b 100 <= round2 q)%Q.
Proof.
  intros Hb Hq. unfold round2.
  assert (Hq0 : (0 <= q)%Q).
  { eapply Qle_trans; [|exact Hq]. unfold Qle; simpl; lia. }
  assert (E : Qlt_bool q 0 = false) by (apply Qlt_bool_false_iff; exact Hq0).
  rewrite E. unfold cents.
  rewrite Qabs_pos by exact Hq0.
  assert (F : (b <= Qfloor (q * 100 + (1 # 2)))%Z).
  { rewrite <- (Qfloor_Z b). apply Qfloor_resp_le.
    assert (Qmake b 100 * 100 == inject_Z b)%Q.
    { unfold Qeq, Qmult, inject_Z; simpl. lia. }
    lra. }
  generalize dependent (Qfloor (q * 100 + (1 # 2))). intros f F.
  unfold Qle; simpl. rewrite Z2N.id by lia. lia.
Qed.

(** The printed value is within half a cent of the number. *)
Lemma round2_close q : (Qabs (round2 q - q) <= 1 # 200)%Q.
Proof.
  unfold round2, cents.
  pose proof (Qabs_nonneg q) as Ha0.
  assert (Ha : if Qlt_bool q 0 then (Qabs q == - q)%Q else (Qabs q == q)%Q).
  { destruct (Qlt_bool q 0) eqn:E.
    - apply Qlt_bool_iff in E. apply Qabs_neg. lra.
    - apply Qlt_bool_false_iff in E. apply Qabs_pos. exact E. }
  generalize dependent (Qabs q). intros a Ha0 Ha.
  assert (H0 : (0 <= Qfloor (a * 100 + (1 # 2)))%Z).
  { change 0%Z with (Qfloor 0). apply Qfloor_resp_le. lra. }
  pose proof (Qfloor_le (a * 100 + (1 # 2))) as Hl.
  pose proof (Qlt_floor (a * 100 + (1 # 2))) as Hu.
  rewrite inject_Z_plus in Hu. change (inject_Z 1) with 1%Q in Hu.
  generalize dependent (Qfloor (a * 100 + (1 # 2))). intros f H0 Hl Hu.
  rewrite Z2N.id by exact H0.
  assert (Em : forall z : Z, (Qmake z 100 == inject_Z z * (1 # 100))%Q).
  { intros z. unfold Qeq, Qmult, inject_Z; simpl. lia. }
  destruct (Qlt_bool q 0); rewrite Em; try rewrite inject_Z_opp;
    generalize dependent (inject_Z f); intros g Hl Hu;
    apply Qabs_Qle_condition; split; lra.
Qed.

End PriceStrings.

(** ** The steady-state advance *)

Section EngineFacts.
Context `{Environment}.

Lemma cents_lower (b : N) (q : Q) :
  (Qmake (Z.of_N b) 100 <= q)%Q -> (b <= cents q)%N.
Proof.
  intros Hq.
  assert (Hq0 : (0 <= q)%Q).
  { eapply Qle_trans; [|exact Hq]. unfold Qle; simpl; lia. }
  unfold cents. rewrite Qabs_pos by exact Hq0.
  assert (F : (Z.of_N b <= Qfloor (q * 100 + (1 # 2)))%Z).
  { rewrite <- (Qfloor_Z (Z.of_N b)). apply Qfloor_resp_le.
    assert (Qmake (Z.of_N b) 100 * 100 == inject_Z (Z.of_N b))%Q.
    { unfold Qeq, Qmult, inject_Z; simpl. lia. }
    lra. }
  generalize dependent (Qfloor (q * 100 + (1 # 2))). intros f F. lia.
Qed.

Lemma toFixed2_nonneg (q : Q) :
  (0 <= q)%Q -> toFixed2 (Num q) = render_cents (cents q).
Proof.
  intros Hq. unfold toFixed2.
  replace (Qlt_bool q 0) with false; [reflexivity|].
  symmetry. apply Qlt_bool_false_iff. exact Hq.
Qed.

(** The clamp: whatever the draw and the pull, the new price is a number
    that is at least 10. *)
Lemma next_price_floor (c b draw : Q) :
  exists p, next_price (Num c) (Num b) draw = Num p /\ (10 <= p)%Q.
Proof.
  unfold next_price. cbn [nadd nsub nmul nlt].
  match goal with |- context [Qlt_bool ?x 10] => destruct (Qlt_bool x 10) eqn:E end.
  - exists 10%Q. split; [reflexivity|]. apply Qle_refl.
  - eexists. split; [reflexivity|]. apply Qlt_bool_false_iff. exact E.
Qed.

Lemma assoc_catalog (stock : string) :
  In stock STOCKS -> exists b, assoc stock STOCK_BASE_PRICES = Some b /\ (13880 # 100 <= b)%Q.
Proof.
  unfold STOCKS; simpl.
  intros [<- | [<- | [<- | [<- | [<- | []]]]]]; eexists; (split; [reflexivity|]);
    unfold Qle; simpl; lia.
Qed.

Lemma base_price_catalog (stock : string) :
  In stock STOCKS -> exists b, base_price stock = Num b /\ (13880 # 100 <= b)%Q.
Proof.
  intros Hin. destruct (assoc_catalog stock Hin) as (b & E & Hb).
  exists b. unfold base_price. rewrite E. split; [reflexivity | exact Hb].
Qed.

(** C2. For every catalog symbol and every current price, whatever
    [Math.random()] returns, the update loop stores as the new current price
    a string with two decimals, [render_cents n], whose value [n / 100] is
    at least 10.00 ([n >= 1000]). *)
Theorem tick_price_floor (s : Server) (stockCode cur : string) (c : Q)
    (h : list DataPoint) :
  In stockCode STOCKS ->
  currentPrices s !! stockCode = Some cur ->
  parseFloat cur = Num c ->
  stockHistory s !! stockCode = Some h ->
  exists s' n,
    tick_stock s stockCode = Some s' /\
    currentPrices s' !! stockCode = Some (render_cents n) /\
    parseFloat (render_cents n) = Num (Z.of_N n # 100) /\
    (1000 <= n)%N /\ (10 <= Z.of_N n # 100)%Q.
Proof.
  intros Hin Hcur Hc Hh.
  destruct (base_price_catalog stockCode Hin) as (b & Hb & _).
  destruct (next_price_floor c b (Math_random (randomCalls s))) as (p & Hp & Hp10).
  unfold tick_stock. rewrite Hcur. cbn [parseFloat_opt]. rewrite Hc, Hb, Hp.
  cbn [stockHistory used_clock set_price used_random]. rewrite Hh.
  assert (Hn : (1000 <= cents p)%N).
  { apply cents_lower. eapply Qle_trans; [|exact Hp10]. unfold Qle; simpl; lia. }
  eexists; exists (cents p). split; [reflexivity|].
  split.
  { cbn [currentPrices broadcast send set_history used_clock set_price].
    rewrite lookup_insert_eq. f_equal. apply toFixed2_nonneg. lra. }
  split; [exact (parseFloat_render false (cents p))|].
  split; [exact Hn|].
  unfold Qle; simpl. lia.
Qed.


(** ** The seeding warm-up *)

Lemma seed_price_near (b t r : Q) :
  near b t -> (0 <= r)%Q -> (r < 1)%Q ->
  near b (Qred (t + Qred (Qred (Qred (r - (5 # 10)) * (8 # 10))
                          + Qred (Qred (b - t) * (5 # 100))))).
Proof.
  unfold near. intros [Hl Hu] H0 H1.
  rewrite !Qred_correct. split; lra.
Qed.

Lemma seed_loop_server (i : nat) (b : number) st :
  snd (seed_loop i b st) = advance_counters i (snd st).
Proof.
  revert st. induction i as [|j IH]; intros [[t h] s].
  - destruct s; reflexivity.
  - cbn [seed_loop]. rewrite IH. unfold seed_step. cbn [snd].
    unfold advance_counters, used_clock, used_random; cbn.
    f_equal; lia.
Qed.

Lemma seed_loop_points (i : nat) (b t : Q) (hist : list DataPoint) (s : Server) :
  random_in_range -> near b t ->
  exists t' new,
    fst (seed_loop i (Num b) (Num t, hist, s)) = (Num t', hist ++ new) /\
    near b t' /\
    length new = i /\
    (forall k, k < i -> exists pt, new !! k = Some pt /\ seeded b (clockCalls s) i k pt) /\
    (i <> 0 -> last (map price new) = Some (toFixed2 (Num t'))).
Proof.
  intros Hrand. revert t hist s.
  induction i as [|j IH]; intros t hist s Hnear.
  - exists t, []. cbn. rewrite app_nil_r.
    repeat split; try apply Hnear; try lia; try congruence.
  - cbn [seed_loop]. unfold seed_step. cbn [nadd nsub nmul].
    destruct (Hrand (randomCalls s)) as [H0 H1].
    pose proof (seed_price_near b t _ Hnear H0 H1) as Hnear1.
    match type of Hnear1 with near _ ?x => set (t1 := x) in * end.
    match goal with |- context [seed_loop j _ (_, hist ++ [?p], ?x)] =>
      set (pt0 := p); set (s1 := x) end.
    destruct (IH t1 (hist ++ [pt0]) s1 Hnear1) as (t' & new & E & Hn & Hlen & Hpts & Hlast).
    exists t', (pt0 :: new). rewrite E.
    split; [rewrite <- app_assoc; reflexivity|].
    split; [exact Hn|].
    split; [cbn; lia|].
    split.
    + intros [|k] Hk.
      * exists pt0. split; [reflexivity|].
        split; [reflexivity|]. split.
        -- exists t1. split; [exact Hnear1 | reflexivity].
        -- unfold pt0; cbn [timestamp]. repeat (f_equal; try lia).
      * destruct (Hpts k ltac:(lia)) as (pt & Hk1 & Hc & Hq & Ht).
        exists pt. split; [exact Hk1|].
        split; [exact Hc|]. split; [exact Hq|].
        rewrite Ht. unfold s1; cbn [clockCalls used_clock used_random].
        repeat (f_equal; try lia).
    + intros _. destruct j as [|j'].
      * destruct new; [|discriminate Hlen].
        cbn in E. injection E as Et _. subst t'. reflexivity.
      * specialize (Hlast ltac:(discriminate)).
        cbn [map]. destruct new as [|x new']; [discriminate Hlen|].
        exact Hlast.
Qed.

Lemma seed_loop_length (i : nat) (b : number) st :
  length (snd (fst (seed_loop i b st))) = length (snd (fst st)) + i.
Proof.
  revert st. induction i as [|j IH]; intros [[t h] s].
  - cbn. lia.
  - cbn [seed_loop]. rewrite IH. unfold seed_step. cbn [fst snd].
    rewrite length_app. cbn. lia.
Qed.

Local Opaque seed_loop.

Lemma init_stock_tables (s : Server) (stock : string) :
  let start := set_history stock [] (set_price stock (toFixed2 (base_price stock)) s) in
  let r := fst (seed_loop 100 (base_price stock) (base_price stock, [], start)) in
  currentPrices (init_stock s stock)
    = <[stock := toFixed2 (fst r)]> (<[stock := toFixed2 (base_price stock)]> (currentPrices s)) /\
  stockHistory (init_stock s stock)
    = <[stock := snd r]> (<[stock := []]> (stockHistory s)) /\
  clockCalls (init_stock s stock) = 100 + clockCalls s.
Proof.
  intros start r. unfold init_stock. fold start.
  pose proof (seed_loop_server 100 (base_price stock) (base_price stock, [], start)) as Hs.
  unfold r. destruct (seed_loop 100 (base_price stock) (base_price stock, [], start))
    as [[t h] s2].
  cbn [fst snd] in *. subst s2. repeat split.
Qed.

Local Opaque init_stock.

Lemma fold_left_step {A B : Type} (f : A -> B -> A) (x : B) (l : list B) (a : A) :
  fold_left f (x :: l) a = fold_left f l (f a x).
Proof. reflexivity. Qed.

Lemma init_stock_other (s : Server) (stock x : string) :
  x <> stock ->
  currentPrices (init_stock s stock) !! x = currentPrices s !! x /\
  stockHistory (init_stock s stock) !! x = stockHistory s !! x.
Proof.
  intros Hne. destruct (init_stock_tables s stock) as (Ep & Eh & _).
  rewrite Ep, Eh. rewrite !lookup_insert_ne by congruence. split; reflexivity.
Qed.

Lemma init_fold_other (l : list string) (s : Server) (x : string) :
  ~ In x l ->
  currentPrices (fold_left init_stock l s) !! x = currentPrices s !! x /\
  stockHistory (fold_left init_stock l s) !! x = stockHistory s !! x.
Proof.
  revert s. induction l as [|y l IH]; intros s Hx; [split; reflexivity|].
  rewrite fold_left_step.
  destruct (IH (init_stock s y)) as [E1 E2]; [intros C; apply Hx; right; exact C|].
  destruct (init_stock_other s y x) as [F1 F2]; [intros ->; apply Hx; left; reflexivity|].
  rewrite E1, E2, F1, F2. split; reflexivity.
Qed.

Lemma init_fold_clock (l : list string) (s : Server) :
  clockCalls (fold_left init_stock l s) = 100 * length l + clockCalls s.
Proof.
  revert s. induction l as [|y l IH]; intros s; [reflexivity|].
  rewrite fold_left_step, IH. cbn [length].
  destruct (init_stock_tables s y) as (_ & _ & ->). lia.
Qed.

Lemma catalog_split (stock : string) :
  In stock STOCKS ->
  exists l1 l2, STOCKS = l1 ++ stock :: l2 /\ ~ In stock l2 /\
                STOCKS !! length l1 = Some stock.
Proof.
  intros Hin. unfold STOCKS in *. cbn [map fst STOCK_BASE_PRICES] in *.
  destruct Hin as [<- | [<- | [<- | [<- | [<- | []]]]]].
  - exists [], ["TSLA"; "AMZN"; "META"; "NVDA"]. repeat split.
    cbn. intros C. repeat (destruct C as [C | C]; [discriminate C|]). exact C.
  - exists ["GOOG"], ["AMZN"; "META"; "NVDA"]. repeat split.
    cbn. intros C. repeat (destruct C as [C | C]; [discriminate C|]). exact C.
  - exists ["GOOG"; "TSLA"], ["META"; "NVDA"]. repeat split.
    cbn. intros C. repeat (destruct C as [C | C]; [discriminate C|]). exact C.
  - exists ["GOOG"; "TSLA"; "AMZN"], ["NVDA"]. repeat split.
    cbn. intros C. repeat (destruct C as [C | C]; [discriminate C|]). exact C.
  - exists ["GOOG"; "TSLA"; "AMZN"; "META"], []. repeat split.
    cbn. intros C. exact C.
Qed.

(** The tables of [init] at a catalog symbol are those its own warm-up
    wrote, started at clock reading [100 * j] for the [j]-th symbol. *)
Lemma init_at (stock : string) :
  In stock STOCKS ->
  exists j s0,
    STOCKS !! j = Some stock /\ clockCalls s0 = 100 * j /\
    let r := fst (seed_loop 100 (base_price stock) (base_price stock, [], s0)) in
    currentPrices init !! stock = Some (toFixed2 (fst r)) /\
    stockHistory init !! stock = Some (snd r).
Proof.
  intros Hin. destruct (catalog_split stock Hin) as (l1 & l2 & E & Hnot & Hj).
  set (before := fold_left init_stock l1 empty_server).
  exists (length l1),
    (set_history stock [] (set_price stock (toFixed2 (base_price stock)) before)).
  split; [exact Hj|]. split.
  { cbn [clockCalls set_history set_price]. unfold before.
    rewrite init_fold_clock. cbn. lia. }
  intros r. unfold init. rewrite E, fold_left_app, fold_left_step. fold before.
  destruct (init_fold_other l2 (init_stock before stock) stock Hnot) as [E1 E2].
  rewrite E1, E2.
  destruct (init_stock_tables before stock) as (Ep & Eh & _).
  rewrite Ep, Eh, !lookup_insert_eq. split; reflexivity.
Qed.

(** C6. Under the contract of [Math.random()], after start-up every catalog
    symbol has a current price [render_cents n] with [n >= 1000] (at least
    10.00), equal to the last price of its history, and a history of exactly
    100 points; the [k]-th point has no [code], a price with two decimals
    and the time stamp of the clock reading minus [(100 - k) * 3000] ms: the
    offsets run from 300000 ms in the past to 3000 ms in the past in steps
    of 3000 ms. *)
Theorem seeding_warm_up (stock : string) :
  random_in_range ->
  In stock STOCKS ->
  exists (n : N) (h : list DataPoint) (j : nat),
    currentPrices init !! stock = Some (render_cents n) /\
    (1000 <= n)%N /\
    stockHistory init !! stock = Some h /\
    length h = 100 /\
    last (map price h) = Some (render_cents n) /\
    STOCKS !! j = Some stock /\
    forall k, k < 100 ->
      exists pt m,
        h !! k = Some pt /\
        code pt = None /\
        price pt = render_cents m /\ (1000 <= m)%N /\
        timestamp pt =
          toLocaleTimeString (Date_now (100 * j + k) - Z.of_nat (100 - k) * 3000).
Proof.
  intros Hrand Hin.
  destruct (base_price_catalog stock Hin) as (b & Hb & Hb138).
  destruct (init_at stock Hin) as (j & s0 & Hj & Hc0 & Hp & Hh).
  rewrite Hb in Hp, Hh.
  assert (Hbb : near b b) by (unfold near; split; lra).
  destruct (seed_loop_points 100 b b [] s0 Hrand Hbb)
    as (t' & new & E & Hn & Hlen & Hpts & Hlast).
  rewrite E in Hp, Hh. cbn [fst snd app] in Hp, Hh.
  assert (Hfloor : forall q, near b q ->
            toFixed2 (Num q) = render_cents (cents q) /\ (1000 <= cents q)%N).
  { intros q [Hq _]. split.
    - apply toFixed2_nonneg. lra.
    - apply cents_lower. change (Z.of_N 1000 # 100)%Q with (1000 # 100)%Q.
      assert (1000 # 100 == 10)%Q by reflexivity. lra. }
  destruct (Hfloor t' Hn) as [Ht' Hn'].
  exists (cents t'), new, j.
  split; [rewrite Hp, Ht'; reflexivity|].
  split; [exact Hn'|].
  split; [exact Hh|].
  split; [exact Hlen|].
  split; [rewrite <- Ht'; apply Hlast; discriminate|].
  split; [exact Hj|].
  intros k Hk. destruct (Hpts k Hk) as (pt & Hk1 & Hcode & (q & Hq & Hprice) & Hts).
  destruct (Hfloor q Hq) as [Hq1 Hq2].
  exists pt, (cents q).
  split; [exact Hk1|]. split; [exact Hcode|].
  split; [rewrite Hprice; exact Hq1|]. split; [exact Hq2|].
  rewrite Hts, Hc0. reflexivity.
Qed.

(** ** The update loop: history and delivery *)

Lemma tick_stock_spec (s : Server) (stockCode : string) (h : list DataPoint) :
  stockHistory s !! stockCode = Some h ->
  exists s' dp,
    tick_stock s stockCode = Some s' /\
    code dp = Some stockCode /\
    stockHistory s' = <[stockCode := append_point h dp]> (stockHistory s) /\
    rooms s' = rooms s /\
    outbox s' = outbox s ++ deliveries (rooms s) dp.
Proof.
  intros Hh. unfold tick_stock.
  cbn [stockHistory used_clock set_price used_random]. rewrite Hh.
  match goal with |- context [priceUpdate ?d] => set (dp := d) end.
  eexists; exists dp. split; [reflexivity|].
  repeat split.
Qed.

Lemma tick_over_spec (l : list string) (s : Server) :
  NoDup l ->
  (forall x, In x l -> is_Some (stockHistory s !! x)) ->
  exists s' dps,
    tick_over l s = Some s' /\
    map code dps = map Some l /\
    rooms s' = rooms s /\
    outbox s' = outbox s ++ flat_map (deliveries (rooms s)) dps /\
    (forall x, ~ In x l -> stockHistory s' !! x = stockHistory s !! x) /\
    (forall x h, In x l -> stockHistory s !! x = Some h ->
       exists dp, code dp = Some x /\ stockHistory s' !! x = Some (append_point h dp)).
Proof.
  revert s. induction l as [|y l IH]; intros s Hnd Hall.
  - exists s, []. cbn. rewrite app_nil_r. repeat split; try reflexivity.
    intros x h [].
  - apply NoDup_cons in Hnd as [Hy Hnd].
    destruct (Hall y ltac:(left; reflexivity)) as [hy Hhy].
    destruct (tick_stock_spec s y hy Hhy) as (s1 & dp & E1 & Hc & Hh1 & Hr1 & Ho1).
    destruct (IH s1 Hnd) as (s' & dps & E & Hcs & Hr & Ho & Hother & Hin).
    { intros x Hx. rewrite Hh1. destruct (decide (y = x)) as [->|Hne].
      - rewrite lookup_insert_eq. eauto.
      - rewrite lookup_insert_ne by exact Hne. apply Hall. right. exact Hx. }
    exists s', (dp :: dps). cbn [tick_over]. rewrite E1, E.
    split; [reflexivity|].
    split; [cbn [map]; rewrite Hc, Hcs; reflexivity|].
    split; [congruence|].
    split; [rewrite Ho, Ho1, Hr1, <- app_assoc; reflexivity|].
    split.
    + intros x Hx. rewrite Hother by (intros C; apply Hx; right; exact C).
      rewrite Hh1. apply lookup_insert_ne. intros ->. apply Hx. left. reflexivity.
    + intros x h [<- | Hx] Hxh.
      * exists dp. split; [exact Hc|].
        rewrite Hother by (rewrite <- list_elem_of_In; exact Hy).
        rewrite Hh1, lookup_insert_eq. congruence.
      * apply Hin; [exact Hx|]. rewrite Hh1, lookup_insert_ne; [exact Hxh|].
        intros ->. apply Hy. rewrite list_elem_of_In. exact Hx.
Qed.

Lemma NoDup_STOCKS : NoDup STOCKS.
Proof. apply (bool_decide_unpack _). vm_compute. reflexivity. Qed.

Lemma init_full : full init.
Proof.
  intros x Hx. destruct (init_at x Hx) as (j & s0 & _ & _ & _ & Hh).
  eexists. split; [exact Hh|]. rewrite seed_loop_length. reflexivity.
Qed.

Lemma append_point_full (h : list DataPoint) (dp : DataPoint) :
  length h = 100 ->
  append_point h dp = drop 1 (h ++ [dp]) /\ length (append_point h dp) = 100.
Proof.
  intros Hl. unfold append_point.
  assert (E : (100 <? length (h ++ [dp]))%nat = true).
  { apply Nat.ltb_lt. rewrite length_app. cbn. lia. }
  rewrite E. destruct h as [|a h]; [discriminate Hl|].
  simpl. rewrite ?drop_0. split; [reflexivity|].
  rewrite length_app. cbn in *. lia.
Qed.

(** One firing of the timer on full buffers: it does not fail, every buffer
    gets the new point of its symbol at the end and loses its first
    point. *)
Lemma tick_full (s : Server) :
  full s ->
  exists s',
    tick s = Some s' /\ full s' /\
    forall x h, In x STOCKS -> stockHistory s !! x = Some h ->
      exists dp, code dp = Some x /\ stockHistory s' !! x = Some (drop 1 (h ++ [dp])).
Proof.
  intros Hfull.
  destruct (tick_over_spec STOCKS s NoDup_STOCKS) as (s' & dps & E & _ & _ & _ & _ & Hin).
  { intros x Hx. destruct (Hfull x Hx) as (h & Hh & _). eauto. }
  exists s'. split; [exact E|].
  assert (Hstep : forall x h, In x STOCKS -> stockHistory s !! x = Some h ->
            exists dp, code dp = Some x /\
                       stockHistory s' !! x = Some (drop 1 (h ++ [dp])) /\
                       length (drop 1 (h ++ [dp])) = 100).
  { intros x h Hx Hh. destruct (Hin x h Hx Hh) as (dp & Hc & Hs).
    destruct (Hfull x Hx) as (h' & Hh' & Hl).
    assert (h' = h) by congruence. subst h'.
    destruct (append_point_full h dp Hl) as [Ea El].
    exists dp. rewrite <- Ea. auto. }
  split.
  - intros x Hx. destruct (Hfull x Hx) as (h & Hh & _).
    destruct (Hstep x h Hx Hh) as (dp & _ & Hs & Hl). eauto.
  - intros x h Hx Hh. destruct (Hstep x h Hx Hh) as (dp & Hc & Hs & _). eauto.
Qed.

Lemma ticks_window (n : nat) (s : Server) :
  full s ->
  exists s',
    ticks n s = Some s' /\ full s' /\
    forall x h0, In x STOCKS -> stockHistory s !! x = Some h0 ->
      exists added,
        length added = n /\
        Forall (fun dp => code dp = Some x) added /\
        stockHistory s' !! x = Some (drop n (h0 ++ added)).
Proof.
  revert s. induction n as [|n IH]; intros s Hfull.
  - exists s. split; [reflexivity|]. split; [exact Hfull|].
    intros x h0 _ Hh. exists []. rewrite app_nil_r. cbn. auto.
  - destruct (tick_full s Hfull) as (s1 & E1 & Hfull1 & Hstep).
    destruct (IH s1 Hfull1) as (s' & E & Hfull' & Hwin).
    exists s'. cbn [ticks]. rewrite E1. split; [exact E|]. split; [exact Hfull'|].
    intros x h0 Hx Hh.
    destruct (Hstep x h0 Hx Hh) as (dp & Hc & Hs1).
    destruct (Hwin x _ Hx Hs1) as (added & Hl & Hcs & Hs').
    exists (dp :: added).
    split; [cbn; lia|]. split; [constructor; assumption|].
    rewrite Hs'. f_equal.
    destruct (Hfull x Hx) as (h & Hh' & Hlen).
    assert (h = h0) by congruence. subst h.
    destruct h0 as [|a h0]; [discriminate Hlen|].
    simpl. rewrite ?drop_0, <- app_assoc. reflexivity.
Qed.

(** The point depends on the price of the symbol and on the two counters
    only. *)
Lemma tick_point_ext (s1 s : Server) (j1 j : nat) (x : string) :
  currentPrices s1 !! x = currentPrices s !! x ->
  randomCalls s1 + j1 = randomCalls s + j ->
  clockCalls s1 + j1 = clockCalls s + j ->
  tick_point s1 j1 x = tick_point s j x.
Proof. intros E1 E2 E3. unfold tick_point. rewrite E1, E2, E3. reflexivity. Qed.

(** One turn of the update loop, with the point it makes. *)
Lemma tick_stock_point (s : Server) (x : string) (h : list DataPoint) :
  stockHistory s !! x = Some h ->
  exists s',
    tick_stock s x = Some s' /\
    currentPrices s' = <[x := price (tick_point s 0 x)]> (currentPrices s) /\
    stockHistory s' = <[x := append_point h (tick_point s 0 x)]> (stockHistory s) /\
    randomCalls s' = S (randomCalls s) /\ clockCalls s' = S (clockCalls s).
Proof.
  intros Hh. unfold tick_stock, tick_point.
  cbn [stockHistory used_clock set_price used_random clockCalls randomCalls currentPrices].
  rewrite Hh, !Nat.add_0_r. eexists. split; [reflexivity|].
  cbn [currentPrices stockHistory randomCalls clockCalls broadcast send set_history
       used_clock set_price used_random price].
  repeat split.
Qed.

Lemma tick_over_point (l : list string) (s : Server) :
  NoDup l ->
  (forall x, In x l -> is_Some (stockHistory s !! x)) ->
  exists s',
    tick_over l s = Some s' /\
    randomCalls s' = length l + randomCalls s /\
    clockCalls s' = length l + clockCalls s /\
    (forall x, ~ In x l ->
       currentPrices s' !! x = currentPrices s !! x /\
       stockHistory s' !! x = stockHistory s !! x) /\
    (forall j x h, l !! j = Some x -> stockHistory s !! x = Some h ->
       currentPrices s' !! x = Some (price (tick_point s j x)) /\
       stockHistory s' !! x = Some (append_point h (tick_point s j x))).
Proof.
  revert s. induction l as [|y l IH]; intros s Hnd Hall.
  - exists s. split; [reflexivity|]. split; [reflexivity|]. split; [reflexivity|].
    split; [intros x _; split; reflexivity|]. intros j x h Hj. destruct j; discriminate Hj.
  - apply NoDup_cons in Hnd as [Hy Hnd].
    destruct (Hall y) as [hy Hhy]; [left; reflexivity|].
    destruct (tick_stock_point s y hy Hhy) as (s1 & E1 & C1 & H1 & R1 & K1).
    destruct (IH s1 Hnd) as (s' & E & R & K & Hout & Hin).
    { intros x Hx. rewrite H1. destruct (decide (x = y)) as [->|Hne].
      - rewrite lookup_insert_eq. eauto.
      - rewrite lookup_insert_ne by congruence. apply Hall. right. exact Hx. }
    exists s'. cbn [tick_over]. rewrite E1. split; [exact E|].
    split; [cbn [length]; lia|]. split; [cbn [length]; lia|].
    split.
    + intros x Hx. destruct (Hout x) as [A B]; [intros C; apply Hx; right; exact C|].
      rewrite A, B, C1, H1.
      rewrite !lookup_insert_ne by (intros ->; apply Hx; left; reflexivity).
      split; reflexivity.
    + intros j x h Hj Hh. destruct j as [|j].
      * injection Hj as <-.
        destruct (Hout y) as [A B]; [rewrite <- list_elem_of_In; exact Hy|].
        rewrite A, B, C1, H1, !lookup_insert_eq.
        assert (h = hy) by congruence. subst h. split; reflexivity.
      * cbn in Hj.
        assert (Hne : x <> y).
        { intros ->. apply Hy. eapply list_elem_of_lookup_2. exact Hj. }
        assert (Hh1 : stockHistory s1 !! x = Some h).
        { rewrite H1, lookup_insert_ne by congruence. exact Hh. }
        destruct (Hin j x h Hj Hh1) as [A B].
        assert (Ep : tick_point s1 j x = tick_point s (S j) x).
        { apply tick_point_ext; [|lia|lia].
          rewrite C1. apply lookup_insert_ne. congruence. }
        rewrite <- Ep. split; assumption.
Qed.

(** One firing on full buffers, with the points it makes. *)
Lemma tick_points (s : Server) :
  full s ->
  exists s',
    tick s = Some s' /\ full s' /\
    randomCalls s' = 5 + randomCalls s /\ clockCalls s' = 5 + clockCalls s /\
    forall j x h, STOCKS !! j = Some x -> stockHistory s !! x = Some h ->
      currentPrices s' !! x = Some (price (tick_point s j x)) /\
      stockHistory s' !! x = Some (drop 1 (h ++ [tick_point s j x])).
Proof.
  intros Hfull.
  destruct (tick_over_point STOCKS s NoDup_STOCKS) as (s' & E & R & K & _ & Hin).
  { intros x Hx. destruct (Hfull x Hx) as (h & Hh & _). eauto. }
  assert (Hstep : forall j x h, STOCKS !! j = Some x -> stockHistory s !! x = Some h ->
            currentPrices s' !! x = Some (price (tick_point s j x)) /\
            stockHistory s' !! x = Some (drop 1 (h ++ [tick_point s j x])) /\
            length (drop 1 (h ++ [tick_point s j x])) = 100).
  { intros j x h Hj Hh. destruct (Hin j x h Hj Hh) as [A B].
    assert (Hx : In x STOCKS).
    { apply list_elem_of_In. eapply list_elem_of_lookup_2. exact Hj. }
    destruct (Hfull x Hx) as (h' & Hh' & Hl).
    assert (h' = h) by congruence. subst h'.
    destruct (append_point_full h (tick_point s j x) Hl) as [Ea El].
    rewrite <- Ea. auto. }
  exists s'. split; [exact E|]. split.
  - intros x Hx. destruct (Hfull x Hx) as (h & Hh & _).
    apply list_elem_of_In, list_elem_of_lookup_1 in Hx as (j & Hj).
    destruct (Hstep j x h Hj Hh) as (_ & B & C). eauto.
  - split; [exact R|]. split; [exact K|].
    intros j x h Hj Hh. destruct (Hstep j x h Hj Hh) as (A & B & _). auto.
Qed.

(** [n] firings: the buffer is the window of the seeded points followed by
    the points made, and the [k]-th of these is the point of the [k]-th
    firing. *)
Lemma ticks_made (n : nat) (s : Server) (j : nat) (x : string) (h0 : list DataPoint) :
  full s ->
  STOCKS !! j = Some x ->
  stockHistory s !! x = Some h0 ->
  exists s',
    ticks n s = Some s' /\ full s' /\
    randomCalls s' = 5 * n + randomCalls s /\ clockCalls s' = 5 * n + clockCalls s /\
    length (made n s j x) = n /\
    stockHistory s' !! x = Some (drop n (h0 ++ made n s j x)).
Proof.
  revert s h0. induction n as [|n IH]; intros s h0 Hfull Hj Hh.
  - exists s. cbn [ticks made]. rewrite app_nil_r, drop_0.
    repeat split; try assumption; lia.
  - destruct (tick_points s Hfull) as (s1 & E1 & Hfull1 & R1 & K1 & Hstep).
    destruct (Hstep j x h0 Hj Hh) as [_ Hh1].
    destruct (IH s1 _ Hfull1 Hj Hh1) as (s' & E & Hfull' & R & K & L & Hs').
    exists s'. cbn [ticks made]. rewrite E1.
    split; [exact E|]. split; [exact Hfull'|].
    split; [lia|]. split; [lia|]. split; [cbn [length]; lia|].
    rewrite Hs'. f_equal.
    assert (Hx : In x STOCKS).
    { apply list_elem_of_In. eapply list_elem_of_lookup_2. exact Hj. }
    destruct (Hfull x Hx) as (h & Hh' & Hlen).
    assert (h = h0) by congruence. subst h.
    destruct h0 as [|a h0]; [discriminate Hlen|].
    simpl. rewrite ?drop_0, <- app_assoc. reflexivity.
Qed.

Lemma made_lookup (n k : nat) (s : Server) (j : nat) (x : string) :
  full s ->
  STOCKS !! j = Some x ->
  k < n ->
  exists sk sk',
    ticks k s = Some sk /\ tick sk = Some sk' /\
    clockCalls sk = 5 * k + clockCalls s /\
    made n s j x !! k = Some (tick_point sk j x) /\
    currentPrices sk' !! x = Some (price (tick_point sk j x)).
Proof.
  revert k s. induction n as [|n IH]; intros k s Hfull Hj Hk; [lia|].
  destruct (tick_points s Hfull) as (s1 & E1 & Hfull1 & R1 & K1 & Hstep).
  destruct k as [|k].
  - exists s, s1. cbn [ticks made]. split; [reflexivity|]. split; [exact E1|].
    split; [lia|]. split; [reflexivity|].
    assert (Hx : In x STOCKS).
    { apply list_elem_of_In. eapply list_elem_of_lookup_2. exact Hj. }
    destruct (Hfull x Hx) as (h & Hh & _).
    apply (Hstep j x h Hj Hh).
  - destruct (IH k s1 Hfull1 Hj ltac:(lia)) as (sk & sk' & A & B & C & D & F).
    exists sk, sk'. cbn [ticks made]. rewrite E1.
    split; [exact A|]. split; [exact B|]. split; [lia|]. split; [exact D | exact F].
Qed.

Lemma init_clock : clockCalls init = 500.
Proof. unfold init. rewrite init_fold_clock. reflexivity. Qed.

(** ** Who receives a tick *)

Lemma members_spec (room : string) (r : gset (string * SocketId)) (c : SocketId) :
  In c (members room r) <-> (room, c) ∈ r.
Proof.
  unfold members. rewrite <- list_elem_of_In, list_elem_of_omap. split.
  - intros ([x y] & Hx & E). cbn in E.
    destruct (String.eqb x room) eqn:Ex; [|discriminate E].
    apply String.eqb_eq in Ex. injection E as <-. subst x.
    apply elem_of_elements. exact Hx.
  - intros Hin. exists (room, c). split; [apply elem_of_elements; exact Hin|].
    cbn. rewrite String.eqb_refl. reflexivity.
Qed.

Lemma NoDup_omap_inj {A B : Type} (f : A -> option B) (l : list A) :
  (forall x y z, f x = Some z -> f y = Some z -> x = y) ->
  NoDup l -> NoDup (omap f l).
Proof.
  intros Hinj. induction 1 as [|x l Hx Hnd IH]; cbn; [constructor|].
  destruct (f x) as [z|] eqn:E; [|exact IH].
  constructor; [|exact IH].
  intros Hz. apply list_elem_of_omap in Hz as (y & Hy & Ey).
  assert (x = y) by (eapply Hinj; eassumption). subst y. contradiction.
Qed.

Lemma members_NoDup (room : string) (r : gset (string * SocketId)) :
  NoDup (members room r).
Proof.
  unfold members. apply NoDup_omap_inj; [|apply NoDup_elements].
  intros [x1 c1] [x2 c2] z. cbn.
  destruct (String.eqb x1 room) eqn:E1; [|discriminate].
  destruct (String.eqb x2 room) eqn:E2; [|discriminate].
  apply String.eqb_eq in E1, E2. congruence.
Qed.

Lemma members_singleton (room sym : string) (c : SocketId) :
  members room {[ (sym, c) ]} = if String.eqb sym room then [c] else [].
Proof.
  unfold members. rewrite elements_singleton. cbn.
  destruct (String.eqb sym room); reflexivity.
Qed.

Lemma deliveries_spec (r : gset (string * SocketId)) (dp : DataPoint)
    (c : SocketId) (ev : Event) :
  In (c, ev) (deliveries r dp) <->
  ev = priceUpdate dp /\ exists room, code dp = Some room /\ (room, c) ∈ r.
Proof.
  unfold deliveries. destruct (code dp) as [room|].
  - rewrite in_map_iff. split.
    + intros (c' & E & Hc). injection E as -> <-.
      split; [reflexivity|]. exists room. split; [reflexivity|].
      apply members_spec. exact Hc.
    + intros (-> & room' & E & Hc). injection E as <-.
      exists c. split; [reflexivity|]. apply members_spec. exact Hc.
  - split; [intros []|]. intros (_ & room & E & _). discriminate E.
Qed.

Lemma deliveries_singleton (sym : string) (c : SocketId) (dps : list DataPoint) :
  In sym STOCKS ->
  map code dps = map Some STOCKS ->
  exists dp, In dp dps /\ code dp = Some sym /\
             flat_map (deliveries {[ (sym, c) ]}) dps = [ (c, priceUpdate dp) ].
Proof.
  intros Hin Hcs. unfold STOCKS in *. cbn [map fst STOCK_BASE_PRICES] in *.
  destruct dps as [|d1 [|d2 [|d3 [|d4 [|d5 [|d6 dps]]]]]]; try discriminate Hcs.
  cbn [map] in Hcs. injection Hcs as E1 E2 E3 E4 E5.
  unfold flat_map, deliveries. rewrite E1, E2, E3, E4, E5, !members_singleton.
  destruct Hin as [<- | [<- | [<- | [<- | [<- | []]]]]]; cbn.
  - exists d1. auto.
  - exists d2. auto.
  - exists d3. auto 6.
  - exists d4. auto 7.
  - exists d5. auto 8.
Qed.

(** C8 (as the code has it). One firing of the timer makes one [priceUpdate]
    per catalog symbol, five in all, in catalog order, and hands each to the
    sockets that are in the room of its symbol, once each.  So with exactly
    one socket in exactly one room, one event is delivered in total (the
    other four rooms are empty), and a socket in no room receives none. *)
Theorem tick_delivery (s : Server) :
  (forall x, In x STOCKS -> is_Some (stockHistory s !! x)) ->
  exists s' dps,
    tick s = Some s' /\
    map code dps = map Some STOCKS /\
    length dps = 5 /\
    outbox s' = outbox s ++ flat_map (deliveries (rooms s)) dps /\
    (forall dp c ev,
       In (c, ev) (deliveries (rooms s) dp) <->
       ev = priceUpdate dp /\ exists room, code dp = Some room /\ (room, c) ∈ rooms s) /\
    (forall room, NoDup (members room (rooms s))) /\
    (forall sym c, In sym STOCKS -> rooms s = {[ (sym, c) ]} ->
       exists dp, In dp dps /\ code dp = Some sym /\
         outbox s' = outbox s ++ [ (c, priceUpdate dp) ]) /\
    (forall c, (forall room, (room, c) ∉ rooms s) ->
       forall ev, ~ In (c, ev) (flat_map (deliveries (rooms s)) dps)).
Proof.
  intros Hall.
  destruct (tick_over_spec STOCKS s NoDup_STOCKS Hall)
    as (s' & dps & E & Hcs & _ & Ho & _ & _).
  exists s', dps. split; [exact E|]. split; [exact Hcs|].
  split.
  { rewrite <- (length_map code), Hcs, length_map. reflexivity. }
  split; [exact Ho|].
  split; [intros dp c ev; apply deliveries_spec|].
  split; [intros room; apply members_NoDup|].
  split.
  - intros sym c Hin Hr. rewrite Ho, Hr.
    destruct (deliveries_singleton sym c dps Hin Hcs) as (dp & Hd & Hc & ->).
    exists dp. auto.
  - intros c Hc ev Hin. apply in_flat_map in Hin as (dp & _ & Hin).
    apply deliveries_spec in Hin as (_ & room & _ & Hr).
    exact (Hc room Hr).
Qed.

End EngineFacts.

(** ** Reconciliation on login *)

Section Reconciliation.

Lemma includes_In (l : list string) (x : string) : includes l x = true <-> In x l.
Proof.
  unfold includes. rewrite existsb_exists. split.
  - intros (y & Hy & E). apply String.eqb_eq in E. subst y. exact Hy.
  - intros Hx. exists x. split; [exact Hx | apply String.eqb_refl].
Qed.

Lemma clean_eq (prices : gmap string string) (acc : list CleanSub) (sub : option Sub) :
  clean prices acc sub
  = acc ++ match in_catalog sub with Some p => [heal prices p] | None => [] end.
Proof.
  destruct sub as [[[sym|] stored]|]; cbn [clean in_catalog];
    try (rewrite app_nil_r; reflexivity).
  destruct sym as [|a r].
  - cbn. rewrite app_nil_r. reflexivity.
  - cbn [truthy_str andb].
    destruct (includes STOCKS (String a r)); [reflexivity|].
    rewrite app_nil_r. reflexivity.
Qed.

Lemma cleanSubs_from (prices : gmap string string) (subs : list (option Sub))
    (acc : list CleanSub) :
  fold_left (clean prices) subs acc = acc ++ map (heal prices) (omap in_catalog subs).
Proof.
  revert acc. induction subs as [|sub subs IH]; intros acc; cbn [fold_left].
  - cbn. rewrite app_nil_r. reflexivity.
  - rewrite IH, clean_eq.
    assert (Ho : omap in_catalog (sub :: subs)
                 = match in_catalog sub with
                   | Some p => p :: omap in_catalog subs
                   | None => omap in_catalog subs
                   end) by reflexivity.
    rewrite Ho. destruct (in_catalog sub) as [p|]; cbn [map].
    + rewrite <- app_assoc. reflexivity.
    + rewrite app_nil_r. reflexivity.
Qed.

Lemma cleanSubs_eq (prices : gmap string string) (subs : list (option Sub)) :
  cleanSubs prices subs = map (heal prices) (omap in_catalog subs).
Proof. unfold cleanSubs. rewrite cleanSubs_from. reflexivity. Qed.

Lemma in_catalog_In (sub : option Sub) (sym : string) (stored : option Q) :
  in_catalog sub = Some (sym, stored) ->
  In sym STOCKS /\ sub = Some {| symbol := Some sym; entryPrice := stored |}.
Proof.
  destruct sub as [[[x|] e]|]; cbn [in_catalog]; try discriminate.
  destruct (includes STOCKS x) eqn:E; [|discriminate].
  intros [= <- <-]. split; [apply includes_In; exact E | reflexivity].
Qed.



End Reconciliation.

(** ** The handlers *)

Section HandlerFacts.
Context `{Environment}.

Lemma session_userEmail (sock : SocketId) (s : Server) (me : string) :
  session sock s = Some me -> userEmail s !! sock = Some me.
Proof.
  unfold session. destruct (userEmail s !! sock) as [e|]; [|discriminate].
  destruct (truthy_str e); [|discriminate]. intros [= ->]. reflexivity.
Qed.

(** C5. On a socket without a session, [subscribe] only writes the
    [authError] to that socket and is over at once: no request is sent to
    the store, nothing waits, the rooms and every other part of the
    memory are as before. *)
Theorem subscribe_requires_login (sock : SocketId) (stockCode : string)
    (s : Server) (db : Db) (fails : list bool) :
  session sock s = None ->
  exists s',
    run (subscribe sock stockCode) fails s db = (tt, s', db) /\
    advance (subscribe sock stockCode) s = (s', Ret tt) /\
    (forall sys, server sys = s ->
       step sys (Receive sock (subscribe_msg stockCode))
       = Some {| server := s'; database := database sys; pending := pending sys |}) /\
    outbox s' = outbox s ++ [ (sock, authError "Session expired. Relogin.") ] /\
    rooms s' = rooms s /\
    userEmail s' = userEmail s /\
    currentPrices s' = currentPrices s /\
    stockHistory s' = stockHistory s.
Proof.
  intros Hs.
  exists (send [ (sock, authError "Session expired. Relogin.") ] s).
  assert (Ea : advance (subscribe sock stockCode) s
               = (send [ (sock, authError "Session expired. Relogin.") ] s, Ret tt)).
  { unfold subscribe. cbn [advance bind read do]. rewrite Hs. reflexivity. }
  split.
  { unfold subscribe. cbn [run bind read do]. rewrite Hs. reflexivity. }
  split; [exact Ea|].
  split.
  { intros sys <-. cbn [step handler]. rewrite Ea. reflexivity. }
  repeat split.
Qed.

Lemma includes_catalog (stockCode : string) :
  In stockCode STOCKS -> includes STOCKS stockCode = true.
Proof. apply includes_In. Qed.

(** The same in the event loop: the first stretch of [subscribe] joins the
    room and sends the [$pull]; whenever the rejection of the [$pull], or
    later of the [$push], arrives, the handler logs it, writes the
    [loadHistory] of that moment and is over. *)
Lemma subscribe_rejection_anytime (sock : SocketId) (stockCode me : string) (s : Server) :
  session sock s = Some me ->
  In stockCode STOCKS ->
  exists s1 k,
    advance (subscribe sock stockCode) s
      = (s1, Await (UpdateOne (Some me) (Pull stockCode)) k) /\
    (stockCode, sock) ∈ rooms s1 /\
    (forall s2, exists s2',
       advance (k None) s2 = (s2', Ret tt) /\
       rooms s2' = rooms s2 /\
       outbox s2'
         = outbox s2 ++ [ (sock, loadHistory stockCode (stockHistory s2 !! stockCode)) ]) /\
    (forall s2, exists k2,
       advance (k (Some tt)) s2
         = (s2, Await (UpdateOne (userEmail s2 !! sock)
                         (Push stockCode (parseFloat_opt (currentPrices s !! stockCode)))) k2) /\
       forall s3, exists s3',
         advance (k2 None) s3 = (s3', Ret tt) /\
         rooms s3' = rooms s3 /\
         outbox s3'
           = outbox s3 ++ [ (sock, loadHistory stockCode (stockHistory s3 !! stockCode)) ]).
Proof.
  intros Hs Hin. pose proof (session_userEmail sock s me Hs) as He.
  unfold subscribe. cbn [advance bind read do await]. rewrite Hs.
  rewrite (includes_catalog stockCode Hin). cbn [negb].
  cbn [advance bind read do await apply_effect userEmail set_rooms write_console
       currentPrices].
  rewrite He. eexists; eexists. split; [reflexivity|].
  split; [apply elem_of_union_l, elem_of_singleton; reflexivity|].
  split.
  - intros s2. eexists. cbn [advance bind read do apply_effect].
    split; [reflexivity|]. split; reflexivity.
  - intros s2. eexists. cbn [advance bind read do await apply_effect].
    split; [reflexivity|].
    intros s3. eexists. cbn [advance bind read do apply_effect].
    split; [reflexivity|]. split; reflexivity.
Qed.

(** C7. With a session and a catalog symbol, when the [$pull] or the
    [$push] is rejected, [subscribe] still runs to its end: the socket is
    in the room of the symbol, the error is on the console and the last
    thing written to the socket is the [loadHistory] with the history of
    the symbol.  When it is the [$pull] that fails the store is as
    before.  In the event loop the socket is in the room from the first
    stretch on, and the rejection, whenever it arrives, ends the handler
    with the [loadHistory]. *)
Theorem subscribe_survives_store_failure (sock : SocketId) (stockCode me : string)
    (s : Server) (db : Db) (fails : list bool) :
  session sock s = Some me ->
  In stockCode STOCKS ->
  hd false fails = true \/ hd false (tl fails) = true ->
  (exists s' db',
     run (subscribe sock stockCode) fails s db = (tt, s', db') /\
     rooms s' = {[ (stockCode, sock) ]} ∪ rooms s /\
     (stockCode, sock) ∈ rooms s' /\
     outbox s' = outbox s ++ [ (sock, loadHistory stockCode (stockHistory s !! stockCode)) ] /\
     last (console s') = Some "Subscribe Error:" /\
     (hd false fails = true -> db' = db)) /\
  (exists s1 k,
     advance (subscribe sock stockCode) s
       = (s1, Await (UpdateOne (Some me) (Pull stockCode)) k) /\
     (stockCode, sock) ∈ rooms s1 /\
     forall s2, exists s2',
       advance (k None) s2 = (s2', Ret tt) /\
       rooms s2' = rooms s2 /\
       outbox s2'
         = outbox s2 ++ [ (sock, loadHistory stockCode (stockHistory s2 !! stockCode)) ]).
Proof.
  intros Hs Hin Hfail. split.
  2: { destruct (subscribe_rejection_anytime sock stockCode me s Hs Hin)
         as (s1 & k & A & B & C & _).
       exists s1, k. auto. }
  pose proof (session_userEmail sock s me Hs) as He.
  unfold subscribe. cbn [run bind read do await]. rewrite Hs.
  rewrite (includes_catalog stockCode Hin). cbn [negb].
  cbn [run bind read do await apply_effect userEmail set_rooms write_console].
  rewrite He. cbn [perform].
  destruct (hd false fails) eqn:F1.
  - cbn [run bind do apply_effect]. eexists; eexists. split; [reflexivity|].
    cbn [rooms outbox console stockHistory send write_console set_rooms].
    split; [reflexivity|]. split; [apply elem_of_union_l, elem_of_singleton; reflexivity|].
    split; [reflexivity|].
    split; [rewrite last_snoc; reflexivity|]. reflexivity.
  - destruct Hfail as [C | F2]; [discriminate C|].
    cbn [run bind read do await apply_effect userEmail set_rooms write_console].
    rewrite He. cbn [perform currentPrices set_rooms]. rewrite F2.
    destruct (parseFloat_opt (currentPrices s !! stockCode)) as [|q];
      cbn [run bind do apply_effect]; (eexists; eexists; split; [reflexivity|]);
      cbn [rooms outbox console stockHistory send write_console set_rooms];
      (split; [reflexivity|]);
      (split; [apply elem_of_union_l, elem_of_singleton; reflexivity|]);
      (split; [reflexivity|]);
      (split; [rewrite last_snoc; reflexivity|]); discriminate.
Qed.

(** C10. With a session, [unsubscribe] takes any string: it takes the socket
    out of the room of that name (nothing changes when it was not in it),
    sends the [$pull] of that symbol for the account of the session, and
    writes nothing to the socket, whether the store answers or rejects. *)
Theorem unsubscribe_any_symbol (sock : SocketId) (stockCode me : string)
    (s : Server) (db : Db) (fails : list bool) :
  session sock s = Some me ->
  exists s' s1 k,
    run (unsubscribe sock stockCode) fails s db
      = (tt, s', if hd false fails then db else alter (pull stockCode) me db) /\
    advance (unsubscribe sock stockCode) s
      = (s1, Await (UpdateOne (Some me) (Pull stockCode)) k) /\
    rooms s1 = rooms s ∖ {[ (stockCode, sock) ]} /\
    rooms s' = rooms s ∖ {[ (stockCode, sock) ]} /\
    ((stockCode, sock) ∉ rooms s -> rooms s' = rooms s) /\
    outbox s' = outbox s /\
    outbox s1 = outbox s.
Proof.
  intros Hs. pose proof (session_userEmail sock s me Hs) as He.
  unfold unsubscribe. cbn [run advance bind read do await]. rewrite Hs.
  cbn [run advance bind read do await apply_effect userEmail set_rooms write_console].
  rewrite He. cbn [perform update_user].
  destruct (hd false fails);
    cbn [run bind do apply_effect];
    (eexists; eexists; eexists; split; [reflexivity|]; split; [reflexivity|]);
    cbn [rooms outbox write_console set_rooms];
    (repeat split; try reflexivity); intros Hn;
    apply set_eq; intros x; rewrite elem_of_difference, elem_of_singleton;
    (split; [tauto | intros Hx; split; [exact Hx | congruence]]).
Qed.

Lemma run_bind {A B : Type} (p : Prog A) (f : A -> Prog B)
    (fails : list bool) (s : Server) (db : Db) :
  run (bind p f) fails s db
  = let '(a, s', db') := run p fails s db in
    run (f a) (drop (awaits p fails s db) fails) s' db'.
Proof.
  revert fails s db.
  induction p as [a | k IH | e k IH | R r k IH]; intros fails s db; cbn [bind run awaits].
  - reflexivity.
  - apply IH.
  - apply IH.
  - destruct (perform (hd false fails) r db) as [db' reply].
    rewrite IH. destruct fails as [|b fails]; [|reflexivity].
    destruct (run (k reply) (tl []) s db') as [[a s'] db''].
    replace (drop (S (awaits (k reply) (tl []) s db')) (@nil bool)) with (@nil bool)
      by (symmetry; apply drop_nil).
    replace (drop (awaits (k reply) (tl []) s db') (tl (@nil bool))) with (@nil bool)
      by (symmetry; apply drop_nil).
    reflexivity.
Qed.




(** Resuming a waiting program that only reads leaves the store as it
    is. *)
Lemma reads_only_perform {A R : Type} (r : Request R) (k : option R -> Prog A)
    (fail : bool) (db : Db) :
  reads_only (Await r k) ->
  fst (perform fail r db) = db /\ reads_only (k (snd (perform fail r db))).
Proof.
  intros Hro.
  assert (G : forall p : Prog A, reads_only p ->
              match p with
              | Await r' k' =>
                  fst (perform fail r' db) = db /\
                  reads_only (k' (snd (perform fail r' db)))
              | _ => True
              end).
  { intros p Hp. destruct Hp; cbn [perform fst snd]; auto. }
  exact (G _ Hro).
Qed.

Lemma run_forEach_restore (sock : SocketId) (l : list CleanSub)
    (fails : list bool) (s : Server) (db : Db) :
  run (forEach l (restore sock)) fails s db = (tt, fold_left (restored sock) l s, db) /\
  awaits (forEach l (restore sock)) fails s db = 0.
Proof.
  revert s. induction l as [|x l IH]; intros s; [split; reflexivity|].
  cbn [forEach restore bind do read run awaits apply_effect fold_left].
  apply IH.
Qed.


Lemma login_success (sock : SocketId) (e p : string) (user : User)
    (s : Server) (db : Db) :
  db !! e = Some user ->
  bcrypt_compare p (password user) = true ->
  let subs := cleanSubs (currentPrices s) (subscriptions user) in
  run (login sock e p) [] s db
  = (tt,
     send [ (sock, loginSuccess (name user) (email user) subs STOCKS) ]
       (fold_left (restored sock) subs (set_userEmail sock (email user) s)),
     db).
Proof.
  intros Hu Hp subs. unfold login.
  cbn [run bind await perform hd tl]. rewrite Hu.
  cbn [run bind await perform hd tl]. rewrite Hp.
  cbn [run bind read do apply_effect currentPrices set_userEmail]. fold subs.
  rewrite run_bind.
  destruct (run_forEach_restore sock subs [] (set_userEmail sock (email user) s) db)
    as [-> ->].
  reflexivity.
Qed.


Lemma filter_pulled (sym : string) (l : list (option Sub)) :
  List.filter (has_symbol sym) (List.filter (fun x => negb (has_symbol sym x)) l) = [].
Proof.
  induction l as [|x l IH]; [reflexivity|]. cbn [List.filter].
  destruct (has_symbol sym x) eqn:E; cbn [negb List.filter]; [exact IH|].
  rewrite E. exact IH.
Qed.

Lemma filter_kept (sym : string) (l : list (option Sub)) :
  List.filter (fun x => negb (has_symbol sym x))
    (List.filter (fun x => negb (has_symbol sym x)) l)
  = List.filter (fun x => negb (has_symbol sym x)) l.
Proof.
  induction l as [|x l IH]; [reflexivity|]. cbn [List.filter].
  destruct (has_symbol sym x) eqn:E; cbn [negb List.filter]; [exact IH|].
  rewrite E. cbn [negb]. f_equal. exact IH.
Qed.

(** The store after a [subscribe] that nothing interrupts. *)
Lemma subscribe_run (sock : SocketId) (stockCode me : string) (s : Server) (db : Db)
    (fails : list bool) :
  session sock s = Some me ->
  In stockCode STOCKS ->
  snd (run (subscribe sock stockCode) fails s db)
  = if hd false fails then db
    else match parseFloat_opt (currentPrices s !! stockCode) with
         | Num q =>
             if hd false (tl fails) then alter (pull stockCode) me db
             else alter (push stockCode q) me (alter (pull stockCode) me db)
         | NaN => alter (pull stockCode) me db
         end.
Proof.
  intros Hs Hin. pose proof (session_userEmail sock s me Hs) as He.
  unfold subscribe. cbn [run bind read do await]. rewrite Hs.
  rewrite (includes_catalog stockCode Hin). cbn [negb].
  cbn [run bind read do await apply_effect userEmail set_rooms write_console
       currentPrices].
  rewrite He. cbn [perform update_user].
  destruct (hd false fails); [reflexivity|].
  cbn [run bind read do await apply_effect userEmail set_rooms write_console].
  rewrite He. cbn [perform update_user].
  destruct (parseFloat_opt (currentPrices s !! stockCode)); [reflexivity|].
  destruct (hd false (tl fails)); reflexivity.
Qed.

(** Whatever the store answered, the account is still there and its
    subscriptions for the other symbols are as before. *)
Lemma subscribe_keeps_others (sock : SocketId) (stockCode me : string) (user : User)
    (s : Server) (db : Db) (fails : list bool) :
  session sock s = Some me ->
  In stockCode STOCKS ->
  db !! me = Some user ->
  exists u1,
    snd (run (subscribe sock stockCode) fails s db) !! me = Some u1 /\
    List.filter (fun x => negb (has_symbol stockCode x)) (subscriptions u1)
    = List.filter (fun x => negb (has_symbol stockCode x)) (subscriptions user).
Proof.
  intros Hs Hin Hu. rewrite (subscribe_run sock stockCode me s db fails Hs Hin).
  assert (Hpull : exists u1,
            alter (pull stockCode) me db !! me = Some u1 /\
            List.filter (fun x => negb (has_symbol stockCode x)) (subscriptions u1)
            = List.filter (fun x => negb (has_symbol stockCode x)) (subscriptions user)).
  { rewrite lookup_alter_eq, Hu. eexists. split; [reflexivity|].
    cbn [pull subscriptions]. apply filter_kept. }
  destruct (hd false fails); [exists user; split; [exact Hu | reflexivity]|].
  destruct (parseFloat_opt (currentPrices s !! stockCode)) as [|q]; [exact Hpull|].
  destruct (hd false (tl fails)); [exact Hpull|].
  rewrite !lookup_alter_eq, Hu. eexists. split; [reflexivity|].
  cbn [push pull subscriptions]. rewrite List.filter_app.
  cbn [List.filter has_symbol]. rewrite String.eqb_refl. cbn [negb].
  rewrite app_nil_r. apply filter_kept.
Qed.

(** C4 (as the code has it). For a socket with the session of an existing
    account and a catalog symbol: when [subscribe] has been called and has
    run to its end, whatever the store answered, and is then called again
    and runs to its end with the store accepting its two updates, whatever
    happened to the prices in between, the account holds exactly one
    subscription for the symbol, its entry price is the live price at the
    second call, and the subscriptions for the other symbols are as
    before. *)
Theorem subscribe_twice_in_turn (sock : SocketId) (stockCode me : string)
    (user : User) (s s2 : Server) (db : Db) (fails : list bool) (p2 : Q) :
  In stockCode STOCKS ->
  session sock s = Some me ->
  db !! me = Some user ->
  session sock s2 = Some me ->
  parseFloat_opt (currentPrices s2 !! stockCode) = Num p2 ->
  let db1 := snd (run (subscribe sock stockCode) fails s db) in
  let db2 := snd (run (subscribe sock stockCode) [] s2 db1) in
  exists user2,
    db2 !! me = Some user2 /\
    List.filter (has_symbol stockCode) (subscriptions user2)
      = [ Some {| symbol := Some stockCode; entryPrice := Some p2 |} ] /\
    List.filter (fun x => negb (has_symbol stockCode x)) (subscriptions user2)
      = List.filter (fun x => negb (has_symbol stockCode x)) (subscriptions user).
Proof.
  intros Hin Hs Hu Hs2 Hp2 db1 db2.
  destruct (subscribe_keeps_others sock stockCode me user s db fails Hs Hin Hu)
    as (u1 & Hu1 & Hrest).
  fold db1 in Hu1.
  unfold db2. rewrite (subscribe_run sock stockCode me s2 db1 [] Hs2 Hin), Hp2.
  cbn [hd tl]. rewrite !lookup_alter_eq, Hu1. eexists. split; [reflexivity|].
  cbn [push pull subscriptions]. rewrite !List.filter_app.
  cbn [List.filter has_symbol]. rewrite String.eqb_refl. cbn [negb].
  rewrite filter_pulled, app_nil_r. split; [reflexivity|].
  rewrite <- Hrest. apply filter_kept.
Qed.

(** ** Handlers and the event loop *)

Lemma step_resume_alone {R : Type} (r : Request R) (k : option R -> Prog unit)
    (fail : bool) (s : Server) (db : Db) :
  step {| server := s; database := db; pending := [Await r k] |} (Resume 0 fail)
  = Some {| server := fst (advance (k (snd (perform fail r db))) s);
            database := fst (perform fail r db);
            pending := park (snd (advance (k (snd (perform fail r db))) s)) [] |}.
Proof.
  cbn [step pending database server].
  change ([Await r k] !! 0) with (Some (Await r k)).
  cbn iota beta.
  destruct (perform fail r db) as [db' reply]. cbn [fst snd].
  destruct (advance (k reply) s) as [s1 p1]. reflexivity.
Qed.

(** With nothing else waiting, delivering the answers one after the other
    is [run]. *)
Lemma exec_alone (p : Prog unit) (fails : list bool) (s : Server) (db : Db) :
  exec (answers (awaits p fails s db) fails)
       {| server := fst (advance p s); database := db;
          pending := park (snd (advance p s)) [] |}
  = Some {| server := snd (fst (run p fails s db));
            database := snd (run p fails s db);
            pending := [] |}.
Proof.
  revert fails s db.
  induction p as [a | k IH | e k IH | R r k IH]; intros fails s db;
    cbn [advance run awaits fst snd park].
  - reflexivity.
  - apply IH.
  - apply IH.
  - destruct (perform (hd false fails) r db) as [db' reply] eqn:E.
    cbn [answers exec app]. rewrite step_resume_alone, E. cbn [fst snd].
    apply IH.
Qed.

Lemma apply_effect_tables (e : Effect) (s : Server) :
  stockHistory (apply_effect e s) = stockHistory s /\
  currentPrices (apply_effect e s) = currentPrices s.
Proof. destruct e; split; reflexivity. Qed.

Lemma advance_tables {A : Type} (p : Prog A) (s : Server) :
  stockHistory (fst (advance p s)) = stockHistory s /\
  currentPrices (fst (advance p s)) = currentPrices s.
Proof.
  revert s. induction p as [a | k IH | e k IH | R r k IH]; intros s; cbn [advance fst].
  - split; reflexivity.
  - apply IH.
  - destruct (IH (apply_effect e s)) as [-> ->]. apply apply_effect_tables.
  - split; reflexivity.
Qed.

(** Whatever arrives, in whatever order, the timer never fails and the
    buffers stay full: no handler writes to [stockHistory]. *)
Lemma exec_full (acts : list Action) (sys : System) :
  full (server sys) ->
  exists sys', exec acts sys = Some sys' /\ full (server sys').
Proof.
  revert sys. induction acts as [|a acts IH]; intros sys Hfull.
  - exists sys. split; [reflexivity | exact Hfull].
  - assert (Hstep : exists sys1, step sys a = Some sys1 /\ full (server sys1)).
    { destruct a as [sock m | i fail | ]; cbn [step].
      - pose proof (advance_tables (handler sock m) (server sys)) as [Hh _].
        destruct (advance (handler sock m) (server sys)) as [s1 p1].
        eexists. split; [reflexivity|]. cbn [server fst] in *.
        unfold full. rewrite Hh. exact Hfull.
      - destruct (pending sys !! i) as [[a | k | e k | R r k]|];
          try (exists sys; split; [reflexivity | exact Hfull]).
        destruct (perform fail r (database sys)) as [db reply].
        pose proof (advance_tables (k reply) (server sys)) as [Hh _].
        destruct (advance (k reply) (server sys)) as [s1 p1].
        eexists. split; [reflexivity|]. cbn [server fst] in *.
        unfold full. rewrite Hh. exact Hfull.
      - destruct (tick_full (server sys) Hfull) as (s1 & -> & Hfull1 & _).
        eexists. split; [reflexivity | exact Hfull1]. }
    destruct Hstep as (sys1 & E1 & Hfull1).
    destruct (IH sys1 Hfull1) as (sys' & E & Hfull').
    exists sys'. cbn [exec]. rewrite E1. split; [exact E | exact Hfull'].
Qed.

(** What a turn of the update loop does to the engine depends on the
    engine only. *)
Lemma tick_stock_engine (s s2 : Server) (x : string) :
  engine s = engine s2 ->
  option_map engine (tick_stock s x) = option_map engine (tick_stock s2 x).
Proof.
  unfold engine. intros E. injection E as E1 E2 E3 E4.
  unfold tick_stock.
  cbn [stockHistory used_clock set_price used_random clockCalls randomCalls currentPrices].
  rewrite E1, E2, E3, E4.
  destruct (stockHistory s2 !! x) as [h|]; [|reflexivity].
  cbn [option_map currentPrices stockHistory randomCalls clockCalls broadcast send
       set_history used_clock set_price used_random].
  rewrite E1, E2, E3, E4. reflexivity.
Qed.

Lemma tick_over_engine (l : list string) (s s2 : Server) :
  engine s = engine s2 ->
  option_map engine (tick_over l s) = option_map engine (tick_over l s2).
Proof.
  revert s s2. induction l as [|y l IH]; intros s s2 E; cbn [tick_over].
  - cbn [option_map]. rewrite E. reflexivity.
  - pose proof (tick_stock_engine s s2 y E) as Hy.
    destruct (tick_stock s y) as [s'|], (tick_stock s2 y) as [s2'|];
      cbn [option_map] in Hy; try discriminate Hy; [|reflexivity].
    apply IH. congruence.
Qed.

Lemma advance_engine {A : Type} (p : Prog A) (s : Server) :
  engine (fst (advance p s)) = engine s.
Proof.
  revert s. induction p as [a | k IH | e k IH | R r k IH]; intros s; cbn [advance fst].
  - reflexivity.
  - apply IH.
  - rewrite IH. destruct e; reflexivity.
  - reflexivity.
Qed.

(** In the event loop the engine moves with the firings of the timer and
    with nothing else. *)
Lemma step_engine (sys : System) (s0 : Server) (a : Action) :
  engine (server sys) = engine s0 ->
  option_map (fun sys' => engine (server sys')) (step sys a)
  = match a with
    | Tick => option_map engine (tick s0)
    | _ => Some (engine s0)
    end.
Proof.
  intros E. destruct a as [sock m | i fail | ]; cbn [step].
  - pose proof (advance_engine (handler sock m) (server sys)) as Ha.
    destruct (advance (handler sock m) (server sys)) as [s1 p1].
    cbn [option_map server fst] in *. congruence.
  - destruct (pending sys !! i) as [[a | k | e k | R r k]|];
      try (cbn [option_map]; congruence).
    destruct (perform fail r (database sys)) as [db reply].
    pose proof (advance_engine (k reply) (server sys)) as Ha.
    destruct (advance (k reply) (server sys)) as [s1 p1].
    cbn [option_map server fst] in *. congruence.
  - pose proof (tick_over_engine STOCKS (server sys) s0 E) as Ht.
    fold (tick (server sys)) in Ht. fold (tick s0) in Ht.
    destruct (tick (server sys)) as [s1|]; cbn [option_map] in *; exact Ht.
Qed.

Lemma play_engine (turns : list Turn) (sys sys' : System) (s0 : Server) :
  engine (server sys) = engine s0 ->
  play turns sys = Some sys' ->
  option_map engine (ticks (fires turns) s0) = Some (engine (server sys')).
Proof.
  revert sys s0. induction turns as [|t turns IH]; intros sys s0 E Hp.
  - cbn in Hp. injection Hp as <-. cbn [fires ticks option_map]. congruence.
  - cbn [play] in Hp. destruct (turn sys t) as [sys1|] eqn:Et; [|discriminate Hp].
    destruct t as [sock [m|l] | i fail | ]; cbn [turn fires] in *.
    + pose proof (step_engine sys s0 (Receive sock m) E) as Hs.
      rewrite Et in Hs. cbn [option_map] in Hs.
      apply (IH sys1 s0 ltac:(congruence) Hp).
    + discriminate Et.
    + pose proof (step_engine sys s0 (Resume i fail) E) as Hs.
      rewrite Et in Hs. cbn [option_map] in Hs.
      apply (IH sys1 s0 ltac:(congruence) Hp).
    + pose proof (step_engine sys s0 Tick E) as Hs.
      rewrite Et in Hs. cbn [option_map] in Hs.
      cbn [ticks]. destruct (tick s0) as [s1|]; [|discriminate Hs].
      cbn [option_map] in Hs.
      apply (IH sys1 s1 ltac:(congruence) Hp).
Qed.

(** With every buffer full, the process ends exactly at the first emit
    without a payload. *)
Lemma play_survives (turns : list Turn) (sys : System) :
  full (server sys) ->
  (Forall with_payload turns -> exists sys', play turns sys = Some sys') /\
  (~ Forall with_payload turns -> play turns sys = None).
Proof.
  revert sys. induction turns as [|t turns IH]; intros sys Hfull.
  - split; [intros _; exists sys; reflexivity|]. intros C. destruct C. constructor.
  - assert (Hstep : forall a, exists sys1, step sys a = Some sys1 /\ full (server sys1)).
    { intros a. destruct (exec_full [a] sys Hfull) as (sys1 & E & Hf).
      cbn [exec] in E. destruct (step sys a) as [sys2|]; [|discriminate E].
      injection E as ->. eauto. }
    destruct t as [sock [m|l] | i fail | ]; cbn [play turn].
    + destruct (Hstep (Receive sock m)) as (sys1 & -> & Hf).
      destruct (IH sys1 Hf) as [A B]. split.
      * intros Hall. apply A. apply Forall_cons in Hall as [_ Hall]. exact Hall.
      * intros Hn. apply B. intros C. apply Hn. constructor; [exact I | exact C].
    + split; [|reflexivity]. intros Hall. apply Forall_cons in Hall as [[] _].
    + destruct (Hstep (Resume i fail)) as (sys1 & -> & Hf).
      destruct (IH sys1 Hf) as [A B]. split.
      * intros Hall. apply A. apply Forall_cons in Hall as [_ Hall]. exact Hall.
      * intros Hn. apply B. intros C. apply Hn. constructor; [exact I | exact C].
    + destruct (Hstep Tick) as (sys1 & -> & Hf).
      destruct (IH sys1 Hf) as [A B]. split.
      * intros Hall. apply A. apply Forall_cons in Hall as [_ Hall]. exact Hall.
      * intros Hn. apply B. intros C. apply Hn. constructor; [exact I | exact C].
Qed.

(** A run that the process survives is a run of [exec]. *)
Lemma play_exec (turns : list Turn) (sys sys' : System) :
  play turns sys = Some sys' ->
  exists acts, exec acts sys = Some sys' /\ Forall with_payload turns.
Proof.
  revert sys. induction turns as [|t turns IH]; intros sys Hp.
  - exists []. split; [exact Hp | constructor].
  - cbn [play] in Hp. destruct (turn sys t) as [sys1|] eqn:Et; [|discriminate Hp].
    destruct (IH sys1 Hp) as (acts & E & Hall).
    destruct t as [sock [m|l] | i fail | ]; cbn [turn] in Et; try discriminate Et.
    + exists (Receive sock m :: acts). cbn [exec]. rewrite Et.
      split; [exact E|]. constructor; [exact I | exact Hall].
    + exists (Resume i fail :: acts). cbn [exec]. rewrite Et.
      split; [exact E|]. constructor; [exact I | exact Hall].
    + exists (Tick :: acts). cbn [exec]. rewrite Et.
      split; [exact E|]. constructor; [exact I | exact Hall].
Qed.

Lemma full_start (db : Db) :
  full (server {| server := init; database := db; pending := [] |}).
Proof. cbn [server]. exact init_full. Qed.

Lemma engine_start (db : Db) :
  engine (server {| server := init; database := db; pending := [] |}) = engine init.
Proof. cbn [server]. reflexivity. Qed.

(** C3. After seeding the buffer of a catalog symbol holds 100 points.
    Each of the [n] firings that follow makes one point for the symbol:
    the point of the [k]-th firing carries the symbol, the price that this
    firing leaves as the current price, and the time of the clock reading
    number [500 + 5 k + j], so that a later point has a later reading.
    The buffer after the firings is the window of the last 100 points of
    the append log: the seeded history followed by the points made, in the
    order of the firings, with the first [n] entries gone.  Its length is
    100, never more.  The same holds in the event loop, for every sequence
    of emits, answers and firings that the process survives, with [n] the
    number of firings in it; and the process survives every sequence in
    which each emit carries its payload. *)
Theorem history_window (n : nat) (stock : string) :
  In stock STOCKS ->
  exists j h0,
    STOCKS !! j = Some stock /\
    stockHistory init !! stock = Some h0 /\
    length h0 = 100 /\
    length (made n init j stock) = n /\
    (exists s',
       ticks n init = Some s' /\
       stockHistory s' !! stock = Some (drop n (h0 ++ made n init j stock)) /\
       length (drop n (h0 ++ made n init j stock)) = 100) /\
    (forall k, k < n ->
       exists sk sk',
         ticks k init = Some sk /\ tick sk = Some sk' /\
         made n init j stock !! k = Some (tick_point sk j stock) /\
         code (tick_point sk j stock) = Some stock /\
         currentPrices sk' !! stock = Some (price (tick_point sk j stock)) /\
         timestamp (tick_point sk j stock)
           = toLocaleTimeString (Date_now (500 + 5 * k + j))) /\
    (forall (turns : list Turn) (db : Db),
       (Forall with_payload turns ->
        exists sys',
          play turns {| server := init; database := db; pending := [] |} = Some sys') /\
       (forall sys',
          play turns {| server := init; database := db; pending := [] |} = Some sys' ->
          stockHistory (server sys') !! stock
            = Some (drop (fires turns) (h0 ++ made (fires turns) init j stock)) /\
          length (drop (fires turns) (h0 ++ made (fires turns) init j stock)) = 100)).
Proof.
  intros Hin.
  assert (Hj : exists j, STOCKS !! j = Some stock).
  { apply list_elem_of_lookup_1, list_elem_of_In. exact Hin. }
  destruct Hj as [j Hj].
  destruct (init_full stock Hin) as (h0 & Hh0 & Hl0).
  exists j, h0. split; [exact Hj|]. split; [exact Hh0|]. split; [exact Hl0|].
  assert (Hwin : forall m, exists s',
            ticks m init = Some s' /\ length (made m init j stock) = m /\
            stockHistory s' !! stock = Some (drop m (h0 ++ made m init j stock)) /\
            length (drop m (h0 ++ made m init j stock)) = 100).
  { intros m. destruct (ticks_made m init j stock h0 init_full Hj Hh0)
      as (s' & E & _ & _ & _ & L & Hs).
    exists s'. split; [exact E|]. split; [exact L|]. split; [exact Hs|].
    rewrite length_drop, length_app. lia. }
  destruct (Hwin n) as (s' & E & L & Hs & Hlen).
  split; [exact L|]. split; [exists s'; auto|]. split.
  - intros k Hk.
    destruct (made_lookup n k init j stock init_full Hj Hk)
      as (sk & sk' & A & B & C & D & F).
    exists sk, sk'. split; [exact A|]. split; [exact B|]. split; [exact D|].
    split; [reflexivity|]. split; [exact F|].
    cbn [tick_point timestamp]. rewrite C, init_clock.
    do 2 f_equal. lia.
  - intros turns db. split.
    + apply play_survives. apply full_start.
    + intros sys' Hp.
      pose proof (play_engine turns _ sys' init (engine_start db) Hp) as He.
      destruct (Hwin (fires turns)) as (sm & Em & _ & Hsm & Hlm).
      rewrite Em in He. cbn [option_map] in He. unfold engine in He.
      injection He as _ He _ _. rewrite <- He. split; [exact Hsm | exact Hlm].
Qed.

End HandlerFacts.

(** ** What the email pattern accepts *)

Section Regex.

Lemma lang_Cat_inv r1 r2 s :
  lang (Cat r1 r2) s -> exists s1 s2, s = s1 ++ s2 /\ lang r1 s1 /\ lang r2 s2.
Proof. intros H. inversion H; subst. eauto. Qed.

Lemma lang_Alt_inv r1 r2 s : lang (Alt r1 r2) s -> lang r1 s \/ lang r2 s.
Proof. intros H. inversion H; subst; auto. Qed.

Lemma lang_Class_inv p s : lang (Class p) s -> exists c, s = [c] /\ p c = true.
Proof. intros H. inversion H; subst. eauto. Qed.

Lemma nullable_spec r : nullable r = true <-> lang r [].
Proof.
  induction r as [| |p|r1 IH1 r2 IH2|r1 IH1 r2 IH2|r IH]; cbn [nullable].
  - split; [discriminate|]. intros H. inversion H.
  - split; [constructor|reflexivity].
  - split; [discriminate|]. intros H. inversion H.
  - rewrite andb_true_iff, IH1, IH2. split.
    + intros [H1 H2]. exact (lang_Cat r1 r2 [] [] H1 H2).
    + intros H. apply lang_Cat_inv in H as (s1 & s2 & E & H1 & H2).
      symmetry in E. apply app_eq_nil in E as [-> ->]. auto.
  - rewrite orb_true_iff, IH1, IH2. split.
    + intros [H|H]; [apply lang_AltL|apply lang_AltR]; exact H.
    + apply lang_Alt_inv.
  - split; [constructor|reflexivity].
Qed.

(** A nonempty string of [r*] starts with a nonempty string of [r]. *)
Lemma lang_Star_cons r c s :
  lang (Star r) (c :: s) ->
  exists s1 s2, s = s1 ++ s2 /\ lang r (c :: s1) /\ lang (Star r) s2.
Proof.
  intros H. remember (Star r) as r' eqn:Er. remember (c :: s) as t eqn:Et.
  revert c s Et. induction H as [ | | | | | |r0 s1 s2 H1 _ H2 IH2]; intros a t Et;
    try discriminate.
  injection Er as ->.
  destruct s1 as [|c1 s1].
  - cbn in Et. apply IH2; [reflexivity | exact Et].
  - cbn in Et. injection Et as -> <-. exists s1, s2. auto.
Qed.

Lemma deriv_spec c r s : lang (deriv c r) s <-> lang r (c :: s).
Proof.
  revert s. induction r as [| |p|r1 IH1 r2 IH2|r1 IH1 r2 IH2|r IH]; intros s; cbn [deriv].
  - split; intros H; inversion H.
  - split; intros H; inversion H.
  - destruct (p c) eqn:E; split; intros H.
    + inversion H; subst. constructor. exact E.
    + apply lang_Class_inv in H as (c' & [= -> ->] & _). constructor.
    + inversion H.
    + apply lang_Class_inv in H as (c' & [= -> ->] & E'). congruence.
  - assert (Hcat : forall t, lang (Cat (deriv c r1) r2) t -> lang (Cat r1 r2) (c :: t)).
    { intros t H. apply lang_Cat_inv in H as (s1 & s2 & -> & H1 & H2).
      apply IH1 in H1. exact (lang_Cat r1 r2 (c :: s1) s2 H1 H2). }
    assert (Hinv : lang (Cat r1 r2) (c :: s) ->
              lang (Cat (deriv c r1) r2) s \/ (lang r1 [] /\ lang (deriv c r2) s)).
    { intros H. apply lang_Cat_inv in H as (s1 & s2 & E & H1 & H2).
      destruct s1 as [|c1 s1].
      - cbn in E. subst s2. right. split; [exact H1|]. apply IH2. exact H2.
      - cbn in E. injection E as <- ->. left.
        apply lang_Cat; [apply IH1; exact H1 | exact H2]. }
    destruct (nullable r1) eqn:N; split; intros H.
    + apply lang_Alt_inv in H as [H|H]; [apply Hcat; exact H|].
      apply IH2 in H. apply nullable_spec in N.
      exact (lang_Cat r1 r2 [] (c :: s) N H).
    + destruct (Hinv H) as [H'|[_ H']]; [apply lang_AltL|apply lang_AltR]; exact H'.
    + apply Hcat. exact H.
    + destruct (Hinv H) as [H'|[H' _]]; [exact H'|].
      apply nullable_spec in H'. congruence.
  - split; intros H.
    + apply lang_Alt_inv in H as [H|H]; [apply lang_AltL, IH1|apply lang_AltR, IH2]; exact H.
    + apply lang_Alt_inv in H as [H|H]; [apply lang_AltL, IH1|apply lang_AltR, IH2]; exact H.
  - split; intros H.
    + apply lang_Cat_inv in H as (s1 & s2 & -> & H1 & H2).
      apply IH in H1. exact (lang_StarS r (c :: s1) s2 H1 H2).
    + apply lang_Star_cons in H as (s1 & s2 & -> & H1 & H2).
      apply lang_Cat; [apply IH; exact H1 | exact H2].
Qed.

Lemma matches_spec r s : matches r s = true <-> lang r s.
Proof.
  revert r. induction s as [|c s IH]; intros r; cbn [matches].
  - apply nullable_spec.
  - rewrite IH. apply deriv_spec.
Qed.

Lemma lang_Star_Class p s : lang (Star (Class p)) s <-> Forall (fun c => p c = true) s.
Proof.
  split.
  - intros H. remember (Star (Class p)) as r eqn:Er.
    induction H as [ | | | | | |r0 s1 s2 H1 _ H2 IH2]; try discriminate.
    + constructor.
    + injection Er as ->. apply lang_Class_inv in H1 as (c & -> & Hc).
      constructor; [exact Hc|]. apply IH2. reflexivity.
  - induction 1 as [|c s Hc _ IH]; [constructor|].
    exact (lang_StarS (Class p) [c] s (lang_Class p c Hc) IH).
Qed.

Lemma lang_Plus_Class p s :
  lang (Plus (Class p)) s <-> s <> [] /\ Forall (fun c => p c = true) s.
Proof.
  unfold Plus. split.
  - intros H. apply lang_Cat_inv in H as (s1 & s2 & -> & H1 & H2).
    apply lang_Class_inv in H1 as (c & -> & Hc). apply lang_Star_Class in H2.
    split; [discriminate|]. constructor; assumption.
  - intros [Hne Hall]. destruct Hall as [|c s Hc Hs]; [contradiction|].
    apply (lang_Cat (Class p) (Star (Class p)) [c] s); [constructor; exact Hc|].
    apply lang_Star_Class. exact Hs.
Qed.

Lemma lang_char (a : ascii) s : lang (Class (Ascii.eqb a)) s <-> s = [a].
Proof.
  split.
  - intros H. apply lang_Class_inv in H as (c & -> & Hc).
    apply Ascii.eqb_eq in Hc. subst. reflexivity.
  - intros ->. constructor. apply Ascii.eqb_refl.
Qed.

(** X1. [isValidEmail] accepts exactly the strings that split as
    [local @ d1 . d2] where each of the three parts is not empty and holds
    neither white space nor [@]. *)
Theorem isValidEmail_spec (email : string) :
  isValidEmail email = true <->
  exists local d1 d2,
    list_ascii_of_string email = local ++ "@"%char :: d1 ++ "."%char :: d2 /\
    email_part local /\ email_part d1 /\ email_part d2.
Proof.
  unfold isValidEmail, email_re. rewrite matches_spec. split.
  - intros H.
    apply lang_Cat_inv in H as (l & t1 & -> & Hl & H).
    apply lang_Cat_inv in H as (a & t2 & -> & Ha & H).
    apply lang_Cat_inv in H as (d1 & t3 & -> & Hd1 & H).
    apply lang_Cat_inv in H as (b & d2 & -> & Hb & Hd2).
    apply lang_char in Ha, Hb. subst a b.
    apply lang_Plus_Class in Hl, Hd1, Hd2.
    exists l, d1, d2. split; [reflexivity|]. auto.
  - intros (l & d1 & d2 & -> & Hl & Hd1 & Hd2).
    apply lang_Plus_Class in Hl, Hd1, Hd2.
    apply lang_Cat; [exact Hl|].
    apply (lang_Cat _ _ ["@"%char]); [apply lang_char; reflexivity|].
    apply lang_Cat; [exact Hd1|].
    apply (lang_Cat _ _ ["."%char]); [apply lang_char; reflexivity|].
    exact Hd2.
Qed.

End Regex.

(** ** Registration *)

Section RegistrationFacts.
Import Registration.
Context `{Bcrypt}.

(** Every path of a [register] run alone. *)
Lemma register_run (sock : SocketId) (name0 email0 password0 : option string)
    (fails : list bool) (out : list (SocketId * Event)) (db : Db) :
  run (register sock name0 email0 password0) fails out db
  = if bad_details name0 email0 password0
    then (out ++ [ (sock, authError "Invalid details. Name required, Pass > 3 chars.") ], db)
    else if negb (isValidEmail (text email0))
    then (out ++ [ (sock, authError "Invalid email format. Use name@domain.com") ], db)
    else if hd false fails
    then (out ++ [ (sock, authError "Registration failed.") ], db)
    else match db !! text email0 with
         | Some _ => (out ++ [ (sock, authError "Email exists.") ], db)
         | None =>
             if hd false (tl fails) || hd false (tl (tl fails))
             then (out ++ [ (sock, authError "Registration failed.") ], db)
             else (out ++ [ (sock, registerSuccess "Registration successful!") ],
                   <[text email0 := new_user name0 email0 password0]> db)
         end.
Proof.
  unfold register, bad_details.
  destruct (negb (truthy_str (text name0)) || negb (truthy_str (text email0))
            || negb (truthy_str (text password0))
            || (String.length (text password0) <? 4)%nat); [reflexivity|].
  destruct (negb (isValidEmail (text email0))); [reflexivity|].
  cbn [run perform]. destruct (hd false fails); [reflexivity|].
  destruct (db !! text email0) as [u|] eqn:E; [reflexivity|].
  cbn [run perform]. destruct (hd false (tl fails)); [reflexivity|].
  cbn [run perform orb]. destruct (hd false (tl (tl fails))); [reflexivity|].
  rewrite E. reflexivity.
Qed.

(** X2. When the name or the email is missing or empty, or the password
    has fewer than four characters, or the email does not have the form of
    an address, [register] answers with one [authError] and stops before
    it asks the store for anything: the store is as before.  The message
    is the one about the details whenever a detail is missing or the
    password too short, and the one about the email format when the
    details are there and only the form of the address is wrong. *)
Theorem register_rejects_bad_input (sock : SocketId)
    (name0 email0 password0 : option string)
    (fails : list bool) (out : list (SocketId * Event)) (db : Db) :
  text name0 = EmptyString \/ text email0 = EmptyString
  \/ String.length (text password0) < 4
  \/ isValidEmail (text email0) = false ->
  exists msg,
    register sock name0 email0 password0 = Emit sock (authError msg) (Ret tt) /\
    run (register sock name0 email0 password0) fails out db
      = (out ++ [ (sock, authError msg) ], db) /\
    (text name0 = EmptyString \/ text email0 = EmptyString
     \/ String.length (text password0) < 4 ->
     msg = "Invalid details. Name required, Pass > 3 chars.") /\
    (text name0 <> EmptyString -> text email0 <> EmptyString ->
     4 <= String.length (text password0) ->
     msg = "Invalid email format. Use name@domain.com").
Proof.
  intros Hbad. unfold register.
  destruct (negb (truthy_str (text name0)) || negb (truthy_str (text email0))
            || negb (truthy_str (text password0))
            || (String.length (text password0) <? 4)%nat) eqn:B.
  - eexists. split; [reflexivity|]. split; [reflexivity|]. split; [reflexivity|].
    intros Hn He Hp. exfalso.
    apply orb_true_iff in B as [B|B]; [|apply Nat.ltb_lt in B; lia].
    apply orb_true_iff in B as [B|B].
    + apply orb_true_iff in B as [B|B].
      * destruct (text name0); [contradiction | discriminate B].
      * destruct (text email0); [contradiction | discriminate B].
    + destruct (text password0); [cbn in Hp; lia | discriminate B].
  - apply orb_false_iff in B as [B B4]. apply orb_false_iff in B as [B B3].
    apply orb_false_iff in B as [B1 B2].
    apply Nat.ltb_ge in B4.
    assert (Hn : text name0 <> EmptyString) by (intros E; rewrite E in B1; discriminate).
    assert (He : text email0 <> EmptyString) by (intros E; rewrite E in B2; discriminate).
    destruct Hbad as [C|[C|[C|C]]]; try contradiction; try lia.
    rewrite C. cbn [negb].
    eexists. split; [reflexivity|]. split; [reflexivity|].
    split; [|reflexivity]. intros [D|[D|D]]; try contradiction; lia.
Qed.

(** X3. With acceptable details, an address that no account has and a
    store that answers, [register] writes one [registerSuccess] and stores
    one new account under the address: the name as given, the hash of the
    password with cost 10, no subscriptions.  Every other account is as
    before. *)
Theorem register_creates_account (sock : SocketId)
    (name0 email0 password0 : option string)
    (out : list (SocketId * Event)) (db : Db) :
  bad_details name0 email0 password0 = false ->
  isValidEmail (text email0) = true ->
  db !! text email0 = None ->
  let db' := snd (run (register sock name0 email0 password0) [] out db) in
  fst (run (register sock name0 email0 password0) [] out db)
    = out ++ [ (sock, registerSuccess "Registration successful!") ] /\
  db' !! text email0
    = Some {| name := text name0; email := text email0;
              password := bcrypt_hash (text password0) 10; subscriptions := [] |} /\
  (forall e, e <> text email0 -> db' !! e = db !! e) /\
  text name0 <> EmptyString /\ 4 <= String.length (text password0).
Proof.
  intros Hb Hv Hfresh db'. unfold db'. rewrite register_run, Hb, Hv, Hfresh.
  cbn [negb hd tl orb fst snd].
  split; [reflexivity|]. split; [apply lookup_insert_eq|].
  split; [intros e He; apply lookup_insert_ne; congruence|].
  unfold bad_details in Hb.
  apply orb_false_iff in Hb as [Hb B4]. apply orb_false_iff in Hb as [Hb B3].
  apply orb_false_iff in Hb as [B1 B2]. apply Nat.ltb_ge in B4.
  split; [intros E; rewrite E in B1; discriminate | exact B4].
Qed.

(** How the handler starts, with or without a payload. *)
Lemma handle_payload (sock : SocketId) (p : Payload)
    (fails : list bool) (out : list (SocketId * Event)) (db : Db) :
  handle sock (Some p) fails out db
  = Some (run (register sock (p_name p) (p_email p) (p_password p)) fails out db).
Proof. reflexivity. Qed.

(** X4. A [register] emit without a payload throws where the handler
    destructures its argument, before the [try]: nothing is written to the
    socket and nothing is stored.  An emit with a payload, whatever its
    fields, the failures and the store, writes exactly one event to the
    socket.  No account that existed is changed or removed; after an
    [authError] the store is as before; [registerSuccess] is written only
    when the address was free and the new account is in the store; an
    address that is taken always gets an [authError]. *)
Theorem register_one_reply (sock : SocketId)
    (fails : list bool) (out : list (SocketId * Event)) (db : Db) :
  (on_register sock None = None /\
   handle sock None fails out db = None /\
   forall sys, step sys (Receive sock None) = None) /\
  forall p : Payload,
    exists ev db',
      handle sock (Some p) fails out db = Some (out ++ [ (sock, ev) ], db') /\
      (forall e u, db !! e = Some u -> db' !! e = Some u) /\
      ((exists msg, ev = authError msg) -> db' = db) /\
      ((exists msg, ev = registerSuccess msg) ->
         db !! text (p_email p) = None /\
         db' = <[text (p_email p) := new_user (p_name p) (p_email p) (p_password p)]> db) /\
      (forall u, db !! text (p_email p) = Some u -> exists msg, ev = authError msg).
Proof.
  split; [split; [reflexivity | split; [reflexivity | intros sys; reflexivity]]|].
  intros p. rewrite handle_payload, register_run.
  destruct (bad_details (p_name p) (p_email p) (p_password p)).
  { eexists; eexists. split; [reflexivity|]. split; [auto|]. split; [auto|].
    split; [intros (m & E); discriminate E | eauto]. }
  destruct (negb (isValidEmail (text (p_email p)))).
  { eexists; eexists. split; [reflexivity|]. split; [auto|]. split; [auto|].
    split; [intros (m & E); discriminate E | eauto]. }
  destruct (hd false fails).
  { eexists; eexists. split; [reflexivity|]. split; [auto|]. split; [auto|].
    split; [intros (m & E); discriminate E | eauto]. }
  destruct (db !! text (p_email p)) as [u0|] eqn:E0.
  { eexists; eexists. split; [reflexivity|]. split; [auto|]. split; [auto|].
    split; [intros (m & E); discriminate E | eauto]. }
  destruct (hd false (tl fails) || hd false (tl (tl fails))).
  { eexists; eexists. split; [reflexivity|]. split; [auto|]. split; [auto|].
    split; [intros (m & E); discriminate E | eauto]. }
  eexists; eexists. split; [reflexivity|].
  split.
  { intros e u Hu. rewrite lookup_insert_ne; [exact Hu|]. intros <-. congruence. }
  split; [intros (m & E); discriminate E|].
  split; [intros _; split; reflexivity|]. intros u Hu. discriminate Hu.
Qed.







Section Race.
Variables (s1 s2 : SocketId) (p1 p2 : Payload).
Variables (out : list (SocketId * Event)) (db : Db).
Hypothesis same_email : text (p_email p2) = text (p_email p1).
Hypothesis free : db !! text (p_email p1) = None.



End Race.






End RegistrationFacts.

(** ** Registration, then login *)

Section RegisterThenLogin.
Context `{Environment} `{Registration.Bcrypt}.

(** X6. After a successful [register] a [login] with the same address
    finds the account.  It leaves the rooms alone.  When bcrypt accepts the
    attempt against the stored hash, the socket gets the session of the
    address and one [loginSuccess] with the registered name and an empty
    list of subscriptions; when bcrypt refuses it, the socket gets
    [Invalid password.] and no session is set. *)
Theorem register_then_login (sock sock2 : SocketId)
    (name0 email0 password0 : option string) (attempt : string)
    (out : list (SocketId * Registration.Event)) (db : Db) (s : Server) :
  bad_details name0 email0 password0 = false ->
  isValidEmail (Registration.text email0) = true ->
  db !! Registration.text email0 = None ->
  exists db' s',
    Registration.run (Registration.register sock name0 email0 password0) [] out db
      = (out ++ [ (sock, Registration.registerSuccess "Registration successful!") ], db') /\
    run (login sock2 (Registration.text email0) attempt) [] s db' = (tt, s', db') /\
    rooms s' = rooms s /\
    (bcrypt_compare attempt
       (Registration.bcrypt_hash (Registration.text password0) 10) = true ->
     session sock2 s' = Some (Registration.text email0) /\
     outbox s'
       = outbox s ++ [ (sock2, loginSuccess (Registration.text name0)
                                 (Registration.text email0) [] STOCKS) ]) /\
    (bcrypt_compare attempt
       (Registration.bcrypt_hash (Registration.text password0) 10) = false ->
     userEmail s' = userEmail s /\
     outbox s' = outbox s ++ [ (sock2, authError "Invalid password.") ]).
Proof.
  intros Hb Hv Hfresh.
  rewrite register_run, Hb, Hv, Hfresh. cbn [negb hd tl orb].
  exists (<[Registration.text email0 := new_user name0 email0 password0]> db).
  unfold login. cbn [run bind await perform hd tl]. rewrite lookup_insert_eq.
  cbn [run bind await perform hd tl new_user password].
  destruct (bcrypt_compare attempt
              (Registration.bcrypt_hash (Registration.text password0) 10)).
  - cbn [run bind read do apply_effect currentPrices set_userEmail subscriptions
         email name cleanSubs fold_left forEach].
    eexists. split; [reflexivity|]. split; [reflexivity|]. split; [reflexivity|].
    split; [|intros E; discriminate E]. intros _.
    split; [|reflexivity].
    unfold session. cbn [apply_effect userEmail send set_userEmail email new_user].
    rewrite lookup_insert_eq.
    unfold bad_details in Hb.
    destruct (Registration.text email0) as [|c r]; [|reflexivity].
    cbn in Hb. rewrite orb_true_r in Hb. discriminate Hb.
  - cbn [run bind do apply_effect].
    eexists. split; [reflexivity|]. split; [reflexivity|]. split; [reflexivity|].
    split; [intros E; discriminate E|]. intros _. split; reflexivity.
Qed.

End RegisterThenLogin.

(** ** More on the update loop *)

Section MoreEngineFacts.
Context `{Environment}.

(** All that one turn of the update loop does. *)
Lemma tick_stock_all (s : Server) (stockCode : string) (h : list DataPoint) :
  stockHistory s !! stockCode = Some h ->
  exists s' dp,
    tick_stock s stockCode = Some s' /\
    price dp = toFixed2 (next_price (parseFloat_opt (currentPrices s !! stockCode))
                           (base_price stockCode) (Math_random (randomCalls s))) /\
    currentPrices s' = <[stockCode := price dp]> (currentPrices s) /\
    stockHistory s' = <[stockCode := append_point h dp]> (stockHistory s) /\
    rooms s' = rooms s /\ userEmail s' = userEmail s /\ console s' = console s /\
    randomCalls s' = S (randomCalls s) /\ clockCalls s' = S (clockCalls s).
Proof.
  intros Hh. unfold tick_stock.
  cbn [stockHistory used_clock set_price used_random]. rewrite Hh.
  match goal with |- context [priceUpdate ?d] => set (dp := d) end.
  eexists; exists dp. split; [reflexivity|]. repeat split.
Qed.

(** All that one firing does, symbol by symbol. *)
Lemma tick_over_all (l : list string) (s : Server) :
  NoDup l ->
  (forall x, In x l -> is_Some (stockHistory s !! x)) ->
  exists s',
    tick_over l s = Some s' /\
    (forall x, ~ In x l ->
       currentPrices s' !! x = currentPrices s !! x /\
       stockHistory s' !! x = stockHistory s !! x) /\
    (forall x h, In x l -> stockHistory s !! x = Some h ->
       exists k dp,
         price dp = toFixed2 (next_price (parseFloat_opt (currentPrices s !! x))
                                (base_price x) (Math_random k)) /\
         currentPrices s' !! x = Some (price dp) /\
         stockHistory s' !! x = Some (append_point h dp)) /\
    rooms s' = rooms s /\ userEmail s' = userEmail s /\ console s' = console s /\
    randomCalls s' = length l + randomCalls s /\
    clockCalls s' = length l + clockCalls s.
Proof.
  revert s. induction l as [|y l IH]; intros s Hnd Hall.
  - exists s. cbn. repeat split; try reflexivity. intros x h [].
  - apply NoDup_cons in Hnd as [Hy Hnd].
    destruct (Hall y ltac:(left; reflexivity)) as [hy Hhy].
    destruct (tick_stock_all s y hy Hhy)
      as (s1 & dp & E1 & Hp & Hc1 & Hh1 & Hr1 & Hu1 & Ho1 & Hn1 & Hk1).
    destruct (IH s1 Hnd) as (s' & E & Hout & Hin & Hr & Hu & Ho & Hn & Hk).
    { intros x Hx. rewrite Hh1. destruct (decide (y = x)) as [->|Hne].
      - rewrite lookup_insert_eq. eauto.
      - rewrite lookup_insert_ne by exact Hne. apply Hall. right. exact Hx. }
    exists s'. cbn [tick_over]. rewrite E1. split; [exact E|].
    split.
    { intros x Hx.
      destruct (Hout x) as [A B]; [intros C; apply Hx; right; exact C|].
      rewrite A, B, Hc1, Hh1.
      rewrite !lookup_insert_ne by (intros ->; apply Hx; left; reflexivity).
      split; reflexivity. }
    split.
    { intros x h [<- | Hx] Hxh.
      - exists (randomCalls s), dp.
        destruct (Hout y) as [A B]; [rewrite <- list_elem_of_In; exact Hy|].
        rewrite A, B, Hc1, Hh1, !lookup_insert_eq.
        split; [exact Hp|]. split; [reflexivity|]. congruence.
      - assert (Hne : y <> x).
        { intros ->. apply Hy. rewrite list_elem_of_In. exact Hx. }
        destruct (Hin x h Hx) as (k & dp' & A & B & C).
        { rewrite Hh1, lookup_insert_ne by exact Hne. exact Hxh. }
        rewrite Hc1, lookup_insert_ne in A by exact Hne.
        exists k, dp'. split; [exact A|]. split; [exact B | exact C]. }
    cbn [length]. repeat split; try congruence; lia.
Qed.

(** The same for the catalog. *)
Lemma tick_all (s : Server) :
  (forall x, In x STOCKS -> is_Some (stockHistory s !! x)) ->
  exists s',
    tick s = Some s' /\
    (forall x h, In x STOCKS -> stockHistory s !! x = Some h ->
       exists k dp,
         price dp = toFixed2 (next_price (parseFloat_opt (currentPrices s !! x))
                                (base_price x) (Math_random k)) /\
         currentPrices s' !! x = Some (price dp) /\
         stockHistory s' !! x = Some (append_point h dp)) /\
    rooms s' = rooms s /\ userEmail s' = userEmail s /\ console s' = console s /\
    randomCalls s' = 5 + randomCalls s /\ clockCalls s' = 5 + clockCalls s.
Proof.
  intros Hall.
  destruct (tick_over_all STOCKS s NoDup_STOCKS Hall)
    as (s' & E & _ & Hin & Hr & Hu & Ho & Hn & Hk).
  exists s'. split; [exact E|]. split; [exact Hin|]. auto.
Qed.

(** A property of the two tables that every firing keeps is kept by the
    event loop, which never stops. *)
Lemma exec_invariant (I : Server -> Prop) :
  (forall s s', stockHistory s' = stockHistory s ->
                currentPrices s' = currentPrices s -> I s -> I s') ->
  (forall s, I s -> exists s', tick s = Some s' /\ I s') ->
  forall acts sys, I (server sys) ->
    exists sys', exec acts sys = Some sys' /\ I (server sys').
Proof.
  intros Htab Htick acts. induction acts as [|a acts IH]; intros sys HI.
  - exists sys. split; [reflexivity | exact HI].
  - assert (Hstep : exists sys1, step sys a = Some sys1 /\ I (server sys1)).
    { destruct a as [sock m | i fail | ]; cbn [step].
      - pose proof (advance_tables (handler sock m) (server sys)) as [Hh Hc].
        destruct (advance (handler sock m) (server sys)) as [s1 p1].
        eexists. split; [reflexivity|]. cbn [server fst] in *.
        exact (Htab _ _ Hh Hc HI).
      - destruct (pending sys !! i) as [[a | k | e k | R r k]|];
          try (exists sys; split; [reflexivity | exact HI]).
        destruct (perform fail r (database sys)) as [db reply].
        pose proof (advance_tables (k reply) (server sys)) as [Hh Hc].
        destruct (advance (k reply) (server sys)) as [s1 p1].
        eexists. split; [reflexivity|]. cbn [server fst] in *.
        exact (Htab _ _ Hh Hc HI).
      - destruct (Htick (server sys) HI) as (s1 & -> & HI1).
        eexists. split; [reflexivity | exact HI1]. }
    destruct Hstep as (sys1 & E1 & HI1).
    destruct (IH sys1 HI1) as (sys' & E & HI').
    exists sys'. cbn [exec]. rewrite E1. split; [exact E | exact HI'].
Qed.

Lemma assoc_Some_catalog (x : string) (b : Q) :
  assoc x STOCK_BASE_PRICES = Some b ->
  In x STOCKS /\ base_price x = Num b /\ (13880 # 100 <= b)%Q.
Proof.
  intros E. unfold base_price. rewrite E. cbn [number_of].
  unfold STOCK_BASE_PRICES in E. cbn [assoc] in E.
  repeat match type of E with
  | (if String.eqb ?a ?k then _ else _) = _ =>
      destruct (String.eqb a k) eqn:Ek;
      [apply String.eqb_eq in Ek; subst x; injection E as <-;
       split; [vm_compute; tauto|]; split; [reflexivity|]; unfold Qle; cbn; lia
      | clear Ek]
  end.
  discriminate E.
Qed.

(** Inside the band the new price is the sum itself, the floor of 10 is
    far away, and the sum is within 10.245 of the base price. *)
Lemma next_price_band (c b r : Q) :
  (13880 # 100 <= b)%Q ->
  (b - (41 # 4) <= c)%Q -> (c <= b + (41 # 4))%Q ->
  (0 <= r)%Q -> (r < 1)%Q ->
  exists x, next_price (Num c) (Num b) r = Num x /\
            (b - (2049 # 200) <= x)%Q /\ (x <= b + (2049 # 200))%Q.
Proof.
  intros Hb Hl Hu H0 H1. unfold next_price. cbn [nadd nsub nmul nlt].
  match goal with |- context [Qlt_bool ?x 10] => set (y := x) end.
  assert (Hy : (b - (2049 # 200) <= y)%Q /\ (y <= b + (2049 # 200))%Q).
  { unfold y. rewrite !Qred_correct. split; lra. }
  assert (E : Qlt_bool y 10 = false) by (apply Qlt_bool_false_iff; lra).
  rewrite E. exists y. split; [reflexivity | exact Hy].
Qed.

Lemma band_after_rounding (b x : Q) :
  (b - (2049 # 200) <= x)%Q -> (x <= b + (2049 # 200))%Q ->
  parseFloat (toFixed2 (Num x)) = Num (round2 x) /\
  (b - (41 # 4) <= round2 x)%Q /\ (round2 x <= b + (41 # 4))%Q.
Proof.
  intros Hl Hu. split; [apply parseFloat_toFixed2|].
  pose proof (round2_close x) as Hc. apply Qabs_Qle_condition in Hc as [Hc1 Hc2].
  split; lra.
Qed.

Lemma in_band_tick (s : Server) :
  random_in_range -> full s -> in_band s ->
  exists s', tick s = Some s' /\ full s' /\ in_band s'.
Proof.
  intros Hrand Hfull Hband.
  destruct (tick_full s Hfull) as (s' & E & Hfull' & _).
  exists s'. split; [exact E|]. split; [exact Hfull'|].
  destruct (tick_all s) as (s2 & E2 & Hin & _).
  { intros x Hx. destruct (Hfull x Hx) as (h & Hh & _). eauto. }
  assert (s2 = s') by congruence. subst s2.
  intros x b Hxb. destruct (assoc_Some_catalog x b Hxb) as (Hx & Hbase & Hb).
  destruct (Hfull x Hx) as (h & Hh & _).
  destruct (Hin x h Hx Hh) as (k & dp & Hp & Hc & _).
  destruct (Hband x b Hxb) as (c & Ec & Hl & Hu).
  destruct (Hrand k) as [H0 H1].
  destruct (next_price_band c b (Math_random k) Hb Hl Hu H0 H1) as (y & Ey & Hyl & Hyu).
  rewrite Ec, Hbase, Ey in Hp.
  destruct (band_after_rounding b y Hyl Hyu) as (Er & Hrl & Hru).
  exists (round2 y). rewrite Hc, Hp. cbn [parseFloat_opt].
  split; [exact Er|]. split; assumption.
Qed.

Lemma in_band_init : random_in_range -> in_band init.
Proof.
  intros Hrand x b Hxb. destruct (assoc_Some_catalog x b Hxb) as (Hx & Hbase & Hb).
  destruct (init_at x Hx) as (j & s0 & _ & _ & Hp & _).
  rewrite Hbase in Hp.
  assert (Hbb : near b b) by (unfold near; split; lra).
  destruct (seed_loop_points 100 b b [] s0 Hrand Hbb) as (t' & new & E & [Hn1 Hn2] & _).
  rewrite E in Hp. cbn [fst] in Hp. rewrite Hp. cbn [parseFloat_opt].
  destruct (band_after_rounding b t') as (Er & Hrl & Hru); [lra | lra |].
  exists (round2 t'). auto.
Qed.

(** X7. With draws in [[0, 1)], in every sequence of emits, answers and
    timer firings after start-up that the process survives, the current
    price of every catalog symbol is a number within 10.25 of its base
    price, hence at least 128: the floor of 10 of the update loop is never
    reached.  The process survives the sequences in which every emit
    carries its payload, and no other. *)
Theorem price_band (turns : list Turn) (db : Db) :
  random_in_range ->
  (Forall with_payload turns ->
   exists sys', play turns {| server := init; database := db; pending := [] |} = Some sys') /\
  (~ Forall with_payload turns ->
   play turns {| server := init; database := db; pending := [] |} = None) /\
  forall sys',
    play turns {| server := init; database := db; pending := [] |} = Some sys' ->
    forall x b, assoc x STOCK_BASE_PRICES = Some b ->
      exists c,
        parseFloat_opt (currentPrices (server sys') !! x) = Num c /\
        (b - (41 # 4) <= c)%Q /\ (c <= b + (41 # 4))%Q /\ (128 <= c)%Q.
Proof.
  intros Hrand.
  destruct (play_survives turns {| server := init; database := db; pending := [] |}
              (full_start db)) as [Hlive Hdie].
  split; [exact Hlive|]. split; [exact Hdie|].
  intros sys' Hp. destruct (play_exec turns _ sys' Hp) as (acts & Ea & _).
  assert (Htab : forall s s', stockHistory s' = stockHistory s ->
            currentPrices s' = currentPrices s ->
            full s /\ in_band s -> full s' /\ in_band s').
  { intros s s' Hh Hc [Hf Hb]. split.
    - intros x Hx. rewrite Hh. apply Hf. exact Hx.
    - intros x b Hxb. rewrite Hc. apply Hb. exact Hxb. }
  assert (Htick : forall s, full s /\ in_band s ->
            exists s', tick s = Some s' /\ full s' /\ in_band s').
  { intros s [Hf Hb]. apply in_band_tick; assumption. }
  destruct (exec_invariant (fun s => full s /\ in_band s) Htab Htick acts
              {| server := init; database := db; pending := [] |}
              (conj init_full (in_band_init Hrand)))
    as (sys2 & E & _ & Hband).
  assert (sys2 = sys') by congruence. subst sys2.
  intros x b Hxb.
  destruct (Hband x b Hxb) as (c & Ec & Hl & Hu).
  destruct (assoc_Some_catalog x b Hxb) as (_ & _ & Hb).
  exists c. split; [exact Ec|]. split; [exact Hl|]. split; [exact Hu|]. lra.
Qed.

Lemma last_map {A B : Type} (f : A -> B) (l : list A) :
  last (map f l) = option_map f (last l).
Proof.
  induction l as [|a l IH]; [reflexivity|].
  destruct l as [|b l]; [reflexivity|]. exact IH.
Qed.

Lemma append_point_last (h : list DataPoint) (d : DataPoint) :
  last (append_point h d) = Some d.
Proof.
  unfold append_point. destruct (100 <? length (h ++ [d]))%nat eqn:E.
  - destruct h as [|a h]; [cbn in E; discriminate E|].
    cbn [app tail]. apply last_snoc.
  - apply last_snoc.
Qed.

Local Transparent seed_loop.

Lemma seed_loop_last (i : nat) (b : number) st :
  i <> 0 ->
  last (map price (snd (fst (seed_loop i b st))))
  = Some (toFixed2 (fst (fst (seed_loop i b st)))).
Proof.
  revert st. induction i as [|j IH]; intros [[t h] s] Hi; [contradiction|].
  cbn [seed_loop]. destruct j as [|j'].
  - cbn [seed_loop]. unfold seed_step. cbn [fst snd].
    rewrite map_app. cbn [map price]. apply last_snoc.
  - apply IH. discriminate.
Qed.

Local Opaque seed_loop.

Lemma synced_init : synced init.
Proof.
  intros x Hx. destruct (init_at x Hx) as (j & s0 & _ & _ & Hp & Hh).
  eexists; eexists. split; [exact Hp|]. split; [exact Hh|].
  apply seed_loop_last. discriminate.
Qed.

Lemma synced_tick (s : Server) :
  synced s -> exists s', tick s = Some s' /\ synced s'.
Proof.
  intros Hs.
  destruct (tick_all s) as (s' & E & Hin & _).
  { intros x Hx. destruct (Hs x Hx) as (p & h & _ & Hh & _). eauto. }
  exists s'. split; [exact E|].
  intros x Hx. destruct (Hs x Hx) as (p & h & _ & Hh & _).
  destruct (Hin x h Hx Hh) as (k & dp & _ & Hc & Hh').
  exists (price dp), (append_point h dp).
  split; [exact Hc|]. split; [exact Hh'|].
  rewrite last_map, append_point_last. reflexivity.
Qed.

(** X9. After start-up and any sequence of messages, answers and timer
    firings, the current price of a catalog symbol is the price of the
    last point of its history: the two tables never drift apart. *)
Theorem current_price_is_newest_point (acts : list Action) (db : Db) (x : string) :
  In x STOCKS ->
  exists sys' p h d,
    exec acts {| server := init; database := db; pending := [] |} = Some sys' /\
    currentPrices (server sys') !! x = Some p /\
    stockHistory (server sys') !! x = Some h /\
    last h = Some d /\ price d = p.
Proof.
  intros Hx.
  assert (Htab : forall s s', stockHistory s' = stockHistory s ->
            currentPrices s' = currentPrices s -> synced s -> synced s').
  { intros s s' Hh Hc Hs y Hy. rewrite Hh, Hc. apply Hs. exact Hy. }
  destruct (exec_invariant synced Htab synced_tick acts
              {| server := init; database := db; pending := [] |} synced_init)
    as (sys' & E & Hs).
  destruct (Hs x Hx) as (p & h & Hp & Hh & Hl).
  rewrite last_map in Hl.
  destruct (last h) as [d|] eqn:El; [|discriminate Hl].
  cbn in Hl. injection Hl as Hl.
  exists sys', p, h, d. auto.
Qed.

Lemma tick_stock_frame (s s' : Server) (stockCode : string) :
  tick_stock s stockCode = Some s' ->
  rooms s' = rooms s /\ userEmail s' = userEmail s /\ console s' = console s /\
  randomCalls s' = S (randomCalls s) /\ clockCalls s' = S (clockCalls s) /\
  (exists new, outbox s' = outbox s ++ new) /\
  (forall x, x <> stockCode ->
     currentPrices s' !! x = currentPrices s !! x /\
     stockHistory s' !! x = stockHistory s !! x).
Proof.
  unfold tick_stock. cbn [stockHistory used_clock set_price used_random].
  destruct (stockHistory s !! stockCode) as [h|]; [|discriminate].
  intros [= <-].
  cbn [rooms userEmail console randomCalls clockCalls outbox currentPrices stockHistory
       broadcast send set_history used_clock set_price used_random].
  repeat split; eauto; apply lookup_insert_ne; congruence.
Qed.

Lemma tick_over_frame (l : list string) (s s' : Server) :
  tick_over l s = Some s' ->
  rooms s' = rooms s /\ userEmail s' = userEmail s /\ console s' = console s /\
  randomCalls s' = length l + randomCalls s /\
  clockCalls s' = length l + clockCalls s /\
  (exists new, outbox s' = outbox s ++ new) /\
  (forall x, ~ In x l ->
     currentPrices s' !! x = currentPrices s !! x /\
     stockHistory s' !! x = stockHistory s !! x).
Proof.
  revert s. induction l as [|y l IH]; intros s; cbn [tick_over].
  - intros [= <-]. repeat split; try reflexivity. exists []. rewrite app_nil_r. reflexivity.
  - destruct (tick_stock s y) as [s1|] eqn:E1; [|discriminate].
    intros E. destruct (tick_stock_frame s s1 y E1) as (A1 & A2 & A3 & A4 & A5 & [n1 A6] & A7).
    destruct (IH s1 E) as (B1 & B2 & B3 & B4 & B5 & [n2 B6] & B7).
    cbn [length]. repeat split; try congruence; try lia.
    + exists (n1 ++ n2). rewrite B6, A6, app_assoc. reflexivity.
    + destruct (B7 x) as [C _]; [intros C; apply H0; right; exact C|].
      destruct (A7 x) as [D _]; [intros ->; apply H0; left; reflexivity|]. congruence.
    + destruct (B7 x) as [_ C]; [intros C; apply H0; right; exact C|].
      destruct (A7 x) as [_ D]; [intros ->; apply H0; left; reflexivity|]. congruence.
Qed.

(** X12. A firing of the timer that succeeds leaves the rooms, the
    sessions and the console as they were, reads the random source and the
    clock five times each, only adds to what was written to the sockets,
    and touches the price and the history of no symbol outside the
    catalog. *)
Theorem tick_frame (s s' : Server) :
  tick s = Some s' ->
  rooms s' = rooms s /\ userEmail s' = userEmail s /\ console s' = console s /\
  (forall sock, session sock s' = session sock s) /\
  randomCalls s' = 5 + randomCalls s /\ clockCalls s' = 5 + clockCalls s /\
  (exists new, outbox s' = outbox s ++ new) /\
  (forall x, ~ In x STOCKS ->
     currentPrices s' !! x = currentPrices s !! x /\
     stockHistory s' !! x = stockHistory s !! x).
Proof.
  intros E. destruct (tick_over_frame STOCKS s s' E) as (A1 & A2 & A3 & A4 & A5 & A6 & A7).
  split; [exact A1|]. split; [exact A2|]. split; [exact A3|].
  split; [intros sock; unfold session; rewrite A2; reflexivity|].
  split; [exact A4|]. split; [exact A5|]. split; [exact A6 | exact A7].
Qed.

(** X11. Appending points one by one with the [push]-then-[shift] of the
    update loop, to a buffer of at most 100 points, leaves the last 100 of
    all the points, in order; the length is the smaller of 100 and their
    number. *)
Theorem buffer_window (ds h : list DataPoint) :
  length h <= 100 ->
  fold_left append_point ds h = drop (length (h ++ ds) - 100) (h ++ ds) /\
  length (fold_left append_point ds h) = Nat.min 100 (length (h ++ ds)).
Proof.
  revert h. induction ds as [|d ds IH]; intros h Hh.
  - cbn [fold_left]. rewrite app_nil_r.
    replace (length h - 100) with 0 by lia. rewrite drop_0. split; [reflexivity | lia].
  - cbn [fold_left].
    assert (Hstep : append_point h d = drop (length (h ++ [d]) - 100) (h ++ [d]) /\
                    length (append_point h d) <= 100).
    { unfold append_point. destruct (100 <? length (h ++ [d]))%nat eqn:E.
      - apply Nat.ltb_lt in E. rewrite length_app in E. cbn in E.
        assert (Hl : length h = 100) by lia.
        rewrite length_app. cbn [length]. replace (length h + 1 - 100) with 1 by lia.
        destruct h as [|a h]; [discriminate Hl|]. simpl. rewrite ?drop_0.
        split; [reflexivity|]. rewrite length_app. cbn in *. lia.
      - apply Nat.ltb_ge in E.
        replace (length (h ++ [d]) - 100) with 0 by lia. rewrite drop_0.
        split; [reflexivity | exact E]. }
    destruct Hstep as [Es Hl]. destruct (IH (append_point h d) Hl) as [E1 E2].
    rewrite E2, E1, Es.
    assert (Hk : length (h ++ [d]) - 100 <= length (h ++ [d])) by lia.
    set (k := length (h ++ [d]) - 100) in *.
    assert (Ea : drop k (h ++ [d]) ++ ds = drop k (h ++ d :: ds)).
    { replace (h ++ d :: ds) with ((h ++ [d]) ++ ds)
        by (rewrite <- app_assoc; reflexivity).
      symmetry. apply drop_app_le. exact Hk. }
    rewrite Ea. rewrite drop_drop.
    assert (El : length (drop k (h ++ d :: ds)) = length (h ++ d :: ds) - k)
      by apply length_drop.
    rewrite El.
    assert (Ht : length (h ++ d :: ds) = length (h ++ [d]) + length ds).
    { rewrite !length_app. cbn. lia. }
    split; [f_equal; unfold k; lia | unfold k; lia].
Qed.

Lemma tick_over_missing (l : list string) (s : Server) (x : string) :
  In x l -> stockHistory s !! x = None -> tick_over l s = None.
Proof.
  revert s. induction l as [|y l IH]; intros s Hx Hn; [destruct Hx|].
  cbn [tick_over]. destruct (tick_stock s y) as [s1|] eqn:E1; [|reflexivity].
  destruct (decide (x = y)) as [->|Hne].
  - unfold tick_stock in E1. cbn [stockHistory used_clock set_price used_random] in E1.
    rewrite Hn in E1. discriminate E1.
  - apply IH.
    + destruct Hx as [->|Hx]; [contradiction | exact Hx].
    + destruct (tick_stock_frame s s1 y E1) as (_ & _ & _ & _ & _ & _ & A).
      destruct (A x Hne) as [_ ->]. exact Hn.
Qed.

(** X13. If a catalog symbol has no entry in [stockHistory], the [push]
    of the timer callback throws: the firing does not complete, and the
    process does not survive a sequence of turns that starts with it. *)
Theorem tick_missing_history (s : Server) (x : string) (sys : System)
    (acts : list Action) :
  In x STOCKS ->
  stockHistory s !! x = None ->
  server sys = s ->
  tick s = None /\ exec (Tick :: acts) sys = None.
Proof.
  intros Hx Hn Hs.
  assert (E : tick s = None) by (apply (tick_over_missing STOCKS s x Hx Hn)).
  split; [exact E|]. cbn [exec step]. rewrite Hs, E. reflexivity.
Qed.

Lemma cents_of_cents (n : N) : cents (Z.of_N n # 100) = n.
Proof.
  unfold cents.
  assert (Hn : (0 <= Z.of_N n # 100)%Q) by (unfold Qle; simpl; lia).
  rewrite (Qabs_pos _ Hn).
  assert (E : Qfloor ((Z.of_N n # 100) * 100 + (1 # 2)) = Z.of_N n).
  { unfold Qfloor, Qplus, Qmult. cbn [Qnum Qden].
    change (Z.pos (100 * 1 * 2)) with 200%Z. change (Z.pos (100 * 1)) with 100%Z.
    symmetry. apply (Z.div_unique _ _ _ 100); lia. }
  rewrite E. apply N2Z.id.
Qed.

Lemma render_read_back (n : N) :
  parseFloat (render_cents n) = Num (Z.of_N n # 100) /\
  toFixed2 (parseFloat (render_cents n)) = render_cents n.
Proof.
  assert (E : parseFloat (render_cents n) = Num (Z.of_N n # 100))
    by (apply (parseFloat_render false n)).
  split; [exact E|]. rewrite E, toFixed2_nonneg, cents_of_cents; [reflexivity|].
  unfold Qle; simpl; lia.
Qed.

Lemma printed_init : random_in_range -> printed init.
Proof.
  intros Hrand x Hx. destruct (assoc_catalog x Hx) as (b & Hxb & Hb).
  destruct (assoc_Some_catalog x b Hxb) as (_ & Hbase & _).
  destruct (init_at x Hx) as (j & s0 & _ & _ & Hp & _).
  rewrite Hbase in Hp.
  assert (Hbb : near b b) by (unfold near; split; lra).
  destruct (seed_loop_points 100 b b [] s0 Hrand Hbb) as (t' & new & E & [Hn1 Hn2] & _).
  rewrite E in Hp. cbn [fst] in Hp. exists (cents t'). rewrite Hp.
  f_equal. apply toFixed2_nonneg. lra.
Qed.

Lemma printed_tick (s : Server) :
  random_in_range -> full s -> in_band s ->
  exists s', tick s = Some s' /\ printed s'.
Proof.
  intros Hrand Hfull Hband.
  destruct (tick_all s) as (s' & E & Hin & _).
  { intros x Hx. destruct (Hfull x Hx) as (h & Hh & _). eauto. }
  exists s'. split; [exact E|].
  intros x Hx. destruct (assoc_catalog x Hx) as (b & Hxb & Hb).
  destruct (assoc_Some_catalog x b Hxb) as (_ & Hbase & _).
  destruct (Hfull x Hx) as (h & Hh & _).
  destruct (Hin x h Hx Hh) as (k & dp & Hp & Hc & _).
  destruct (Hband x b Hxb) as (c & Ec & Hl & Hu).
  destruct (Hrand k) as [H0 H1].
  destruct (next_price_band c b (Math_random k) Hb Hl Hu H0 H1) as (y & Ey & Hyl & Hyu).
  rewrite Ec, Hbase, Ey in Hp.
  exists (cents y). rewrite Hc, Hp. f_equal. apply toFixed2_nonneg. lra.
Qed.

(** X8. With draws in [[0, 1)], after start-up and any sequence of
    messages, answers and timer firings, the current price of a catalog
    symbol is a string of digits, a point and two digits; [parseFloat]
    reads it as that number of cents, and [toFixed(2)] of what was read is
    the same string again. *)
Theorem price_two_decimals (acts : list Action) (db : Db) (x : string) :
  random_in_range ->
  In x STOCKS ->
  exists sys' p n,
    exec acts {| server := init; database := db; pending := [] |} = Some sys' /\
    currentPrices (server sys') !! x = Some p /\
    p = render_cents n /\
    parseFloat p = Num (Z.of_N n # 100) /\
    toFixed2 (parseFloat p) = p.
Proof.
  intros Hrand Hx.
  assert (Htab : forall s s', stockHistory s' = stockHistory s ->
            currentPrices s' = currentPrices s ->
            full s /\ in_band s /\ printed s -> full s' /\ in_band s' /\ printed s').
  { intros s s' Hh Hc (Hf & Hb & Hp). split; [|split].
    - intros y Hy. rewrite Hh. apply Hf. exact Hy.
    - intros y b Hyb. rewrite Hc. apply Hb. exact Hyb.
    - intros y Hy. rewrite Hc. apply Hp. exact Hy. }
  assert (Htick : forall s, full s /\ in_band s /\ printed s ->
            exists s', tick s = Some s' /\ full s' /\ in_band s' /\ printed s').
  { intros s (Hf & Hb & _).
    destruct (in_band_tick s Hrand Hf Hb) as (s1 & E1 & Hf1 & Hb1).
    destruct (printed_tick s Hrand Hf Hb) as (s2 & E2 & Hp2).
    assert (s2 = s1) by congruence. subst s2. exists s1. auto. }
  destruct (exec_invariant (fun s => full s /\ in_band s /\ printed s) Htab Htick acts
              {| server := init; database := db; pending := [] |}
              (conj init_full (conj (in_band_init Hrand) (printed_init Hrand))))
    as (sys' & E & _ & _ & Hp).
  destruct (Hp x Hx) as (n & Hn). destruct (render_read_back n) as [R1 R2].
  exists sys', (render_cents n), n. auto.
Qed.

Local Transparent seed_loop.

Lemma seed_loop_codes (i : nat) (b : number) st :
  Forall (fun pt => code pt = None) (snd (fst st)) ->
  Forall (fun pt => code pt = None) (snd (fst (seed_loop i b st))).
Proof.
  revert st. induction i as [|j IH]; intros [[t h] s] Hh; cbn [seed_loop]; [exact Hh|].
  apply IH. unfold seed_step. cbn [fst snd] in *.
  apply Forall_app. split; [exact Hh|]. constructor; [reflexivity | constructor].
Qed.

Local Opaque seed_loop.

(** X10. After start-up and [n] firings of the timer the buffer of a
    catalog symbol has 100 points; the first [100 - n] are seeded points,
    which carry no [code], the others are points of the update loop, which
    carry the symbol.  From the 100th firing on every point carries it. *)
Theorem history_codes (n : nat) (x : string) :
  In x STOCKS ->
  exists s' h,
    ticks n init = Some s' /\
    stockHistory s' !! x = Some h /\
    length h = 100 /\
    forall k pt, h !! k = Some pt ->
      code pt = if (k + n <? 100)%nat then None else Some x.
Proof.
  intros Hx.
  destruct (ticks_window n init init_full) as (s' & E & Hfull & Hw).
  destruct (init_at x Hx) as (j & s0 & _ & _ & _ & Hh0).
  destruct (Hw x _ Hx Hh0) as (added & Hlen & Hcodes & Hh).
  destruct (Hfull x Hx) as (h & Hh' & Hl).
  exists s', h. split; [exact E|]. split; [exact Hh'|]. split; [exact Hl|].
  assert (Eh : h = drop n (snd (fst (seed_loop 100 (base_price x) (base_price x, [], s0)))
                              ++ added)) by congruence.
  assert (Hnone : Forall (fun pt => code pt = None)
                    (snd (fst (seed_loop 100 (base_price x) (base_price x, [], s0)))))
    by (apply seed_loop_codes; constructor).
  assert (Hl0 : length (snd (fst (seed_loop 100 (base_price x) (base_price x, [], s0))))
                = 100) by (rewrite seed_loop_length; reflexivity).
  generalize dependent (snd (fst (seed_loop 100 (base_price x) (base_price x, [], s0)))).
  intros h0 _ _ Eh Hnone Hl0 k pt Hk. subst h.
  rewrite lookup_drop in Hk.
  destruct (k + n <? 100)%nat eqn:Ek.
  - apply Nat.ltb_lt in Ek. rewrite lookup_app_l in Hk by lia.
    rewrite Forall_forall in Hnone. apply Hnone.
    eapply list_elem_of_lookup_2. exact Hk.
  - apply Nat.ltb_ge in Ek. rewrite lookup_app_r in Hk by lia.
    rewrite Forall_forall in Hcodes. apply Hcodes.
    eapply list_elem_of_lookup_2. exact Hk.
Qed.

End MoreEngineFacts.

(** ** More about the handlers *)

Section MoreHandlerFacts.
Context `{Environment}.

Lemma restored_fold (sock : SocketId) (subs : list CleanSub) (s : Server) :
  (forall room c, (room, c) ∈ rooms (fold_left (restored sock) subs s) <->
     (room, c) ∈ rooms s \/ (c = sock /\ In room (map clean_symbol subs))) /\
  outbox (fold_left (restored sock) subs s) = outbox s ++ histories sock s subs /\
  userEmail (fold_left (restored sock) subs s) = userEmail s /\
  currentPrices (fold_left (restored sock) subs s) = currentPrices s /\
  stockHistory (fold_left (restored sock) subs s) = stockHistory s /\
  console (fold_left (restored sock) subs s) = console s.
Proof.
  revert s. induction subs as [|cs subs IH]; intros s.
  - cbn [fold_left map histories]. rewrite app_nil_r.
    repeat split; try reflexivity; [tauto | intros [?|[_ []]]; assumption].
  - rewrite fold_left_step.
    destruct (IH (restored sock s cs)) as (R & O & U & C & Hh & K).
    split; [|split; [|repeat split]].
    + intros room c. rewrite R. unfold restored.
      cbn [rooms send set_rooms map In].
      rewrite elem_of_union, elem_of_singleton. split.
      * intros [[E|Hr]|[-> Hin]]; [|tauto|tauto].
        injection E as -> ->. right. split; [reflexivity | left; reflexivity].
      * intros [Hr|[-> [<-|Hin]]]; [tauto| |tauto]. left. left. reflexivity.
    + rewrite O. unfold histories. cbn [map].
      assert (E : stockHistory (restored sock s cs) = stockHistory s) by reflexivity.
      rewrite E. unfold restored. cbn [outbox send set_rooms stockHistory].
      rewrite <- app_assoc. reflexivity.
    + rewrite U. reflexivity.
    + rewrite C. reflexivity.
    + rewrite Hh. reflexivity.
    + rewrite K. reflexivity.
Qed.

(** X16. A [login] that goes through sets the session of the socket to
    the email of the account, adds the socket to the room of every
    reconciled subscription and takes it out of none, and writes, in this
    order, one [loadHistory] per reconciled subscription, with the history
    of its symbol, then the [loginSuccess].  Prices and histories are as
    before. *)
Theorem login_restores_rooms (sock : SocketId) (e p : string) (user : User)
    (s : Server) (db : Db) :
  db !! e = Some user ->
  bcrypt_compare p (password user) = true ->
  exists s',
    run (login sock e p) [] s db = (tt, s', db) /\
    userEmail s' = <[sock := email user]> (userEmail s) /\
    (forall room c, (room, c) ∈ rooms s' <->
       (room, c) ∈ rooms s \/
       (c = sock /\
        In room (map clean_symbol (cleanSubs (currentPrices s) (subscriptions user))))) /\
    outbox s'
      = outbox s
        ++ histories sock s (cleanSubs (currentPrices s) (subscriptions user))
        ++ [ (sock, loginSuccess (name user) (email user)
                      (cleanSubs (currentPrices s) (subscriptions user)) STOCKS) ] /\
    currentPrices s' = currentPrices s /\ stockHistory s' = stockHistory s.
Proof.
  intros Hu Hp. eexists. split; [apply (login_success sock e p user s db Hu Hp)|].
  destruct (restored_fold sock (cleanSubs (currentPrices s) (subscriptions user))
              (set_userEmail sock (email user) s)) as (R & O & U & C & Hh & _).
  cbn [userEmail rooms outbox currentPrices stockHistory send].
  split; [exact U|]. split; [exact R|].
  split; [rewrite O, <- app_assoc; reflexivity|]. split; [exact C | exact Hh].
Qed.

(** X15. A [login] that does not go through (the lookup is rejected, there
    is no such account, bcrypt is rejected or refuses the password) writes
    exactly one [authError] to the socket, sets no session, joins no room
    and leaves the store alone.  The message tells the cases apart, and
    the console gets its line exactly in the two cases that end in the
    [catch]. *)
Theorem login_rejected (sock : SocketId) (e p : string) (s : Server) (db : Db)
    (fails : list bool) :
  hd false fails = true \/
  match db !! e with
  | None => True
  | Some user => hd false (tl fails) = true \/ bcrypt_compare p (password user) = false
  end ->
  exists s' msg,
    run (login sock e p) fails s db = (tt, s', db) /\
    outbox s' = outbox s ++ [ (sock, authError msg) ] /\
    rooms s' = rooms s /\ userEmail s' = userEmail s /\
    msg = (if hd false fails then "Login failed."
           else match db !! e with
                | None => "User not found."
                | Some _ => if hd false (tl fails) then "Login failed."
                            else "Invalid password."
                end) /\
    (msg = "Login failed." <-> console s' = console s ++ [ "Error" ]) /\
    (msg <> "Login failed." <-> console s' = console s).
Proof.
  assert (Hne : forall l : list string, l ++ ["Error"] <> l).
  { intros l E. apply (f_equal (@length string)) in E. rewrite length_app in E.
    cbn in E. lia. }
  intros Hbad. unfold login, login_failed.
  cbn [run bind await perform]. destruct (hd false fails).
  { cbn [run bind do apply_effect]. eexists; eexists. split; [reflexivity|].
    cbn [outbox rooms userEmail console send write_console].
    split; [reflexivity|]. split; [reflexivity|]. split; [reflexivity|].
    split; [reflexivity|]. split; [tauto|]. split; [congruence|].
    intros E0. apply Hne in E0. destruct E0. }
  destruct Hbad as [Hbad|Hbad]; [discriminate Hbad|].
  destruct (db !! e) as [user|].
  2:{ cbn [run bind do apply_effect]. eexists; eexists. split; [reflexivity|].
      cbn [outbox rooms userEmail console send write_console].
      split; [reflexivity|]. split; [reflexivity|]. split; [reflexivity|].
      split; [reflexivity|]. split; [|split; [reflexivity | discriminate]].
      split; [discriminate|]. intros E. symmetry in E. apply Hne in E. destruct E. }
  cbn [run bind await perform]. destruct (hd false (tl fails)).
  { cbn [run bind do apply_effect]. eexists; eexists. split; [reflexivity|].
    cbn [outbox rooms userEmail console send write_console].
    split; [reflexivity|]. split; [reflexivity|]. split; [reflexivity|].
    split; [reflexivity|]. split; [tauto|]. split; [congruence|].
    intros E0. apply Hne in E0. destruct E0. }
  destruct Hbad as [Hbad|Hbad]; [discriminate Hbad|]. rewrite Hbad.
  cbn [run bind do apply_effect]. eexists; eexists. split; [reflexivity|].
  cbn [outbox rooms userEmail console send write_console].
  split; [reflexivity|]. split; [reflexivity|]. split; [reflexivity|].
  split; [reflexivity|]. split; [|split; [reflexivity | discriminate]].
  split; [discriminate|]. intros E. symmetry in E. apply Hne in E. destruct E.
Qed.

Lemma foreign_bind {A B : Type} (c : SocketId) (p : Prog A) (f : A -> Prog B) :
  foreign c p -> (forall a, foreign c (f a)) -> foreign c (bind p f).
Proof.
  intros Hp Hf. induction Hp; cbn [bind]; [apply Hf | constructor; auto ..].
Qed.

Lemma foreign_forEach {A : Type} (c : SocketId) (l : list A) (f : A -> Prog unit) :
  (forall x, foreign c (f x)) -> foreign c (forEach l f).
Proof.
  intros Hf. induction l as [|x l IH]; cbn [forEach]; [constructor|].
  apply foreign_bind; [apply Hf | intros _; exact IH].
Qed.

Lemma foreign_do (c : SocketId) (e : Effect) :
  effect_socket e <> Some c -> foreign c (do e).
Proof. intros He. unfold do. constructor; [exact He | constructor]. Qed.

Lemma foreign_read {A : Type} (c : SocketId) (f : Server -> A) : foreign c (read f).
Proof. unfold read. constructor. intros s. constructor. Qed.

Lemma foreign_await {R : Type} (c : SocketId) (r : Request R) : foreign c (await r).
Proof. unfold await. constructor. intros x. constructor. Qed.

(** The handlers of a socket act on that socket only. *)
Lemma handler_foreign (c sock : SocketId) (m : Message) :
  sock <> c -> foreign c (handler sock m).
Proof.
  intros Hne.
  assert (Hs : forall x : SocketId, x = sock -> Some x <> Some c) by congruence.
  assert (Hd : forall e, effect_socket e = Some sock \/ effect_socket e = None ->
                         foreign c (do e)).
  { intros e [E|E]; apply foreign_do; rewrite E; congruence. }
  destruct m as [e p | code | code | stocks | code]; cbn [handler].
  - unfold login, login_failed.
    apply foreign_bind; [apply foreign_await|]. intros [[user|]|].
    + apply foreign_bind; [apply foreign_await|]. intros [[|]|].
      * apply foreign_bind; [apply Hd; left; reflexivity|]. intros _.
        apply foreign_bind; [apply foreign_read|]. intros prices.
        apply foreign_bind; [|intros _; apply Hd; left; reflexivity].
        apply foreign_forEach. intros x. unfold restore.
        apply foreign_bind; [apply Hd; left; reflexivity|]. intros _.
        apply foreign_bind; [apply foreign_read|]. intros h.
        apply Hd; left; reflexivity.
      * apply Hd; left; reflexivity.
      * apply foreign_bind; [apply Hd; right; reflexivity|]. intros _.
        apply Hd; left; reflexivity.
    + apply Hd; left; reflexivity.
    + apply foreign_bind; [apply Hd; right; reflexivity|]. intros _.
      apply Hd; left; reflexivity.
  - unfold subscribe. apply foreign_bind; [apply foreign_read|]. intros [me|].
    2:{ apply Hd; left; reflexivity. }
    destruct (negb (includes STOCKS code)); [constructor|].
    apply foreign_bind; [apply Hd; left; reflexivity|]. intros _.
    apply foreign_bind; [apply foreign_read|]. intros priceNow.
    apply foreign_bind; [apply Hd; right; reflexivity|]. intros _.
    apply foreign_bind; [apply foreign_read|]. intros e1.
    apply foreign_bind; [apply foreign_await|]. intros pulled.
    apply foreign_bind.
    + destruct pulled as [_|].
      * apply foreign_bind; [apply foreign_read|]. intros e2.
        apply foreign_bind; [apply foreign_await|]. intros [_|].
        -- constructor.
        -- apply Hd; right; reflexivity.
      * apply Hd; right; reflexivity.
    + intros _. apply foreign_bind; [apply foreign_read|]. intros h.
      apply Hd; left; reflexivity.
  - unfold unsubscribe. apply foreign_bind; [apply foreign_read|]. intros [me|].
    2:{ constructor. }
    apply foreign_bind; [apply Hd; left; reflexivity|]. intros _.
    apply foreign_bind; [apply Hd; right; reflexivity|]. intros _.
    apply foreign_bind; [apply foreign_read|]. intros e1.
    apply foreign_bind; [apply foreign_await|]. intros [_|].
    + constructor.
    + apply Hd; right; reflexivity.
  - unfold unsubscribeAll. apply foreign_bind; [apply foreign_read|]. intros [me|].
    2:{ constructor. }
    apply foreign_forEach. intros st. apply Hd; left; reflexivity.
  - unfold joinFeed. destruct (includes STOCKS code); [|constructor].
    apply Hd; left; reflexivity.
Qed.

Lemma written_to_app (c : SocketId) (l1 l2 : list (SocketId * Event)) :
  written_to c (l1 ++ l2) = written_to c l1 ++ written_to c l2.
Proof. unfold written_to. rewrite List.filter_app, map_app. reflexivity. Qed.

(** What the socket [c] can see of the memory: its rooms, its session and
    what was written to it. *)
Lemma apply_effect_foreign (c : SocketId) (e : Effect) (s : Server) :
  effect_socket e <> Some c ->
  (forall room, (room, c) ∈ rooms (apply_effect e s) <-> (room, c) ∈ rooms s) /\
  userEmail (apply_effect e s) !! c = userEmail s !! c /\
  written_to c (outbox (apply_effect e s)) = written_to c (outbox s).
Proof.
  intros He.
  destruct e as [sock room | sock room | sock ev | sock e | line | line];
    cbn [apply_effect effect_socket rooms userEmail outbox set_rooms send set_userEmail
         write_console] in *;
    (split; [|split]); try reflexivity; try tauto.
  - intros r. rewrite elem_of_union, elem_of_singleton. split; [|tauto].
    intros [E|Hr]; [|exact Hr]. injection E as _ E. congruence.
  - intros r. rewrite elem_of_difference, elem_of_singleton. split; [tauto|].
    intros Hr. split; [exact Hr|]. intros E. injection E as _ E. congruence.
  - rewrite written_to_app. unfold written_to at 2. cbn [List.filter fst].
    destruct (Nat.eqb sock c) eqn:E; [apply Nat.eqb_eq in E; congruence|].
    cbn [map]. apply app_nil_r.
  - apply lookup_insert_ne. congruence.
Qed.

Lemma advance_foreign {A : Type} (c : SocketId) (p : Prog A) (s : Server) :
  foreign c p ->
  (forall room, (room, c) ∈ rooms (fst (advance p s)) <-> (room, c) ∈ rooms s) /\
  userEmail (fst (advance p s)) !! c = userEmail s !! c /\
  written_to c (outbox (fst (advance p s))) = written_to c (outbox s) /\
  foreign c (snd (advance p s)).
Proof.
  intros Hp. revert s. induction Hp as [a | k Hk IH | e k He Hk IH | R r k Hk IH];
    intros s; cbn [advance fst snd].
  - repeat split; try tauto. constructor.
  - apply IH.
  - destruct (IH (apply_effect e s)) as (A1 & A2 & A3 & A4).
    destruct (apply_effect_foreign c e s He) as (B1 & B2 & B3).
    split; [intros room; rewrite A1; apply B1|].
    split; [congruence|]. split; [congruence | exact A4].
  - repeat split; try tauto. constructor. exact Hk.
Qed.

Lemma foreign_Await_inv {A R : Type} (c : SocketId) (r : Request R)
    (k : option R -> Prog A) :
  foreign c (Await r k) -> forall x, foreign c (k x).
Proof.
  intros Hp.
  change (match Await r k with
          | Await r0 k0 => forall x, foreign c (k0 x)
          | _ => True
          end).
  destruct Hp; auto.
Qed.

Lemma park_foreign (c : SocketId) (p : Prog unit) (l : list (Prog unit)) :
  foreign c p -> Forall (foreign c) l -> Forall (foreign c) (park p l).
Proof.
  intros Hp Hl. destruct p; cbn [park]; try exact Hl.
  apply Forall_app. split; [exact Hl|]. constructor; [exact Hp | constructor].
Qed.

Lemma written_to_deliveries (c : SocketId) (r : gset (string * SocketId))
    (dps : list DataPoint) :
  Forall (fun ev => is_priceUpdate ev = true)
         (written_to c (flat_map (deliveries r) dps)) /\
  ((forall room, (room, c) ∉ r) -> written_to c (flat_map (deliveries r) dps) = []).
Proof.
  split.
  - apply Forall_forall. intros ev Hev. apply list_elem_of_In in Hev.
    unfold written_to in Hev.
    apply in_map_iff in Hev as ([c0 ev0] & <- & Hin). apply filter_In in Hin as [Hin _].
    apply in_flat_map in Hin as (dp & _ & Hin).
    apply deliveries_spec in Hin as [-> _]. reflexivity.
  - intros Hno. destruct (written_to c (flat_map (deliveries r) dps)) as [|ev l] eqn:E;
      [reflexivity|].
    assert (Hev : In ev (written_to c (flat_map (deliveries r) dps)))
      by (rewrite E; left; reflexivity).
    unfold written_to in Hev.
    apply in_map_iff in Hev as ([c0 ev0] & _ & Hin). apply filter_In in Hin as [Hin Hc].
    cbn [fst] in Hc. apply Nat.eqb_eq in Hc. subst c0.
    apply in_flat_map in Hin as (dp & _ & Hin).
    apply deliveries_spec in Hin as [_ (room & _ & Hr)]. destruct (Hno room Hr).
Qed.

(** X17. Handlers act on their own socket only.  Through any sequence of
    turns in which the socket [c] sends nothing, started with every symbol
    having its history and nothing waiting that acts on [c]: the rooms of
    [c] and its session are as before, and all that was written to [c] in
    the meantime are [priceUpdate]s of the timer, none at all when [c] is
    in no room. *)
Theorem socket_isolation (c : SocketId) (acts : list Action) (sys : System) :
  full (server sys) ->
  Forall (foreign c) (pending sys) ->
  from_others c acts ->
  exists sys' updates,
    exec acts sys = Some sys' /\
    (forall room, (room, c) ∈ rooms (server sys') <-> (room, c) ∈ rooms (server sys)) /\
    userEmail (server sys') !! c = userEmail (server sys) !! c /\
    written_to c (outbox (server sys'))
      = written_to c (outbox (server sys)) ++ updates /\
    Forall (fun ev => is_priceUpdate ev = true) updates /\
    ((forall room, (room, c) ∉ rooms (server sys)) -> updates = []).
Proof.
  intros Hfull Hpend Hacts. revert sys Hfull Hpend.
  induction Hacts as [|a acts Ha _ IH]; intros sys Hfull Hpend.
  - exists sys, []. rewrite app_nil_r. repeat split; try tauto. constructor.
  - assert (Hstep : exists sys1 ups,
              step sys a = Some sys1 /\ full (server sys1) /\
              Forall (foreign c) (pending sys1) /\
              (forall room, (room, c) ∈ rooms (server sys1)
                            <-> (room, c) ∈ rooms (server sys)) /\
              userEmail (server sys1) !! c = userEmail (server sys) !! c /\
              written_to c (outbox (server sys1))
                = written_to c (outbox (server sys)) ++ ups /\
              Forall (fun ev => is_priceUpdate ev = true) ups /\
              ((forall room, (room, c) ∉ rooms (server sys)) -> ups = [])).
    { destruct a as [sock m | i fail | ]; cbn [step].
      - pose proof (handler_foreign c sock m Ha) as Hh.
        pose proof (advance_tables (handler sock m) (server sys)) as [Ht _].
        destruct (advance_foreign c (handler sock m) (server sys) Hh)
          as (A1 & A2 & A3 & A4).
        destruct (advance (handler sock m) (server sys)) as [s1 p1].
        cbn [fst snd] in *. eexists; exists []. split; [reflexivity|].
        cbn [server pending]. rewrite app_nil_r.
        split; [unfold full; rewrite Ht; exact Hfull|].
        split; [apply park_foreign; assumption|].
        split; [exact A1|]. split; [exact A2|]. split; [exact A3|].
        split; [constructor | reflexivity].
      - destruct (pending sys !! i) as [p|] eqn:Ei.
        2:{ exists sys, []. rewrite app_nil_r. split; [reflexivity|].
            repeat split; try assumption; try tauto. constructor. }
        assert (Hp : foreign c p).
        { rewrite Forall_forall in Hpend. apply Hpend.
          eapply list_elem_of_lookup_2. exact Ei. }
        destruct p as [a | k | e k | R r k];
          try (exists sys, []; rewrite app_nil_r; split; [reflexivity|];
               repeat split; try assumption; try tauto; constructor).
        assert (Hk : forall x, foreign c (k x)).
          by (apply (foreign_Await_inv c r k Hp)).
        destruct (perform fail r (database sys)) as [db reply].
        pose proof (advance_tables (k reply) (server sys)) as [Ht _].
        destruct (advance_foreign c (k reply) (server sys) (Hk reply))
          as (A1 & A2 & A3 & A4).
        destruct (advance (k reply) (server sys)) as [s1 p1].
        cbn [fst snd] in *. eexists; exists []. split; [reflexivity|].
        cbn [server pending]. rewrite app_nil_r.
        split; [unfold full; rewrite Ht; exact Hfull|].
        split.
        { apply park_foreign; [exact A4|]. apply Forall_forall. intros q Hq.
          rewrite Forall_forall in Hpend. apply Hpend.
          eapply elem_of_sublist; [exact Hq | apply sublist_delete]. }
        split; [exact A1|]. split; [exact A2|]. split; [exact A3|].
        split; [constructor | reflexivity].
      - destruct (tick_full (server sys) Hfull) as (s1 & E1 & Hfull1 & _).
        destruct (tick_over_spec STOCKS (server sys) NoDup_STOCKS) as
          (s2 & dps & E2 & _ & Hr & Ho & _).
        { intros x Hx. destruct (Hfull x Hx) as (h & -> & _). eauto. }
        fold (tick (server sys)) in E2.
        assert (s2 = s1) by congruence. subst s2.
        destruct (tick_over_frame STOCKS (server sys) s1 E2) as (_ & Hu & _).
        rewrite E1. eexists; eexists. split; [reflexivity|]. cbn [server pending].
        split; [exact Hfull1|]. split; [exact Hpend|].
        split; [intros room; rewrite Hr; reflexivity|].
        split; [rewrite Hu; reflexivity|].
        split; [rewrite Ho; apply written_to_app|].
        apply written_to_deliveries. }
    destruct Hstep as (sys1 & ups1 & E1 & Hfull1 & Hpend1 & R1 & U1 & W1 & P1 & N1).
    destruct (IH sys1 Hfull1 Hpend1) as (sys' & ups & E & R & U & W & P & N).
    exists sys', (ups1 ++ ups). cbn [exec]. rewrite E1.
    split; [exact E|].
    split; [intros room; rewrite R; apply R1|].
    split; [congruence|].
    split; [rewrite W, W1, app_assoc; reflexivity|].
    split; [apply Forall_app; split; assumption|].
    intros Hno. rewrite (N1 Hno), N; [reflexivity|].
    intros room Hr. apply R1 in Hr. exact (Hno room Hr).
Qed.

Lemma cleanSubs_symbols (prices : gmap string string) (subs : list (option Sub)) :
  map clean_symbol (cleanSubs prices subs) = map fst (omap in_catalog subs).
Proof.
  rewrite cleanSubs_eq, map_map. apply map_ext. intros p. reflexivity.
Qed.

Lemma run_forEach_leave (sock : SocketId) (stocks : list string)
    (fails : list bool) (s : Server) (db : Db) :
  run (forEach stocks (fun st => do (Leave sock st))) fails s db
    = (tt, fold_left (fun s st => apply_effect (Leave sock st) s) stocks s, db) /\
  advance (forEach stocks (fun st => do (Leave sock st))) s
    = (fold_left (fun s st => apply_effect (Leave sock st) s) stocks s, Ret tt).
Proof.
  revert s. induction stocks as [|st stocks IH]; intros s.
  - split; reflexivity.
  - cbn [forEach bind do run advance fold_left]. apply IH.
Qed.

Lemma leave_fold (sock : SocketId) (stocks : list string) (s : Server) :
  (forall room c,
     (room, c) ∈ rooms (fold_left (fun s st => apply_effect (Leave sock st) s) stocks s)
     <-> (room, c) ∈ rooms s /\ ~ (c = sock /\ In room stocks)) /\
  outbox (fold_left (fun s st => apply_effect (Leave sock st) s) stocks s) = outbox s /\
  userEmail (fold_left (fun s st => apply_effect (Leave sock st) s) stocks s)
    = userEmail s /\
  console (fold_left (fun s st => apply_effect (Leave sock st) s) stocks s) = console s.
Proof.
  revert s. induction stocks as [|st stocks IH]; intros s.
  - cbn [fold_left In]. repeat split; try tauto.
  - rewrite fold_left_step.
    destruct (IH (apply_effect (Leave sock st) s)) as (R & O & U & K).
    split; [|split; [exact O | split; [exact U | exact K]]].
    intros room c. rewrite R. cbn [apply_effect rooms set_rooms In].
    rewrite elem_of_difference, elem_of_singleton. split.
    + intros [[Hr Hne] Hn]. split; [exact Hr|]. intros [-> [<-|Hin]]; [|tauto].
      apply Hne. reflexivity.
    + intros [Hr Hn]. split; [split; [exact Hr|]|tauto].
      intros E. injection E as -> ->. apply Hn. split; [reflexivity | left; reflexivity].
Qed.

(** X18. With a session, [unsubscribeAll] takes the socket out of the
    rooms listed, of no other room and no other socket out of any, in one
    stretch, without a request to the store and without writing to the
    socket.  The persisted subscriptions are as before: a later [login] to
    the account puts the socket back into the room of every persisted
    catalog subscription. *)
Theorem unsubscribeAll_not_persisted (sock : SocketId) (stocks : list string)
    (me : string) (s : Server) (db : Db) (fails : list bool) :
  session sock s = Some me ->
  exists s',
    run (unsubscribeAll sock stocks) fails s db = (tt, s', db) /\
    advance (unsubscribeAll sock stocks) s = (s', Ret tt) /\
    (forall room c, (room, c) ∈ rooms s' <->
       (room, c) ∈ rooms s /\ ~ (c = sock /\ In room stocks)) /\
    outbox s' = outbox s /\ userEmail s' = userEmail s /\
    (forall e p user sub sym stored,
       db !! e = Some user ->
       bcrypt_compare p (password user) = true ->
       In sub (subscriptions user) ->
       in_catalog sub = Some (sym, stored) ->
       exists s'', run (login sock e p) [] s' db = (tt, s'', db) /\
                   (sym, sock) ∈ rooms s'').
Proof.
  intros Hs. unfold unsubscribeAll. cbn [run advance bind read]. rewrite Hs.
  destruct (run_forEach_leave sock stocks fails s db) as [Er Ea].
  destruct (leave_fold sock stocks s) as (R & O & U & _).
  eexists. split; [exact Er|]. split; [exact Ea|]. split; [exact R|].
  split; [exact O|]. split; [exact U|].
  intros e p user sub sym stored Hu Hp Hin Hcat.
  eexists. split; [apply (login_success sock e p user _ db Hu Hp)|].
  cbn [rooms send].
  destruct (restored_fold sock
              (cleanSubs (currentPrices (fold_left (fun s st => apply_effect (Leave sock st) s)
                                           stocks s)) (subscriptions user))
              (set_userEmail sock (email user)
                 (fold_left (fun s st => apply_effect (Leave sock st) s) stocks s)))
    as (R2 & _).
  apply R2. right. split; [reflexivity|]. rewrite cleanSubs_symbols.
  apply in_map_iff. exists (sym, stored). split; [reflexivity|].
  apply list_elem_of_In. apply list_elem_of_omap. exists sub.
  split; [apply list_elem_of_In; exact Hin | exact Hcat].
Qed.

(** X19. [joinFeed] asks for no session.  For a catalog symbol it puts
    the socket into the room, so that the next firing of the timer writes a
    [priceUpdate] of that symbol to the socket; for any other symbol it
    does nothing.  It never writes to the socket nor sets a session. *)
Theorem joinFeed_without_session (sock : SocketId) (stockCode : string) (s : Server) :
  full s ->
  exists s1,
    advance (joinFeed sock stockCode) s = (s1, Ret tt) /\
    userEmail s1 = userEmail s /\ outbox s1 = outbox s /\
    (In stockCode STOCKS ->
       (stockCode, sock) ∈ rooms s1 /\
       exists s2 dp, tick s1 = Some s2 /\ code dp = Some stockCode /\
                     In (sock, priceUpdate dp) (outbox s2)) /\
    (~ In stockCode STOCKS -> s1 = s).
Proof.
  intros Hfull. unfold joinFeed.
  destruct (includes STOCKS stockCode) eqn:E.
  - apply includes_In in E. cbn [advance do apply_effect].
    eexists. split; [reflexivity|]. split; [reflexivity|]. split; [reflexivity|].
    split; [|intros Hn; contradiction].
    intros _. cbn [rooms set_rooms].
    assert (Hin : (stockCode, sock) ∈ {[ (stockCode, sock) ]} ∪ rooms s)
      by (apply elem_of_union_l, elem_of_singleton; reflexivity).
    split; [exact Hin|].
    destruct (tick_over_spec STOCKS (set_rooms ({[ (stockCode, sock) ]} ∪ rooms s) s)
                NoDup_STOCKS) as (s2 & dps & E2 & Hc & _ & Ho & _).
    { intros x Hx. destruct (Hfull x Hx) as (h & Hh & _).
      cbn [stockHistory set_rooms]. rewrite Hh. eauto. }
    assert (Hdp : exists dp, In dp dps /\ code dp = Some stockCode).
    { assert (Hm : In (Some stockCode) (map code dps))
        by (rewrite Hc; apply in_map; exact E).
      apply in_map_iff in Hm as (dp & Hcd & Hdp). eauto. }
    destruct Hdp as (dp & Hdp & Hcd).
    exists s2, dp. split; [exact E2|]. split; [exact Hcd|].
    rewrite Ho. apply in_or_app. right. apply in_flat_map. exists dp.
    split; [exact Hdp|]. apply deliveries_spec. split; [reflexivity|].
    exists stockCode. split; [exact Hcd | exact Hin].
  - cbn [advance]. exists s.
    split; [reflexivity|]. split; [reflexivity|]. split; [reflexivity|].
    split; [|reflexivity]. intros Hin. apply includes_In in Hin. congruence.
Qed.

Lemma cleanSubs_pulled (prices : gmap string string) (sym : string)
    (subs : list (option Sub)) :
  cleanSubs prices (List.filter (fun x => negb (has_symbol sym x)) subs)
  = List.filter (fun cs => negb (String.eqb (clean_symbol cs) sym)) (cleanSubs prices subs).
Proof.
  rewrite !cleanSubs_eq. induction subs as [|sub subs IH]; [reflexivity|].
  assert (Ho : forall l, omap in_catalog (sub :: l)
               = match in_catalog sub with
                 | Some p => p :: omap in_catalog l
                 | None => omap in_catalog l
                 end) by reflexivity.
  cbn [List.filter]. destruct (has_symbol sym sub) eqn:Eh; cbn [negb].
  - rewrite IH, Ho.
    destruct (in_catalog sub) as [[x stored]|] eqn:Ec; [|reflexivity].
    apply in_catalog_In in Ec as [_ ->]. cbn [has_symbol] in Eh.
    cbn [map List.filter heal clean_symbol fst]. rewrite Eh. reflexivity.
  - rewrite !Ho.
    destruct (in_catalog sub) as [[x stored]|] eqn:Ec; [|exact IH].
    apply in_catalog_In in Ec as [_ ->]. cbn [has_symbol] in Eh.
    cbn [map List.filter heal clean_symbol fst]. rewrite Eh. cbn [negb].
    rewrite IH. reflexivity.
Qed.

(** X20. With the session of an existing account and a store that
    answers, [unsubscribe] removes every persisted subscription for the
    symbol, duplicates included, and keeps the others, the name, the email
    and the password; other accounts are as before.  So the reconciled list
    of a later login is the one it would have been, without the entries for
    the symbol. *)
Theorem unsubscribe_then_login (sock : SocketId) (stockCode me : string) (user : User)
    (s : Server) (db : Db) :
  session sock s = Some me ->
  db !! me = Some user ->
  exists s' db' user',
    run (unsubscribe sock stockCode) [] s db = (tt, s', db') /\
    db' !! me = Some user' /\
    name user' = name user /\ email user' = email user /\
    password user' = password user /\
    List.filter (has_symbol stockCode) (subscriptions user') = [] /\
    List.filter (fun x => negb (has_symbol stockCode x)) (subscriptions user')
      = List.filter (fun x => negb (has_symbol stockCode x)) (subscriptions user) /\
    (forall e, e <> me -> db' !! e = db !! e) /\
    (forall prices,
       cleanSubs prices (subscriptions user')
       = List.filter (fun cs => negb (String.eqb (clean_symbol cs) stockCode))
           (cleanSubs prices (subscriptions user))) /\
    (forall prices cs, In cs (cleanSubs prices (subscriptions user')) ->
       clean_symbol cs <> stockCode).
Proof.
  intros Hs Hu. pose proof (session_userEmail sock s me Hs) as He.
  unfold unsubscribe. cbn [run bind read do await]. rewrite Hs.
  cbn [run bind read do await apply_effect userEmail set_rooms write_console].
  rewrite He. cbn [perform update_user hd run].
  eexists; exists (alter (pull stockCode) me db), (pull stockCode user).
  split; [reflexivity|].
  split; [rewrite lookup_alter_eq, Hu; reflexivity|].
  split; [reflexivity|]. split; [reflexivity|]. split; [reflexivity|].
  cbn [pull subscriptions].
  split; [apply filter_pulled|]. split; [apply filter_kept|].
  split; [intros e Hne; apply lookup_alter_ne; congruence|].
  split; [intros prices; apply cleanSubs_pulled|].
  intros prices cs Hin. rewrite cleanSubs_pulled in Hin.
  apply filter_In in Hin as [_ Hne]. intros E. rewrite E, String.eqb_refl in Hne.
  discriminate Hne.
Qed.

Lemma full_set_userEmail (sock : SocketId) (e : string) (s : Server) :
  full s -> full (set_userEmail sock e s).
Proof. intros Hfull x Hx. exact (Hfull x Hx). Qed.

(** The three stretches of [subscribe] when the store accepts both
    updates. *)
Lemma subscribe_stretches (sock : SocketId) (stockCode me : string) (s : Server) :
  session sock s = Some me ->
  In stockCode STOCKS ->
  exists s1 k,
    advance (subscribe sock stockCode) s
      = (s1, Await (UpdateOne (Some me) (Pull stockCode)) k) /\
    userEmail s1 = userEmail s /\
    stockHistory s1 = stockHistory s /\
    (forall s2, exists k2,
       advance (k (Some tt)) s2
         = (s2, Await (UpdateOne (userEmail s2 !! sock)
                         (Push stockCode (parseFloat_opt (currentPrices s !! stockCode)))) k2) /\
       forall s3,
         advance (k2 (Some tt)) s3
         = (send [ (sock, loadHistory stockCode (stockHistory s3 !! stockCode)) ] s3,
            Ret tt)).
Proof.
  intros Hs Hin. pose proof (session_userEmail sock s me Hs) as He.
  unfold subscribe. cbn [advance bind read do await]. rewrite Hs.
  rewrite (includes_catalog stockCode Hin). cbn [negb].
  cbn [advance bind read do await apply_effect userEmail set_rooms write_console
       currentPrices].
  rewrite He. eexists; eexists. split; [reflexivity|].
  split; [reflexivity|]. split; [reflexivity|].
  intros s2. eexists. cbn [advance bind read do await apply_effect].
  split; [reflexivity|]. intros s3. reflexivity.
Qed.

Lemma exec_ticks (n : nat) (rest : list Action) (sys : System) :
  full (server sys) ->
  exists s',
    full s' /\ userEmail s' = userEmail (server sys) /\
    exec (repeat Tick n ++ rest) sys
    = exec rest {| server := s'; database := database sys; pending := pending sys |}.
Proof.
  revert sys. induction n as [|n IH]; intros sys Hfull.
  - exists (server sys). split; [exact Hfull|]. split; [reflexivity|].
    destruct sys; reflexivity.
  - destruct (tick_full (server sys) Hfull) as (s1 & E1 & Hfull1 & _).
    destruct (tick_over_frame STOCKS (server sys) s1 E1) as (_ & Hu & _).
    destruct (IH {| server := s1; database := database sys; pending := pending sys |}
                Hfull1) as (s' & Hfull' & Hu' & E).
    exists s'. split; [exact Hfull'|]. split; [cbn [server] in Hu'; congruence|].
    cbn [repeat app exec step]. rewrite E1. exact E.
Qed.

(** X21. The entry price is read when [subscribe] is called, not when it
    is written.  With a session of an existing account and a catalog symbol
    whose price reads as [q]: however often the timer fires while the
    handler waits for the [$pull] and for the [$push], the account ends with
    exactly one subscription for the symbol, at entry price [q], the others
    kept; the last event written is the [loadHistory] with the history as
    it is when the handler ends. *)
Theorem subscribe_price_at_call (sock : SocketId) (stockCode me : string) (user : User)
    (q : Q) (n m : nat) (s : Server) (db : Db) :
  full s ->
  session sock s = Some me ->
  In stockCode STOCKS ->
  db !! me = Some user ->
  parseFloat_opt (currentPrices s !! stockCode) = Num q ->
  exists sys' user',
    exec (Receive sock (subscribe_msg stockCode)
          :: repeat Tick n ++ Resume 0 false :: repeat Tick m ++ [Resume 0 false])
         {| server := s; database := db; pending := [] |} = Some sys' /\
    pending sys' = [] /\
    database sys' !! me = Some user' /\
    List.filter (has_symbol stockCode) (subscriptions user')
      = [ Some {| symbol := Some stockCode; entryPrice := Some q |} ] /\
    List.filter (fun x => negb (has_symbol stockCode x)) (subscriptions user')
      = List.filter (fun x => negb (has_symbol stockCode x)) (subscriptions user) /\
    last (outbox (server sys'))
      = Some (sock, loadHistory stockCode (stockHistory (server sys') !! stockCode)).
Proof.
  intros Hfull Hs Hin Hu Hq. pose proof (session_userEmail sock s me Hs) as He.
  destruct (subscribe_stretches sock stockCode me s Hs Hin)
    as (s1 & k & Ea & Hu1 & Hh1 & Hk).
  cbn [exec step handler server database pending]. rewrite Ea. cbn [park app].
  assert (Hfull1 : full s1) by (unfold full; rewrite Hh1; exact Hfull).
  destruct (exec_ticks n (Resume 0 false :: repeat Tick m ++ [Resume 0 false])
              {| server := s1; database := db;
                 pending := [Await (UpdateOne (Some me) (Pull stockCode)) k] |} Hfull1)
    as (s2 & Hfull2 & Hu2 & ->).
  cbn [server database pending] in *.
  cbn [exec]. rewrite step_resume_alone. cbn [perform update_user fst snd].
  destruct (Hk s2) as (k2 & Ek & Hk2). rewrite Ek. cbn [fst snd park app].
  destruct (exec_ticks m [Resume 0 false]
              {| server := s2; database := alter (pull stockCode) me db;
                 pending := [Await (UpdateOne (userEmail s2 !! sock)
                                      (Push stockCode
                                         (parseFloat_opt (currentPrices s !! stockCode)))) k2] |}
              Hfull2)
    as (s3 & Hfull3 & Hu3 & ->).
  cbn [server database pending] in *.
  cbn [exec]. rewrite step_resume_alone.
  rewrite Hu2, Hu1, He, Hq. cbn [perform update_user fst snd].
  rewrite Hk2. cbn [fst snd park].
  eexists; eexists. split; [reflexivity|]. cbn [pending database server].
  split; [reflexivity|].
  split; [rewrite !lookup_alter_eq, Hu; reflexivity|].
  cbn [push pull subscriptions outbox send stockHistory].
  split.
  { rewrite List.filter_app, filter_pulled. cbn [List.filter has_symbol].
    rewrite String.eqb_refl. reflexivity. }
  split.
  { rewrite List.filter_app. cbn [List.filter has_symbol]. rewrite String.eqb_refl.
    cbn [negb]. rewrite app_nil_r. apply filter_kept. }
  apply last_snoc.
Qed.

End MoreHandlerFacts.

(** ** The theorems at work on the concrete run *)

(** The floor at work: GOOG at 5.00 moves to a price of at least 10.00. *)
Lemma tick_price_floor_witness :
  In "GOOG" STOCKS /\ currentPrices low_server !! "GOOG" = Some "5.00" /\
  parseFloat "5.00" = Num (500 # 100)%Q /\ stockHistory low_server !! "GOOG" = Some [] /\
  exists s' n, @tick_stock demo_env low_server "GOOG" = Some s' /\
    currentPrices s' !! "GOOG" = Some (render_cents n) /\ (1000 <= n)%N.
Proof.
  assert (H1 : In "GOOG" STOCKS) by (left; reflexivity).
  assert (H2 : currentPrices low_server !! "GOOG" = Some "5.00") by (vm_compute; reflexivity).
  assert (H3 : parseFloat "5.00" = Num (500 # 100)%Q) by (vm_compute; reflexivity).
  assert (H4 : stockHistory low_server !! "GOOG" = Some []) by (vm_compute; reflexivity).
  split; [exact H1|]. split; [exact H2|]. split; [exact H3|]. split; [exact H4|].
  destruct (@tick_price_floor demo_env low_server "GOOG" "5.00" (500 # 100)%Q [] H1 H2 H3 H4)
    as (s' & n & A & B & _ & C & _).
  exists s', n. auto.
Defined.

(** The warm-up of NVDA in the concrete environment. *)
Lemma seeding_warm_up_witness :
  @random_in_range demo_env /\ In "NVDA" STOCKS /\
  exists n h, currentPrices (@init demo_env) !! "NVDA" = Some (render_cents n) /\
     (1000 <= n)%N /\ stockHistory (@init demo_env) !! "NVDA" = Some h /\ length h = 100.
Proof.
  assert (H1 : @random_in_range demo_env).
  { intros n. cbn [Math_random demo_env]. unfold Qle, Qlt. cbn [Qnum Qden].
    pose proof (Nat.mod_upper_bound n 4 ltac:(discriminate)). lia. }
  assert (H2 : In "NVDA" STOCKS) by (vm_compute; tauto).
  split; [exact H1|]. split; [exact H2|].
  destruct (@seeding_warm_up demo_env "NVDA" H1 H2) as (n & h & j & A & B & C & D & _).
  exists n, h. auto.
Defined.

(** Three firings after start-up: the buffer of TSLA is the seeded history
    without its first three points, followed by the three points made. *)
Lemma history_window_witness :
  In "TSLA" STOCKS /\
  exists j h0 s',
    STOCKS !! j = Some "TSLA" /\
    stockHistory (@init demo_env) !! "TSLA" = Some h0 /\
    @ticks demo_env 3 (@init demo_env) = Some s' /\
    stockHistory s' !! "TSLA"
      = Some (drop 3 (h0 ++ @made demo_env 3 (@init demo_env) j "TSLA")) /\
    length (drop 3 (h0 ++ @made demo_env 3 (@init demo_env) j "TSLA")) = 100.
Proof.
  assert (H1 : In "TSLA" STOCKS) by (vm_compute; tauto).
  split; [exact H1|].
  destruct (@history_window demo_env 3 "TSLA" H1)
    as (j & h0 & A & B & _ & _ & (s' & C & D & E) & _).
  exists j, h0, s'. auto.
Defined.



(** Socket 3 never logged in: its [subscribe] changes neither rooms nor store. *)
Lemma subscribe_requires_login_witness :
  session 3 empty_server = None /\
  exists s', @run demo_env unit (subscribe 3 "GOOG") [] empty_server demo_db = (tt, s', demo_db) /\
     rooms s' = rooms empty_server.
Proof.
  assert (H1 : session 3 empty_server = None) by (vm_compute; reflexivity).
  split; [exact H1|].
  destruct (@subscribe_requires_login demo_env 3 "GOOG" empty_server demo_db [] H1)
    as (s' & A & _ & _ & _ & B & _).
  exists s'. auto.
Defined.

(** The [$pull] is rejected: socket 1 is in the room all the same. *)
Lemma subscribe_survives_store_failure_witness :
  session 1 logged_in = Some "ada@example.com" /\ In "GOOG" STOCKS /\
  (hd false [true] = true \/ hd false (tl [true]) = true) /\
  exists s' db', @run demo_env unit (subscribe 1 "GOOG") [true] logged_in demo_db = (tt, s', db') /\
     ("GOOG", 1) ∈ rooms s' /\ db' = demo_db.
Proof.
  assert (H1 : session 1 logged_in = Some "ada@example.com") by (vm_compute; reflexivity).
  assert (H2 : In "GOOG" STOCKS) by (vm_compute; tauto).
  assert (H3 : hd false [true] = true \/ hd false (tl [true]) = true) by (left; reflexivity).
  split; [exact H1|]. split; [exact H2|]. split; [exact H3|].
  destruct (@subscribe_survives_store_failure demo_env 1 "GOOG" "ada@example.com" logged_in demo_db
              [true] H1 H2 H3) as [(s' & db' & A & _ & B & _ & _ & C) _].
  exists s', db'. split; [exact A|]. split; [exact B|]. apply C. reflexivity.
Defined.

(** [unsubscribe] of a symbol outside the catalog: the [$pull] is sent, nothing
    is written to the socket. *)
Lemma unsubscribe_any_symbol_witness :
  session 1 logged_in = Some "ada@example.com" /\
  exists s', @run demo_env unit (unsubscribe 1 "DOGE") [] logged_in demo_db
     = (tt, s', alter (pull "DOGE") "ada@example.com" demo_db) /\ outbox s' = outbox logged_in.
Proof.
  assert (H1 : session 1 logged_in = Some "ada@example.com") by (vm_compute; reflexivity).
  split; [exact H1|].
  destruct (@unsubscribe_any_symbol demo_env 1 "DOGE" "ada@example.com" logged_in demo_db [] H1)
    as (s' & s1 & k & A & _ & _ & _ & _ & B & _).
  exists s'. auto.
Defined.


(** Two calls in turn: one subscription for GOOG, at the price of the second. *)
Lemma subscribe_twice_in_turn_witness :
  In "GOOG" STOCKS /\ session 1 logged_in = Some "ada@example.com" /\
  demo_db !! "ada@example.com" = Some demo_user /\
  parseFloat_opt (currentPrices logged_in !! "GOOG") = Num (17550 # 100)%Q /\
  exists user2,
    snd (@run demo_env unit (subscribe 1 "GOOG") [] logged_in
           (snd (@run demo_env unit (subscribe 1 "GOOG") [] logged_in demo_db)))
      !! "ada@example.com" = Some user2 /\
    List.filter (has_symbol "GOOG") (subscriptions user2)
      = [ Some {| symbol := Some "GOOG"; entryPrice := Some (17550 # 100)%Q |} ].
Proof.
  assert (H1 : In "GOOG" STOCKS) by (vm_compute; tauto).
  assert (H2 : session 1 logged_in = Some "ada@example.com") by (vm_compute; reflexivity).
  assert (H3 : demo_db !! "ada@example.com" = Some demo_user) by (vm_compute; reflexivity).
  assert (H4 : parseFloat_opt (currentPrices logged_in !! "GOOG") = Num (17550 # 100)%Q)
    by (vm_compute; reflexivity).
  split; [exact H1|]. split; [exact H2|]. split; [exact H3|]. split; [exact H4|].
  destruct (@subscribe_twice_in_turn demo_env 1 "GOOG" "ada@example.com" demo_user
              logged_in logged_in demo_db [] (17550 # 100)%Q H1 H2 H3 H2 H4) as (u & A & B & _).
  exists u. auto.
Defined.

(** C4, as stated, fails: when the second [subscribe] arrives while the
    first waits for the store, both [$pull]s run before both [$push]es and
    the account ends with two subscriptions for the symbol, one per call. *)
Lemma subscribe_twice_overlapping :
  option_map
    (fun sys =>
       (length (pending sys),
        (fun u => List.filter (has_symbol "GOOG") (subscriptions u))
          <$> database sys !! "ada@example.com"))
    (@exec demo_env overlap demo_start)
  = Some (0, Some [ Some {| symbol := Some "GOOG"; entryPrice := Some (17377 # 100)%Q |};
                    Some {| symbol := Some "GOOG"; entryPrice := Some (17360 # 100)%Q |} ]).
Proof. vm_compute. reflexivity. Qed.

(** C8, as stated, fails: with socket 1 alone in the room of GOOG alone,
    one firing of the timer delivers one [priceUpdate], not five. *)
Lemma tick_one_room_one_event :
  rooms one_room = {[ ("GOOG", 1) ]} /\
  outbox one_room = [] /\
  option_map (fun s' => length (outbox s')) (@tick demo_env one_room) = Some 1 /\
  option_map (fun s' => length (outbox s')) (@tick demo_env one_room) <> Some 5.
Proof.
  assert (E : option_map (fun s' => length (outbox s')) (@tick demo_env one_room) = Some 1)
    by (vm_compute; reflexivity).
  split; [vm_compute; reflexivity|]. split; [vm_compute; reflexivity|].
  split; [exact E|]. rewrite E. discriminate.
Qed.

(** One firing with socket 1 alone in the room of GOOG: one event, for GOOG. *)
Lemma tick_delivery_witness :
  (forall x, In x STOCKS -> is_Some (stockHistory one_room !! x)) /\
  exists s' dp, @tick demo_env one_room = Some s' /\ code dp = Some "GOOG" /\
     outbox s' = outbox one_room ++ [ (1, priceUpdate dp) ].
Proof.
  assert (H1 : forall x, In x STOCKS -> is_Some (stockHistory one_room !! x)).
  { intros x Hx.
    assert (E : In x STOCKS -> bool_decide (is_Some (stockHistory one_room !! x)) = true).
    { clear. intros Hx. vm_compute in Hx.
      destruct Hx as [<- | [<- | [<- | [<- | [<- | []]]]]]; vm_compute; reflexivity. }
    apply bool_decide_eq_true in E; [exact E | exact Hx]. }
  split; [exact H1|].
  destruct (@tick_delivery demo_env one_room H1) as (s' & dps & A & _ & _ & _ & _ & _ & B & _).
  destruct (B "GOOG" 1 ltac:(left; reflexivity) ltac:(vm_compute; reflexivity))
    as (dp & _ & C & D).
  exists s', dp. auto.
Defined.

(** An address without [@] is turned away before the store is asked. *)
Lemma register_rejects_bad_input_witness :
  isValidEmail "bob.example.com" = false /\
  exists msg,
    @Registration.run demo_bcrypt unit
      (Registration.register 1 (Some "Bob") (Some "bob.example.com") (Some "secret"))
      [] [] demo_db
    = ([ (1, Registration.authError msg) ], demo_db).
Proof.
  assert (H1 : isValidEmail "bob.example.com" = false) by (vm_compute; reflexivity).
  split; [exact H1|].
  destruct (@register_rejects_bad_input demo_bcrypt 1
              (Some "Bob") (Some "bob.example.com") (Some "secret") [] [] demo_db
              (or_intror (or_intror (or_intror H1))))
    as (msg & _ & E & _).
  exists msg. exact E.
Defined.

(** Bob registers. *)
Lemma register_creates_account_witness :
  bad_details (Some "Bob") (Some "bob@example.com") (Some "secret") = false /\
  isValidEmail "bob@example.com" = true /\
  demo_db !! "bob@example.com" = None /\
  fst (@Registration.run demo_bcrypt unit
         (Registration.register 1 (Some "Bob") (Some "bob@example.com") (Some "secret"))
         [] [] demo_db)
  = [ (1, Registration.registerSuccess "Registration successful!") ].
Proof.
  assert (H1 : bad_details (Some "Bob") (Some "bob@example.com") (Some "secret") = false)
    by (vm_compute; reflexivity).
  assert (H2 : isValidEmail "bob@example.com" = true) by (vm_compute; reflexivity).
  assert (H3 : demo_db !! "bob@example.com" = None) by (vm_compute; reflexivity).
  split; [exact H1|]. split; [exact H2|]. split; [exact H3|].
  destruct (@register_creates_account demo_bcrypt 1
              (Some "Bob") (Some "bob@example.com") (Some "secret") [] demo_db H1 H2 H3)
    as (E & _).
  exact E.
Defined.


(** Bob registers on socket 1 and logs in on socket 2. *)
Lemma register_then_login_witness :
  bad_details (Some "Bob") (Some "bob@example.com") (Some "secret") = false /\
  isValidEmail "bob@example.com" = true /\
  demo_db !! "bob@example.com" = None /\
  exists db' s',
    @run demo_env unit (login 2 "bob@example.com" "secret") [] empty_server db'
      = (tt, s', db') /\
    session 2 s' = Some "bob@example.com".
Proof.
  assert (H1 : bad_details (Some "Bob") (Some "bob@example.com") (Some "secret") = false)
    by (vm_compute; reflexivity).
  assert (H2 : isValidEmail "bob@example.com" = true) by (vm_compute; reflexivity).
  assert (H3 : demo_db !! "bob@example.com" = None) by (vm_compute; reflexivity).
  split; [exact H1|]. split; [exact H2|]. split; [exact H3|].
  destruct (@register_then_login demo_env demo_bcrypt 1 2
              (Some "Bob") (Some "bob@example.com") (Some "secret") "secret"
              [] demo_db empty_server H1 H2 H3)
    as (db' & s' & _ & E & _ & Hok & _).
  exists db', s'. split; [exact E|].
  destruct (Hok ltac:(vm_compute; reflexivity)) as [Hs _]. exact Hs.
Defined.

(** GOOG after start-up, a [joinFeed] and one firing of the timer. *)
Lemma price_band_witness :
  @random_in_range demo_env /\
  Forall with_payload [Arrive 1 (carrying (joinFeed_msg "GOOG")); Fire] /\
  exists sys' c,
    @play demo_env [Arrive 1 (carrying (joinFeed_msg "GOOG")); Fire]
      {| server := @init demo_env; database := demo_db; pending := [] |} = Some sys' /\
    parseFloat_opt (currentPrices (server sys') !! "GOOG") = Num c /\ (128 <= c)%Q.
Proof.
  assert (H1 : @random_in_range demo_env).
  { intros n. cbn [Math_random demo_env]. unfold Qle, Qlt. cbn [Qnum Qden].
    pose proof (Nat.mod_upper_bound n 4 ltac:(discriminate)). lia. }
  assert (H2 : Forall with_payload [Arrive 1 (carrying (joinFeed_msg "GOOG")); Fire])
    by (repeat constructor).
  split; [exact H1|]. split; [exact H2|].
  destruct (@price_band demo_env [Arrive 1 (carrying (joinFeed_msg "GOOG")); Fire]
              demo_db H1) as (Hlive & _ & Hband).
  destruct (Hlive H2) as (sys' & E).
  destruct (Hband sys' E "GOOG" (17550 # 100)%Q ltac:(reflexivity)) as (c & Ec & _ & _ & Hc).
  exists sys', c. auto.
Defined.

(** TSLA after start-up and one firing of the timer. *)
Lemma price_two_decimals_witness :
  @random_in_range demo_env /\ In "TSLA" STOCKS /\
  exists sys' p,
    @exec demo_env [Tick] {| server := @init demo_env; database := demo_db; pending := [] |}
      = Some sys' /\
    currentPrices (server sys') !! "TSLA" = Some p /\ toFixed2 (parseFloat p) = p.
Proof.
  assert (H1 : @random_in_range demo_env).
  { intros n. cbn [Math_random demo_env]. unfold Qle, Qlt. cbn [Qnum Qden].
    pose proof (Nat.mod_upper_bound n 4 ltac:(discriminate)). lia. }
  assert (H2 : In "TSLA" STOCKS) by (vm_compute; tauto).
  split; [exact H1|]. split; [exact H2|].
  destruct (@price_two_decimals demo_env [Tick] demo_db "TSLA" H1 H2)
    as (sys' & p & n & E & Hp & _ & _ & Hr).
  exists sys', p. auto.
Defined.

(** AMZN after a call of [joinFeed] and one firing of the timer. *)
Lemma current_price_is_newest_point_witness :
  In "AMZN" STOCKS /\
  exists sys' p h d,
    @exec demo_env [Receive 1 (joinFeed_msg "AMZN"); Tick]
      {| server := @init demo_env; database := demo_db; pending := [] |} = Some sys' /\
    currentPrices (server sys') !! "AMZN" = Some p /\
    stockHistory (server sys') !! "AMZN" = Some h /\
    last h = Some d /\ price d = p.
Proof.
  assert (H1 : In "AMZN" STOCKS) by (vm_compute; tauto).
  split; [exact H1|].
  exact (@current_price_is_newest_point demo_env
           [Receive 1 (joinFeed_msg "AMZN"); Tick] demo_db "AMZN" H1).
Defined.

(** META after three firings: the first 97 points carry no symbol. *)
Lemma history_codes_witness :
  In "META" STOCKS /\
  exists s' h,
    @ticks demo_env 3 (@init demo_env) = Some s' /\
    stockHistory s' !! "META" = Some h /\ length h = 100.
Proof.
  assert (H1 : In "META" STOCKS) by (vm_compute; tauto).
  split; [exact H1|].
  destruct (@history_codes demo_env 3 "META" H1) as (s' & h & A & B & C & _).
  exists s', h. auto.
Defined.

(** Three points appended to a full buffer: the three oldest points go, the
    new ones are the last three. *)
Lemma buffer_window_witness :
  length (repeat demo_point 100) <= 100 /\
  fold_left append_point [demo_point_1; demo_point_2; demo_point_3] (repeat demo_point 100)
  = repeat demo_point 97 ++ [demo_point_1; demo_point_2; demo_point_3].
Proof.
  assert (H1 : length (repeat demo_point 100) <= 100) by (vm_compute; lia).
  split; [exact H1|].
  destruct (buffer_window [demo_point_1; demo_point_2; demo_point_3]
              (repeat demo_point 100) H1) as [E _].
  rewrite E. vm_compute. reflexivity.
Defined.

(** The first firing after start-up: no socket is in a room, before and
    after. *)
Lemma tick_frame_witness :
  exists s', @tick demo_env (@init demo_env) = Some s' /\
             rooms s' = rooms (@init demo_env).
Proof.
  destruct (@tick_full demo_env (@init demo_env) (@init_full demo_env)) as (s' & E & _).
  exists s'. split; [exact E|].
  destruct (@tick_frame demo_env (@init demo_env) s' E) as (A & _). exact A.
Defined.

(** The timer on a memory without histories. *)
Lemma tick_missing_history_witness :
  In "GOOG" STOCKS /\ stockHistory empty_server !! "GOOG" = None /\
  @tick demo_env empty_server = None.
Proof.
  assert (H1 : In "GOOG" STOCKS) by (vm_compute; tauto).
  assert (H2 : stockHistory empty_server !! "GOOG" = None) by (vm_compute; reflexivity).
  split; [exact H1|]. split; [exact H2|].
  destruct (@tick_missing_history demo_env empty_server "GOOG"
              {| server := empty_server; database := demo_db; pending := [] |} []
              H1 H2 ltac:(reflexivity)) as [E _].
  exact E.
Defined.


(** A login to an address that has no account. *)
Lemma login_rejected_witness :
  demo_db !! "eve@example.com" = None /\
  exists s',
    @run demo_env unit (login 3 "eve@example.com" "guess") [] empty_server demo_db
      = (tt, s', demo_db) /\
    outbox s' = [ (3, authError "User not found.") ] /\
    userEmail s' = userEmail empty_server.
Proof.
  assert (H1 : demo_db !! "eve@example.com" = None) by (vm_compute; reflexivity).
  split; [exact H1|].
  destruct (@login_rejected demo_env 3 "eve@example.com" "guess" empty_server demo_db []
              ltac:(right; rewrite H1; exact I))
    as (s' & msg & E & O & _ & U & M & _).
  exists s'. split; [exact E|]. split; [|exact U].
  rewrite O, M. cbn [hd]. rewrite H1. reflexivity.
Defined.

(** Ada logs in with three catalog subscriptions persisted. *)
Lemma login_restores_rooms_witness :
  stale_db !! "ada@example.com" = Some stale_user /\
  @bcrypt_compare demo_env "hash" (password stale_user) = true /\
  exists s',
    @run demo_env unit (login 1 "ada@example.com" "hash") [] logged_in stale_db
      = (tt, s', stale_db) /\
    ("NVDA", 1) ∈ rooms s'.
Proof.
  assert (H1 : stale_db !! "ada@example.com" = Some stale_user) by (vm_compute; reflexivity).
  assert (H2 : @bcrypt_compare demo_env "hash" (password stale_user) = true)
    by (vm_compute; reflexivity).
  split; [exact H1|]. split; [exact H2|].
  destruct (@login_restores_rooms demo_env 1 "ada@example.com" "hash" stale_user
              logged_in stale_db H1 H2) as (s' & E & _ & R & _).
  exists s'. split; [exact E|]. apply R. right. split; [reflexivity|].
  vm_compute. tauto.
Defined.

(** Socket 2 sends nothing; socket 1 joins a feed and the timer fires. *)
Lemma socket_isolation_witness :
  full (server demo_start) /\
  from_others 2 [Receive 1 (joinFeed_msg "GOOG"); Tick] /\
  exists sys',
    @exec demo_env [Receive 1 (joinFeed_msg "GOOG"); Tick] demo_start = Some sys' /\
    userEmail (server sys') !! 2 = userEmail (server demo_start) !! 2.
Proof.
  assert (H0 : full (server demo_start)) by exact (@full_start demo_env demo_db).
  assert (H1 : from_others 2 [Receive 1 (joinFeed_msg "GOOG"); Tick]).
  { unfold from_others. repeat constructor. discriminate. }
  split; [exact H0|]. split; [exact H1|].
  destruct (@socket_isolation demo_env 2 [Receive 1 (joinFeed_msg "GOOG"); Tick]
              demo_start H0 (Forall_nil_2 _) H1)
    as (sys' & ups & E & _ & U & _).
  exists sys'. split; [exact E | exact U].
Defined.

(** Ada leaves the room of GOOG with [unsubscribeAll]. *)
Lemma unsubscribeAll_not_persisted_witness :
  session 1 logged_in = Some "ada@example.com" /\
  exists s',
    @run demo_env unit (unsubscribeAll 1 ["GOOG"]) [] logged_in demo_db = (tt, s', demo_db) /\
    outbox s' = outbox logged_in.
Proof.
  assert (H1 : session 1 logged_in = Some "ada@example.com") by (vm_compute; reflexivity).
  split; [exact H1|].
  destruct (@unsubscribeAll_not_persisted demo_env 1 ["GOOG"] "ada@example.com"
              logged_in demo_db [] H1) as (s' & E & _ & _ & O & _).
  exists s'. auto.
Defined.

(** Socket 7, which never logged in, joins the feed of GOOG. *)
Lemma joinFeed_without_session_witness :
  In "GOOG" STOCKS /\
  exists s1 s2 dp,
    advance (joinFeed 7 "GOOG") (@init demo_env) = (s1, Ret tt) /\
    userEmail s1 = userEmail (@init demo_env) /\
    @tick demo_env s1 = Some s2 /\ code dp = Some "GOOG" /\
    In (7, priceUpdate dp) (outbox s2).
Proof.
  assert (H2 : In "GOOG" STOCKS) by (vm_compute; tauto).
  split; [exact H2|].
  destruct (@joinFeed_without_session demo_env 7 "GOOG" (@init demo_env)
              (@init_full demo_env)) as (s1 & E & U & _ & Hin & _).
  destruct (Hin H2) as (_ & s2 & dp & A & B & C).
  exists s1, s2, dp. auto.
Defined.

(** Ada unsubscribes from GOOG. *)
Lemma unsubscribe_then_login_witness :
  session 1 logged_in = Some "ada@example.com" /\
  stale_db !! "ada@example.com" = Some stale_user /\
  exists s' db' user',
    @run demo_env unit (unsubscribe 1 "GOOG") [] logged_in stale_db = (tt, s', db') /\
    db' !! "ada@example.com" = Some user' /\
    List.filter (has_symbol "GOOG") (subscriptions user') = [].
Proof.
  assert (H1 : session 1 logged_in = Some "ada@example.com") by (vm_compute; reflexivity).
  assert (H2 : stale_db !! "ada@example.com" = Some stale_user) by (vm_compute; reflexivity).
  split; [exact H1|]. split; [exact H2|].
  destruct (@unsubscribe_then_login demo_env 1 "GOOG" "ada@example.com" stale_user
              logged_in stale_db H1 H2)
    as (s' & db' & user' & E & A & _ & _ & _ & B & _).
  exists s', db', user'. auto.
Defined.

(** Ada subscribes to GOOG at 173.77; the timer fires twice before the
    [$pull] is answered and once before the [$push] is. *)
Lemma subscribe_price_at_call_witness :
  full demo_session /\ session 1 demo_session = Some "ada@example.com" /\ In "GOOG" STOCKS /\
  demo_db !! "ada@example.com" = Some demo_user /\
  parseFloat_opt (currentPrices demo_session !! "GOOG") = Num (17377 # 100)%Q /\
  exists sys' user',
    @exec demo_env
      (Receive 1 (subscribe_msg "GOOG")
       :: repeat Tick 2 ++ Resume 0 false :: repeat Tick 1 ++ [Resume 0 false])
      {| server := demo_session; database := demo_db; pending := [] |} = Some sys' /\
    database sys' !! "ada@example.com" = Some user' /\
    List.filter (has_symbol "GOOG") (subscriptions user')
      = [ Some {| symbol := Some "GOOG"; entryPrice := Some (17377 # 100)%Q |} ].
Proof.
  assert (H0 : full demo_session)
    by exact (full_set_userEmail 1 "ada@example.com" (@init demo_env) (@init_full demo_env)).
  assert (H1 : session 1 demo_session = Some "ada@example.com") by (vm_compute; reflexivity).
  assert (H2 : In "GOOG" STOCKS) by (vm_compute; tauto).
  assert (H3 : demo_db !! "ada@example.com" = Some demo_user) by (vm_compute; reflexivity).
  assert (H4 : parseFloat_opt (currentPrices demo_session !! "GOOG")
               = Num (17377 # 100)%Q) by (vm_compute; reflexivity).
  split; [exact H0|].
  split; [exact H1|]. split; [exact H2|]. split; [exact H3|]. split; [exact H4|].
  destruct (@subscribe_price_at_call demo_env 1 "GOOG" "ada@example.com" demo_user
              (17377 # 100)%Q 2 1 demo_session demo_db H0 H1 H2 H3 H4)
    as (sys' & user' & E & _ & A & B & _).
  exists sys', user'. auto.
Defined.
